(** * VeilX marketplace: settlement and authorization engine

    A shallow embedding of the server-side code that authorizes signed
    requests, keeps the pooled balance ledger and commits trades.  The
    modules follow the source files (named by their import paths; the
    repository snapshot holds them as [src/unnamed/part_NNN]):

    - [Schema]: [@shared/schema] ([part_001], first half), the tables;
    - [Storage]: [server/storage] ([part_003]), class [DatabaseStorage]:
      [createListing], [deactivateListing], [createTrade],
      [updateNftOwner], [createOrUpdatePoolBalance], [atomicPoolBuy];
    - [Signing]: [@shared/signing] ([part_001], second half):
      [isSignatureExpired], [getTypeName], [verifySignature];
    - [Relayer]: [server/relayer] ([part_004]):
      [checkOnChainListingStatus], [buyNFTViaRelayer];
    - [Routes]: [server/routes.ts]: [verifySignedRequest], the nonce
      sweep, [POST /api/buy] and [POST /api/buy/private].
    - [Registry], [Totals]: invariants of the listings and of the pool;
    - [Client]: the client's signing helpers ([getNextNonce] and the
      [sign...Request] functions, first file of [part_006]) and
      [getSignatureExpiryTime] of [@shared/signing];
    - [Minting]: [mintFromCollection], [poolMintFromCollection] and
      [createNft] of [server/storage];
    - [PoolRoutes]: [POST /api/pool/deposit], [POST /api/pool/withdraw],
      [POST /api/pool/buy], [POST /api/listings],
      [POST /api/listings/cancel] and [GET /api/nfts/:id] of
      [server/routes.ts], with [recordPoolTransaction] and
      [getTradesByNftId] of [server/storage] and [withdrawFromPool] of
      [server/relayer];
    - [RelayerListing]: [POST /api/listings/relayer] and
      [POST /api/relayer/unlist] of [server/routes.ts], with
      [isRelayerOwner], [listNFTViaRelayer] and [unlistNFTViaRelayer] of
      [server/relayer];
    - [PrivacyPool]: the pool contract, [contracts/PrivacyPool.sol].

    The pool ledger of the source computes with ECMAScript numbers
    ([parseFloat], [+], [-], [<], [toFixed(8)]); module [Js] models them
    as IEEE 754 binary64 values.  One request is handled at a time: the
    interleaving of concurrent requests is not modelled. *)

From Stdlib Require Import ZArith Lia Bool Ascii String SpecFloat.
From stdpp Require Import base option list gmap strings pretty.

Local Open Scope Z_scope.

(** ** ECMAScript numbers *)

Module Js.

(** A finite binary64 value is an integer multiple of [2^-1074], the
    smallest subnormal: [Fin v] denotes [v * 2^-1074].  The two zeros
    are identified: none of [+], [-], [<], [toFixed] tells them apart. *)
Inductive number :=
  | Fin (v : Z)
  | Inf (neg : bool)
  | NaN.

Definition unit_exp : Z := 1074.

(** [U] is the number of units in 1.0. *)
Definition U : Z := 2 ^ unit_exp.

(** Decimal numerals carry eight fractional digits, the scale of every
    [numeric(18,8)] column: the integer [n] stands for [n / 10^8]. *)
Definition D : Z := 10 ^ 8.

(** Nearest integer to [a / d], ties to even ([0 <= a], [0 < d]). *)
Definition rne (a d : Z) : Z :=
  let (f, r) := Z.div_eucl a d in
  if 2 * r <? d then f
  else if d <? 2 * r then f + 1
  else if Z.even f then f else f + 1.

(** Round the non-negative rational [a / d] (in units) to 53 significant
    bits.  Below [2^53] units (subnormals and the first binade) the
    spacing is one unit; above, it is [2^(e-52)] for a value in
    [[2^e, 2^(e+1))]. *)
Definition round_mag (a d : Z) : Z :=
  let s := Z.log2 (a / d) - 52 in
  if s <=? 0 then rne a d else rne a (d * 2 ^ s) * 2 ^ s.

(** Round to nearest, ties to even, overflowing to an infinity at
    [2^1024]. *)
Definition round_ratio (p d : Z) : number :=
  let m := round_mag (Z.abs p) d in
  if 2 ^ 2098 <=? m then Inf (p <? 0) else Fin (Z.sgn p * m).

Definition add (x y : number) : number :=
  match x, y with
  | NaN, _ | _, NaN => NaN
  | Inf a, Inf b => if Bool.eqb a b then Inf a else NaN
  | Inf a, Fin _ => Inf a
  | Fin _, Inf b => Inf b
  | Fin a, Fin b => round_ratio (a + b) 1
  end.

Definition neg (x : number) : number :=
  match x with
  | Fin v => Fin (- v)
  | Inf b => Inf (negb b)
  | NaN => NaN
  end.

Definition sub (x y : number) : number := add x (neg y).

Definition lt (x y : number) : bool :=
  match x, y with
  | NaN, _ | _, NaN => false
  | Fin a, Fin b => a <? b
  | Fin _, Inf b => negb b
  | Inf a, Fin _ => a
  | Inf a, Inf b => a && negb b
  end.

Definition zero : number := Fin 0.

(** [parseFloat] of the decimal numeral [n / 10^8]: the nearest double. *)
Definition parseFloat (n : Z) : number := round_ratio (n * U) D.

(** [x.toFixed(8)], read back as a number of [10^-8] units: the integer
    [n] with [n / 10^8] closest to [x], the larger one (in magnitude, the
    sign is split off first) on a tie.  [None] stands for the outputs
    that are not such a numeral: exponent notation from [10^21] on,
    ["Infinity"], ["NaN"]. *)
Definition toFixed8 (x : number) : option Z :=
  match x with
  | Fin v =>
      let a := Z.abs v in
      if 10 ^ 21 * U <=? a then None
      else Some (Z.sgn v * ((2 * a * D + U) / (2 * U)))
  | _ => None
  end.

(** Agreement with the binary64 operations of the Standard Library's
    [SpecFloat] is checked on samples below. *)
Definition of_spec (x : spec_float) : number :=
  match x with
  | S754_nan => NaN
  | S754_infinity b => Inf b
  | S754_zero _ => Fin 0
  | S754_finite s m e => Fin ((if s then -1 else 1) * Zpos m * 2 ^ (e + unit_exp))
  end.

Definition b64_of_Z (n : Z) : spec_float := binary_normalize 53 1024 n 0 false.

(** The decimal [n / 10^8] by one correctly rounded division; exact
    operands need [|n| < 2^53]. *)
Definition b64_decimal (n : Z) : spec_float :=
  SFdiv 53 1024 (b64_of_Z n) (b64_of_Z D).

Definition eqb (x y : number) : bool :=
  match x, y with
  | Fin a, Fin b => a =? b
  | Inf a, Inf b => Bool.eqb a b
  | NaN, NaN => true
  | _, _ => false
  end.

(** Decimals whose numerator is below [2^53], for [b64_decimal]. *)
Definition decimal_samples : list Z :=
  [0; 1; 3; 10000000; 30000000; 99999999; 123456789; 3400000000000001;
   9000000000000001; 9007199254740991; -20000000; -9000000000000001].

Definition b64_min : spec_float := S754_finite false 1 (-1074).
Definition b64_max : spec_float := S754_finite false 9007199254740991 971.

(** Pairs of doubles: decimals of the ledger, and the ends of the format
    (zeros, subnormals, the largest finite double, infinities, NaN). *)
Definition binary64_pairs : list (spec_float * spec_float) :=
  [(b64_decimal 10000000, b64_decimal 20000000);
   (b64_decimal 50000000, b64_decimal 20000000);
   (b64_decimal 9000000000000001, b64_decimal 1);
   (b64_decimal 9000000000000001, b64_decimal 2);
   (b64_decimal 3400000000000001, b64_decimal 1);
   (b64_decimal 100000000, b64_decimal (-150000000));
   (b64_decimal 123456789, b64_decimal 123456789);
   (b64_decimal 1, b64_decimal 9007199254740991);
   (b64_decimal (-20000000), b64_decimal 99999999);
   (S754_zero false, S754_zero true);
   (S754_zero true, b64_decimal 1);
   (b64_min, b64_min);
   (b64_min, S754_finite true 1 (-1074));
   (S754_finite false 4503599627370495 (-1074), b64_min);
   (S754_finite false 4503599627370496 (-1074), S754_finite false 6004799503160661 (-54));
   (b64_max, b64_max);
   (b64_max, S754_finite false 1 970);
   (b64_max, S754_finite false 1 969);
   (b64_max, S754_finite true 9007199254740991 971);
   (b64_max, b64_min);
   (S754_infinity false, S754_infinity true);
   (S754_infinity false, S754_infinity false);
   (S754_infinity true, b64_max);
   (S754_nan, b64_decimal 1);
   (b64_decimal 1, S754_nan)].

(** [op] of the Standard Library and [op'] of this module agree on the
    pairs, in both orders. *)
Definition agree_on (pairs : list (spec_float * spec_float))
    (op : spec_float → spec_float → spec_float) (op' : number → number → number) : bool :=
  forallb (λ p, eqb (of_spec (op p.1 p.2)) (op' (of_spec p.1) (of_spec p.2))
                && eqb (of_spec (op p.2 p.1)) (op' (of_spec p.2) (of_spec p.1))) pairs.

(** Amounts and balances up to ten million currency units: there the
    arithmetic of the ledger is exact after [toFixed(8)]. *)
Definition limit : Z := 10 ^ 15.

Definition in_range (n : Z) : Prop := Z.abs n <= limit.

(** Error of one [parseFloat] in the range, in units. *)
Definition eps : Z := 2 ^ 1044.

(** [x] is finite and within [E] units of [p / d]. *)
Definition near (x : number) (p d E : Z) : Prop :=
  exists v, x = Fin v /\ Z.abs (v * d - p) <= E * d.

End Js.

(** ** Thrown errors and database statements *)

(** What a storage method or a statement throws.  [Error] carries the
    message of a [new Error(...)] of the source; [InsufficientPool] is the
    message of [atomicPoolBuy] that quotes both amounts with
    [toFixed(8)]; [DbError] is a PostgreSQL error by SQLSTATE
    (23505 unique violation, 23503 foreign key violation, 22003 numeric
    value out of range, 22P02 invalid text representation). *)
Inductive Err :=
  | Error (message : string)
  | InsufficientPool (have need : option Z)
  | DbError (sqlstate : string).

Inductive outcome (A : Type) :=
  | Ok (a : A)
  | Throw (e : Err).
Arguments Ok {A} a.
Arguments Throw {A} e.

Global Instance outcome_ret : MRet outcome := @Ok.
Global Instance outcome_bind : MBind outcome := λ A B f x,
  match x with
  | Ok a => f a
  | Throw e => Throw e
  end.

(** ** The schema ([shared/schema.ts]) *)

Module Schema.

(** Rows carry the columns that the modelled code reads or writes.
    [numeric(18,8)] columns hold an integer number of [10^-8] units;
    timestamps are milliseconds. *)
Record Collection := { contractAddress : option string }.

Record Nft := {
  nft_collectionId : option string;
  nft_tokenId : Z;
  nft_encryptedOwner : string }.

Record Listing := {
  listing_id : string;
  listing_nftId : string;
  listing_encryptedSeller : string;
  listing_price : Z;
  listing_isActive : bool }.

Record InsertListing := {
  il_nftId : string;
  il_encryptedSeller : string;
  il_price : Z;
  il_isActive : option bool }.

Record Trade := {
  trade_nftId : string;
  trade_encryptedBuyer : string;
  trade_encryptedSeller : string;
  trade_price : Z }.

(** A row of [pool_balances] without its [account_hash]: the column is
    unique and keys the table in [Database]. *)
Record PoolBalance := {
  pb_encryptedOwner : string;
  pb_balance : Z;
  pb_totalDeposited : Z;
  pb_totalSpent : Z;
  pb_lastActivity : Z }.

Inductive PoolTxType := deposit | withdraw | mint_payment | nft_purchase | nft_sale.

Record PoolTransaction := {
  pt_accountHash : string;
  pt_type : PoolTxType;
  pt_amount : Z;
  pt_txHash : option string;
  pt_nftId : option string }.

Record Database := {
  collections : gmap string Collection;
  nfts : gmap string Nft;
  listings : list Listing;
  trades : list Trade;
  poolBalances : gmap string PoolBalance;
  poolTransactions : list PoolTransaction }.

Global Instance PoolTxType_eq_dec : EqDecision PoolTxType.
Proof. solve_decision. Defined.

(** A value written to a [numeric(18,8)] column. *)
Definition numeric_18_8 (n : Z) : outcome Z :=
  if Z.abs n <? 10 ^ 18 then Ok n else Throw (DbError "22003").

(** The text of [toFixed(8)] written to a [numeric(18,8)] column.
    Exponent notation and ["Infinity"] do not fit the column; ["NaN"] is
    rejected here as well (PostgreSQL would store it), a case that
    decimal amounts and stored column values never produce. *)
Definition numeric_of_text (s : option Z) : outcome Z :=
  match s with
  | Some n => numeric_18_8 n
  | None => Throw (DbError "22P02")
  end.

End Schema.

(** ** [DatabaseStorage] ([server/storage.ts]) *)

Module Storage.
Import Schema.

Definition set_listings (f : list Listing → list Listing) (db : Database) : Database :=
  {| collections := collections db; nfts := nfts db; listings := f (listings db);
     trades := trades db; poolBalances := poolBalances db;
     poolTransactions := poolTransactions db |}.

Definition set_trades (f : list Trade → list Trade) (db : Database) : Database :=
  {| collections := collections db; nfts := nfts db; listings := listings db;
     trades := f (trades db); poolBalances := poolBalances db;
     poolTransactions := poolTransactions db |}.

Definition set_nfts (f : gmap string Nft → gmap string Nft) (db : Database) : Database :=
  {| collections := collections db; nfts := f (nfts db); listings := listings db;
     trades := trades db; poolBalances := poolBalances db;
     poolTransactions := poolTransactions db |}.

Definition set_poolBalances
    (f : gmap string PoolBalance → gmap string PoolBalance) (db : Database) : Database :=
  {| collections := collections db; nfts := nfts db; listings := listings db;
     trades := trades db; poolBalances := f (poolBalances db);
     poolTransactions := poolTransactions db |}.

Definition set_poolTransactions
    (f : list PoolTransaction → list PoolTransaction) (db : Database) : Database :=
  {| collections := collections db; nfts := nfts db; listings := listings db;
     trades := trades db; poolBalances := poolBalances db;
     poolTransactions := f (poolTransactions db) |}.

(** [db.transaction(async (tx) => ...)]: the body's writes are kept when
    it returns and dropped when it throws. *)
Definition transaction {A} (db : Database)
    (body : Database → outcome (A * Database)) : outcome A * Database :=
  match body db with
  | Ok (a, db') => (Ok a, db')
  | Throw e => (Throw e, db)
  end.

(** The foreign key [nft_id -> nfts.id]. *)
Definition references_nft (db : Database) (nftId : string) : outcome unit :=
  match nfts db !! nftId with
  | Some _ => Ok ()
  | None => Throw (DbError "23503")
  end.

Definition getCollectionById (db : Database) (id : option string) : option Collection :=
  id ≫= λ i, collections db !! i.

Definition getNftById (db : Database) (id : string) : option Nft :=
  nfts db !! id.

Definition updateNftOwner (db : Database) (nftId encryptedOwner : string) : Database :=
  set_nfts (alter (λ n, {| nft_collectionId := nft_collectionId n;
                           nft_tokenId := nft_tokenId n;
                           nft_encryptedOwner := encryptedOwner |}) nftId) db.

Definition getListingByNftId (db : Database) (nftId : string) : option Listing :=
  List.find (λ l, bool_decide (listing_nftId l = nftId) && listing_isActive l)
            (listings db).

Definition deactivate (listingId : string) (l : Listing) : Listing :=
  if bool_decide (listing_id l = listingId)
  then {| listing_id := listing_id l; listing_nftId := listing_nftId l;
          listing_encryptedSeller := listing_encryptedSeller l;
          listing_price := listing_price l; listing_isActive := false |}
  else l.

Definition deactivateListing (db : Database) (listingId : string) : Database :=
  set_listings (map (deactivate listingId)) db.

(** [newId] is the value that [gen_random_uuid()] draws for the row.  The
    method runs outside a transaction: when the insert fails, the
    deactivation before it stays. *)
Definition createListing (db : Database) (newId : string) (insertListing : InsertListing)
    : outcome Listing * Database :=
  let existingListing := getListingByNftId db (il_nftId insertListing) in
  let db1 := match existingListing with
             | Some l => deactivateListing db (listing_id l)
             | None => db
             end in
  let inserted : outcome Listing :=
    _ ← references_nft db1 (il_nftId insertListing);
    price ← numeric_18_8 (il_price insertListing);
    if bool_decide (newId ∈ map listing_id (listings db1))
    then Throw (DbError "23505")
    else Ok {| listing_id := newId; listing_nftId := il_nftId insertListing;
               listing_encryptedSeller := il_encryptedSeller insertListing;
               listing_price := price;
               listing_isActive := default true (il_isActive insertListing) |} in
  match inserted with
  | Ok l => (Ok l, set_listings (λ ls, ls ++ [l]) db1)
  | Throw e => (Throw e, db1)
  end.

Definition createTrade (db : Database) (insertTrade : Trade) : outcome Trade * Database :=
  let inserted : outcome Trade :=
    _ ← references_nft db (trade_nftId insertTrade);
    price ← numeric_18_8 (trade_price insertTrade);
    Ok {| trade_nftId := trade_nftId insertTrade;
          trade_encryptedBuyer := trade_encryptedBuyer insertTrade;
          trade_encryptedSeller := trade_encryptedSeller insertTrade;
          trade_price := price |} in
  match inserted with
  | Ok t => (Ok t, set_trades (λ ts, ts ++ [t]) db)
  | Throw e => (Throw e, db)
  end.

Definition getPoolBalance (db : Database) (accountHash : string) : option PoolBalance :=
  poolBalances db !! accountHash.

Record PoolUpdate := {
  pu_accountHash : string;
  pu_encryptedOwner : string;
  pu_amount : Z;
  pu_type : PoolTxType }.

(** [now] is the instant of [new Date()] and of the column default. *)
Definition createOrUpdatePoolBalance (db : Database) (now : Z) (data : PoolUpdate)
    : outcome PoolBalance * Database :=
  let accountHash := pu_accountHash data in
  let amount := pu_amount data in
  let type := pu_type data in
  let amountNum := Js.parseFloat amount in
  transaction db (λ tx,
    match poolBalances tx !! accountHash with
    | Some existing =>
        let currentBalance := Js.parseFloat (pb_balance existing) in
        let currentDeposited := Js.parseFloat (pb_totalDeposited existing) in
        let currentSpent := Js.parseFloat (pb_totalSpent existing) in
        '(newBalance, newDeposited, newSpent) ←
          (if bool_decide (type = deposit ∨ type = nft_sale) then
             let newBalance := Js.add currentBalance amountNum in
             Ok (newBalance,
                 if bool_decide (type = deposit)
                 then Js.add currentDeposited amountNum else currentDeposited,
                 currentSpent)
           else if bool_decide (type = withdraw) then
             let newBalance := Js.sub currentBalance amountNum in
             if Js.lt newBalance Js.zero then Throw (Error "Insufficient balance")
             else Ok (newBalance, currentDeposited, currentSpent)
           else
             let newBalance := Js.sub currentBalance amountNum in
             let newSpent := Js.add currentSpent amountNum in
             if Js.lt newBalance Js.zero
             then Throw (Error "Insufficient balance for payment")
             else Ok (newBalance, currentDeposited, newSpent));
        balance ← numeric_of_text (Js.toFixed8 newBalance);
        totalDeposited ← numeric_of_text (Js.toFixed8 newDeposited);
        totalSpent ← numeric_of_text (Js.toFixed8 newSpent);
        let updated := {| pb_encryptedOwner := pb_encryptedOwner existing;
                          pb_balance := balance;
                          pb_totalDeposited := totalDeposited;
                          pb_totalSpent := totalSpent;
                          pb_lastActivity := now |} in
        Ok (updated, set_poolBalances (insert accountHash updated) tx)
    | None =>
        if bool_decide (type ≠ deposit ∧ type ≠ nft_sale)
        then Throw (Error "Cannot withdraw or spend without existing balance")
        else
          balance ← numeric_18_8 amount;
          totalDeposited ← numeric_18_8 (if bool_decide (type = deposit) then amount else 0);
          let created := {| pb_encryptedOwner := pu_encryptedOwner data;
                            pb_balance := balance;
                            pb_totalDeposited := totalDeposited;
                            pb_totalSpent := 0;
                            pb_lastActivity := now |} in
          Ok (created, set_poolBalances (insert accountHash created) tx)
    end).

Record PoolBuy := {
  buy_nftId : string;
  buy_listingId : string;
  buy_buyerAccountHash : string;
  buy_encryptedBuyer : string;
  buy_encryptedSeller : string;
  buy_price : Z;
  buy_txHash : option string }.

(** [txHash || null]: the empty string is falsy. *)
Definition or_null (s : option string) : option string :=
  match s with
  | Some "" => None
  | _ => s
  end.

Definition insertPoolTransaction (tx : Database) (row : PoolTransaction)
    : outcome Database :=
  _ ← from_option (references_nft tx) (Ok ()) (pt_nftId row);
  amount ← numeric_18_8 (pt_amount row);
  Ok (set_poolTransactions
        (λ ts, ts ++ [{| pt_accountHash := pt_accountHash row; pt_type := pt_type row;
                         pt_amount := amount; pt_txHash := pt_txHash row;
                         pt_nftId := pt_nftId row |}]) tx).

Definition atomicPoolBuy (db : Database) (now : Z) (params : PoolBuy)
    : outcome (Trade * PoolBalance * PoolBalance) * Database :=
  let nftId := buy_nftId params in
  let buyerAccountHash := buy_buyerAccountHash params in
  let encryptedSeller := buy_encryptedSeller params in
  let price := buy_price params in
  let txHash := buy_txHash params in
  let priceNum := Js.parseFloat price in
  transaction db (λ tx,
    (* 1. Get and lock buyer's pool balance *)
    match poolBalances tx !! buyerAccountHash with
    | None =>
        Throw (Error "No pool balance found. Please deposit ETH to your privacy pool before making a private purchase.")
    | Some buyerPoolBalance =>
        let buyerCurrentBalance := Js.parseFloat (pb_balance buyerPoolBalance) in
        if Js.lt buyerCurrentBalance priceNum
        then Throw (InsufficientPool (Js.toFixed8 buyerCurrentBalance) (Js.toFixed8 priceNum))
        else
          (* 2. Check if seller has existing pool balance *)
          let existingSellerPool := poolBalances tx !! encryptedSeller in
          (* 3. Deduct from buyer *)
          let buyerNewBalance := Js.sub buyerCurrentBalance priceNum in
          let buyerNewSpent := Js.add (Js.parseFloat (pb_totalSpent buyerPoolBalance)) priceNum in
          balance ← numeric_of_text (Js.toFixed8 buyerNewBalance);
          totalSpent ← numeric_of_text (Js.toFixed8 buyerNewSpent);
          let updatedBuyerBalance :=
            {| pb_encryptedOwner := pb_encryptedOwner buyerPoolBalance;
               pb_balance := balance;
               pb_totalDeposited := pb_totalDeposited buyerPoolBalance;
               pb_totalSpent := totalSpent;
               pb_lastActivity := now |} in
          let tx := set_poolBalances (insert buyerAccountHash updatedBuyerBalance) tx in
          (* 4. Credit to seller: the update rewrites [balance] and
             [lastActivity] of the row as it stands now; the account hash of
             the row read in step 2 is [encryptedSeller] *)
          '(updatedSellerBalance, tx) ←
            match existingSellerPool with
            | Some existing =>
                let sellerNewBalance := Js.add (Js.parseFloat (pb_balance existing)) priceNum in
                balance ← numeric_of_text (Js.toFixed8 sellerNewBalance);
                let row := default existing (poolBalances tx !! encryptedSeller) in
                let updated := {| pb_encryptedOwner := pb_encryptedOwner row;
                                  pb_balance := balance;
                                  pb_totalDeposited := pb_totalDeposited row;
                                  pb_totalSpent := pb_totalSpent row;
                                  pb_lastActivity := now |} in
                Ok (updated, set_poolBalances (insert encryptedSeller updated) tx)
            | None =>
                balance ← numeric_18_8 price;
                let created := {| pb_encryptedOwner := encryptedSeller;
                                  pb_balance := balance;
                                  pb_totalDeposited := 0;
                                  pb_totalSpent := 0;
                                  pb_lastActivity := now |} in
                Ok (created, set_poolBalances (insert encryptedSeller created) tx)
            end;
          (* 5. Record pool transactions *)
          tx ← insertPoolTransaction tx
                 {| pt_accountHash := buyerAccountHash; pt_type := nft_purchase;
                    pt_amount := price; pt_txHash := or_null txHash;
                    pt_nftId := Some nftId |};
          tx ← insertPoolTransaction tx
                 {| pt_accountHash := encryptedSeller;
                    pt_type := nft_sale; pt_amount := price;
                    pt_txHash := or_null txHash; pt_nftId := Some nftId |};
          (* 6. Create trade record *)
          _ ← references_nft tx nftId;
          tradePrice ← numeric_18_8 price;
          let trade := {| trade_nftId := nftId;
                          trade_encryptedBuyer := buy_encryptedBuyer params;
                          trade_encryptedSeller := encryptedSeller;
                          trade_price := tradePrice |} in
          let tx := set_trades (λ ts, ts ++ [trade]) tx in
          (* 7. Update NFT ownership *)
          let tx := updateNftOwner tx nftId (buy_encryptedBuyer params) in
          (* 8. Deactivate listing *)
          let tx := deactivateListing tx (buy_listingId params) in
          Ok (trade, updatedBuyerBalance, updatedSellerBalance, tx)
    end).

End Storage.

(** ** Signed requests ([shared/signing.ts]) *)

Module Signing.

Definition lower_ascii (c : ascii) : ascii :=
  let n := nat_of_ascii c in
  if ((65 <=? n) && (n <=? 90))%nat then ascii_of_nat (n + 32) else c.

(** [String.prototype.toLowerCase] on the ASCII letters of an address. *)
Fixpoint toLowerCase (s : string) : string :=
  match s with
  | EmptyString => EmptyString
  | String c s' => String (lower_ascii c) (toLowerCase s')
  end.

(** The signed message: [action], [nonce], [expiresAt] and the fields
    that depend on the action (name and value).  [nonce] and
    [expiresAt] are integers. *)
Record SignatureData := {
  sd_action : string;
  sd_fields : list (string * string);
  sd_nonce : Z;
  sd_expiresAt : Z }.

Record SignedRequest := {
  sr_data : SignatureData;
  sr_signature : string;
  sr_signer : string }.

(** [ethers.keccak256(ethers.toUtf8Bytes(s))] and
    [ethers.verifyTypedData(EIP712_DOMAIN, types, data, signature)], which
    returns the recovered address or throws ([None]). *)
Record Crypto := {
  keccak256 : string → string;
  verifyTypedData : string → SignatureData → string → option string }.

(** [Math.floor(Date.now() / 1000) > expiresAt], with [now] in
    milliseconds (a clock below [2^53], where the floor of the double
    quotient is the integer quotient). *)
Definition isSignatureExpired (now expiresAt : Z) : bool :=
  expiresAt <? now / 1000.

(** [None]: the [default] branch throws. *)
Definition getTypeName (action : string) : option string :=
  if bool_decide (action = "mint") then Some "Mint"
  else if bool_decide (action = "list") then Some "List"
  else if bool_decide (action = "unlist") then Some "Unlist"
  else if bool_decide (action = "buy") then Some "Buy"
  else if bool_decide (action = "offer") then Some "Offer"
  else if bool_decide (action = "pool_deposit") then Some "PoolDeposit"
  else if bool_decide (action = "pool_withdraw") then Some "PoolWithdraw"
  else None.

Definition verifySignature (c : Crypto) (now : Z)
    (signedRequest : SignedRequest) (expectedSigner : string) : bool :=
  let data := sr_data signedRequest in
  let signer := sr_signer signedRequest in
  if bool_decide (toLowerCase signer ≠ toLowerCase expectedSigner) then false
  else if isSignatureExpired now (sd_expiresAt data) then false
  else
    match getTypeName (sd_action data) with
    | None => false
    | Some typeName =>
        match verifyTypedData c typeName data (sr_signature signedRequest) with
        | None => false
        | Some recoveredAddress =>
            bool_decide (toLowerCase recoveredAddress = toLowerCase signer)
        end
    end.

End Signing.

(** ** The external ledger ([server/relayer.ts]) *)

Module Relayer.

(** What a rejected contract call throws: [reason] and [message]. *)
Record CallError := {
  ce_reason : option string;
  ce_message : option string }.

(** Calls that leave the server, in the order they are made. *)
Inductive ChainCall :=
  | CallIsListed (collectionAddress : string) (tokenId : Z)
  | CallListingPrices (collectionAddress : string) (tokenId : Z)
  | CallBuyNFT (collectionAddress : string) (tokenId : Z)
               (encryptedBuyer inputProof : string) (value : Z)
  | CallEncrypt (contractAddress buyerAddress : string).

Definition is_write (c : ChainCall) : bool :=
  match c with
  | CallBuyNFT _ _ _ _ _ => true
  | _ => false
  end.

(** The collaborators.  Every answer may depend on the number of calls
    made before it: the ledger moves between two calls.  [contract_buyNFT]
    is [collection.buyNFT(...)] followed by [tx.wait()]: the transaction
    hash, or what either of them throws.  [fhevm_encrypt] is
    [createServerEncryptedAddressInput]: handle and proof, or the message
    of what it throws.  [configured] is
    [process.env.MNEMONIC && process.env.INFURA_API_KEY]. *)
Record World := {
  configured : bool;
  contract_isListed : nat → string → Z → CallError + bool;
  contract_listingPrices : nat → string → Z → CallError + Z;
  contract_buyNFT : nat → string → Z → string → string → Z → CallError + string;
  fhevm_encrypt : nat → string → string → string + (string * string) }.

Definition isRelayerConfigured (w : World) : bool := configured w.
Definition isServerFhevmConfigured (w : World) : bool := configured w.

Definition not_configured : CallError :=
  {| ce_reason := None;
     ce_message := Some "MNEMONIC not configured for relayer wallet" |}.

(** [getRelayerWallet()] throws without the environment. *)
Definition getRelayerWallet (w : World) : CallError + unit :=
  if configured w then inr () else inl not_configured.

Record OnChainListingStatus := {
  isListed : bool;
  ocl_price : option Z }.

(** Returns the status and the calls it made. *)
Definition checkOnChainListingStatus (w : World) (log : list ChainCall)
    (collectionAddress : string) (tokenId : Z)
    : OnChainListingStatus * list ChainCall :=
  match getRelayerWallet w with
  | inl _ => ({| isListed := false; ocl_price := None |}, log)
  | inr _ =>
      let log1 := log ++ [CallIsListed collectionAddress tokenId] in
      match contract_isListed w (length log) collectionAddress tokenId with
      | inl _ => ({| isListed := false; ocl_price := None |}, log1)
      | inr false => ({| isListed := false; ocl_price := None |}, log1)
      | inr true =>
          let log2 := log1 ++ [CallListingPrices collectionAddress tokenId] in
          match contract_listingPrices w (length log1) collectionAddress tokenId with
          | inl _ => ({| isListed := false; ocl_price := None |}, log2)
          | inr priceWei => ({| isListed := true; ocl_price := Some priceWei |}, log2)
          end
      end
  end.

Record RelayerBuyRequest := {
  rb_collectionAddress : string;
  rb_tokenId : Z;
  rb_price : Z;
  rb_encryptedBuyer : string;
  rb_inputProof : string }.

Record RelayerBuyResult := {
  success : bool;
  txHash : option string;
  rb_error : option string }.

(** [a || b], the empty string being falsy. *)
Definition or_string (a : option string) (b : string) : string :=
  match a with
  | None | Some "" => b
  | Some s => s
  end.

Definition caught (e : CallError) : RelayerBuyResult :=
  {| success := false; txHash := None;
     rb_error := Some (or_string (ce_reason e)
                         (or_string (ce_message e) "Failed to buy NFT via relayer")) |}.

(** [ethers.parseEther] of an eight-digit decimal, in wei. *)
Definition parseEther (price : Z) : Z := price * 10 ^ 10.

Definition buyNFTViaRelayer (w : World) (log : list ChainCall)
    (request : RelayerBuyRequest) : RelayerBuyResult * list ChainCall :=
  match getRelayerWallet w with
  | inl e => (caught e, log)
  | inr _ =>
      let addr := rb_collectionAddress request in
      let tokenId := rb_tokenId request in
      let log1 := log ++ [CallIsListed addr tokenId] in
      match contract_isListed w (length log) addr tokenId with
      | inl e => (caught e, log1)
      | inr false =>
          ({| success := false; txHash := None;
              rb_error := Some ("Token " +:+ pretty tokenId +:+ " is not listed for sale") |},
           log1)
      | inr true =>
          let priceWei := parseEther (rb_price request) in
          let log2 := log1 ++ [CallBuyNFT addr tokenId (rb_encryptedBuyer request)
                                          (rb_inputProof request) priceWei] in
          match contract_buyNFT w (length log1) addr tokenId
                  (rb_encryptedBuyer request) (rb_inputProof request) priceWei with
          | inl e => (caught e, log2)
          | inr hash => ({| success := true; txHash := Some hash; rb_error := None |}, log2)
          end
      end
  end.

End Relayer.

(** ** Routes ([server/routes.ts]) *)

Module Routes.
Import Schema Storage Signing Relayer.

(** The module-level maps [usedNonces] and [nonceTimestamps]. *)
Record NonceStore := {
  usedNonces : gmap string (gset string);
  nonceTimestamps : gmap string Z }.

Definition NONCE_EXPIRY_MS : Z := 5 * 60 * 1000.

Definition nonceKey (signerLower nonce : string) : string :=
  signerLower +:+ ":" +:+ nonce.

(** [s.split(':')]. *)
Fixpoint split_colon (s : string) : list string :=
  match s with
  | EmptyString => [EmptyString]
  | String c s' =>
      if Ascii.eqb c ":" then EmptyString :: split_colon s'
      else match split_colon s' with
           | h :: t => String c h :: t
           | [] => [String c EmptyString]
           end
  end.

(** One round of [expiredNonces.forEach]. *)
Definition sweep_one (ns : NonceStore) (key : string) : NonceStore :=
  let parts := split_colon key in
  let used := usedNonces ns in
  {| nonceTimestamps := delete key (nonceTimestamps ns);
     usedNonces :=
       match parts !! 0%nat ≫= λ signer, (signer,.) <$> used !! signer with
       | Some (signer, signerNonces) =>
           let signerNonces :=
             from_option (λ nonce, signerNonces ∖ {[nonce]}) signerNonces (parts !! 1%nat) in
           if bool_decide (size signerNonces = 0%nat)
           then delete signer used
           else <[signer := signerNonces]> used
       | None => used
       end |}.

(** The [setInterval] callback, run at [now]. *)
Definition sweep (now : Z) (ns : NonceStore) : NonceStore :=
  let expiredNonces :=
    (map_to_list (filter (λ kv, NONCE_EXPIRY_MS * 2 < now - kv.2) (nonceTimestamps ns))).*1 in
  foldl sweep_one ns expiredNonces.

Record VerifyResult := {
  valid : bool;
  vr_error : option string;
  vr_signer : option string }.

Definition rejected (error : string) : VerifyResult :=
  {| valid := false; vr_error := Some error; vr_signer := None |}.

(** [now] is [Date.now()]; the readings of one call are one instant.
    [Date.now() / 1000 > expiresAt] is [1000 * expiresAt < now], and
    [expiresAt &&] is false at [0].  The quotient is a double: for a
    clock below [2^53] milliseconds its rounding error is under half a
    millisecond, and the comparison with an integer is the exact one. *)
Definition verifySignedRequest (c : Crypto) (now : Z) (ns : NonceStore)
    (signedRequest : SignedRequest) (expectedAccountHash : string)
    : VerifyResult * NonceStore :=
  let computedHash := keccak256 c (toLowerCase (sr_signer signedRequest)) in
  if bool_decide (computedHash ≠ expectedAccountHash)
  then (rejected "Signer address does not match account hash", ns)
  else if negb (verifySignature c now signedRequest (sr_signer signedRequest))
  then (rejected "Invalid signature", ns)
  else
    let nonce : string := pretty (sd_nonce (sr_data signedRequest)) in
    let expiresAt := sd_expiresAt (sr_data signedRequest) in
    let signerLower := toLowerCase (sr_signer signedRequest) in
    if negb (expiresAt =? 0) && (1000 * expiresAt <? now)
    then (rejected "Request expired", ns)
    else
      let used :=
        match usedNonces ns !! signerLower with
        | Some _ => usedNonces ns
        | None => <[signerLower := ∅]> (usedNonces ns)
        end in
      let signerNonces := default ∅ (used !! signerLower) in
      if bool_decide (nonce ∈ signerNonces)
      then (rejected "Replay attack detected: nonce already used",
            {| usedNonces := used; nonceTimestamps := nonceTimestamps ns |})
      else
        ({| valid := true; vr_error := None; vr_signer := Some (sr_signer signedRequest) |},
         {| usedNonces := <[signerLower := {[nonce]} ∪ signerNonces]> used;
            nonceTimestamps := <[nonceKey signerLower nonce := now]> (nonceTimestamps ns) |}).

(** Requests authorized one after the other, each at its own instant and
    against its own expected account hash. *)
Fixpoint authorize_all (c : Crypto) (ns : NonceStore)
    (requests : list (Z * SignedRequest * string)) : list VerifyResult :=
  match requests with
  | [] => []
  | (now, signedRequest, expectedAccountHash) :: rest =>
      let '(r, ns') := verifySignedRequest c now ns signedRequest expectedAccountHash in
      r :: authorize_all c ns' rest
  end.

(** The nonce is recorded for the signer. *)
Definition consumed (ns : NonceStore) (signerLower nonce : string) : Prop :=
  ∃ signerNonces, usedNonces ns !! signerLower = Some signerNonces ∧ nonce ∈ signerNonces.

(** The request passes every check that precedes the nonce check. *)
Definition reaches_nonce_check (c : Crypto) (now : Z) (signedRequest : SignedRequest)
    (expectedAccountHash : string) : Prop :=
  keccak256 c (toLowerCase (sr_signer signedRequest)) = expectedAccountHash
  ∧ verifySignature c now signedRequest (sr_signer signedRequest) = true
  ∧ (negb (sd_expiresAt (sr_data signedRequest) =? 0)
     && (1000 * sd_expiresAt (sr_data signedRequest) <? now)) = false.

(** The server: the database, the nonce maps, and the calls made to the
    collaborators so far. *)
Record ServerState := {
  db : Database;
  nonces : NonceStore;
  chainLog : list ChainCall }.

Definition with_db (st : ServerState) (d : Database) : ServerState :=
  {| db := d; nonces := nonces st; chainLog := chainLog st |}.

Definition with_nonces (st : ServerState) (ns : NonceStore) : ServerState :=
  {| db := db st; nonces := ns; chainLog := chainLog st |}.

Definition with_log (st : ServerState) (log : list ChainCall) : ServerState :=
  {| db := db st; nonces := nonces st; chainLog := log |}.

(** Response bodies.  [ErrorBody] is [{ error }];
    [InsufficientPoolBalance] is the message that quotes the balance and
    the price with [toFixed(8)]; [PurchaseFailed e] is
    ["Failed to purchase NFT privately: " + e.message]. *)
Inductive Body :=
  | ErrorBody (error : string)
  | ValidationError
  | InsufficientPoolBalance (have need : option Z)
  | PurchaseFailed (e : Err)
  | Purchased (price : Z)
  | PurchasedPrivately (txHash : option string) (price : Z).

Record Response := {
  status : Z;
  body : Body }.

(** A handler step: an early response or a value, and the new state. *)
Definition Handler (A : Type) : Type := ServerState → (Response + A) * ServerState.

Definition respond {A} (code : Z) (b : Body) : Handler A :=
  λ st, (inl {| status := code; body := b |}, st).

Definition pure {A} (a : A) : Handler A := λ st, (inr a, st).

Definition bind {A B} (h : Handler A) (k : A → Handler B) : Handler B :=
  λ st, match h st with
        | (inl r, st') => (inl r, st')
        | (inr a, st') => k a st'
        end.

(** [if (b) return res.status(code).json(body)]. *)
Definition reject_if (b : bool) (code : Z) (bd : Body) : Handler unit :=
  if b then respond code bd else pure ().

(** [const x = o; if (!x) return res.status(code).json(body)]. *)
Definition require {A} (o : option A) (code : Z) (bd : Body) : Handler A :=
  from_option pure (respond code bd) o.

Definition step {A} (f : ServerState → (Response + A) * ServerState) : Handler A := f.

Definition get_db : Handler Database := λ st, (inr (db st), st).

Definition put_db (d : Database) : Handler unit := λ st, (inr (), with_db st d).

Global Instance handler_ret : MRet Handler := @pure.
Global Instance handler_bind : MBind Handler := λ A B k h, bind h k.

(** A handler runs to its response. *)
Definition run (h : Handler Response) (st : ServerState) : Response * ServerState :=
  match h st with
  | (inl r, st') => (r, st')
  | (inr r, st') => (r, st')
  end.

(** [x && ...] on a nullable text: [null] and the empty string are falsy. *)
Definition truthy (s : option string) : option string :=
  match s with
  | Some "" => None
  | _ => s
  end.

(** [collection?.contractAddress], when it is truthy. *)
Definition contractAddressOf (d : Database) (nft : Nft) : option string :=
  truthy (getCollectionById d (nft_collectionId nft) ≫= contractAddress).

Definition checkListingOnChain (w : World) (collectionAddress : string) (tokenId : Z)
    : Handler OnChainListingStatus :=
  λ st, let '(status, log) :=
          checkOnChainListingStatus w (chainLog st) collectionAddress tokenId in
        (inr status, with_log st log).

(** *** [POST /api/buy] *)

Record BuyRequest := {
  br_nftId : string;
  br_listingId : string;
  br_encryptedBuyer : string }.

Definition apiBuy (w : World) (req : BuyRequest) : Handler Response :=
  let nftId := br_nftId req in
  let listingId := br_listingId req in
  let encryptedBuyer := br_encryptedBuyer req in
  d ← get_db;
  (* Verify NFT exists *)
  nft ← require (getNftById d nftId) 404
      (ErrorBody "NFT not found");
  (* Verify listing exists and is active *)
  listing ← require (getListingByNftId d nftId) 400
      (ErrorBody "NFT is not listed for sale");
  _ ← reject_if (negb (listing_isActive listing)
                 || bool_decide (listing_id listing ≠ listingId)) 400
         (ErrorBody "NFT is not listed for sale");
  (* Verify on-chain listing status *)
  _ ← match contractAddressOf d nft with
       | Some addr =>
           onChainStatus ← checkListingOnChain w addr (nft_tokenId nft);
           if negb (isListed onChainStatus)
           then
             _ ← put_db (deactivateListing d (listing_id listing));
             respond 400 (ErrorBody "NFT is no longer listed for sale. The listing has been updated.")
           else pure ()
       | None => pure ()
       end;
  (* Prevent buying your own NFT *)
  _ ← reject_if (bool_decide (nft_encryptedOwner nft = encryptedBuyer)) 400
         (ErrorBody "You already own this NFT");
  (* Create trade record *)
  match createTrade d {| trade_nftId := nftId; trade_encryptedBuyer := encryptedBuyer;
                         trade_encryptedSeller := listing_encryptedSeller listing;
                         trade_price := listing_price listing |} with
  | (Throw _, d1) =>
      _ ← put_db d1; respond 500 (ErrorBody "Failed to purchase NFT")
  | (Ok _, d1) =>
      (* Transfer ownership, deactivate the listing *)
      let d2 := updateNftOwner d1 nftId encryptedBuyer in
      let d3 := deactivateListing d2 listingId in
      _ ← put_db d3;
      pure {| status := 200; body := Purchased (listing_price listing) |}
  end.

(** What [apiBuy] asks of a request: the NFT exists, its active listing
    is the one named, the ledger (when the collection has a contract
    address) reports the token as listed, the buyer is not the owner, and
    the listing's price fits the [price] column of [trades]. *)
Definition buyable (w : World) (req : BuyRequest) (st : ServerState)
    (nft : Nft) (listing : Listing) : Prop :=
  getNftById (db st) (br_nftId req) = Some nft
  ∧ getListingByNftId (db st) (br_nftId req) = Some listing
  ∧ listing_id listing = br_listingId req
  ∧ match contractAddressOf (db st) nft with
    | Some addr =>
        isListed (checkOnChainListingStatus w (chainLog st) addr (nft_tokenId nft)).1 = true
    | None => True
    end
  ∧ nft_encryptedOwner nft ≠ br_encryptedBuyer req
  ∧ Z.abs (listing_price listing) < 10 ^ 18.

(** *** [POST /api/buy/private] *)

Record PrivateBuyRequest := {
  pr_nftId : string;
  pr_encryptedBuyer : string;
  pr_buyerAddress : string;
  pr_accountHash : string;
  pr_signedRequest : SignedRequest }.

Definition is_hex (c : ascii) : bool :=
  let n := nat_of_ascii c in
  (((48 <=? n) && (n <=? 57)) || ((65 <=? n) && (n <=? 70)) || ((97 <=? n) && (n <=? 102)))%nat.

(** [/^0x[a-fA-F0-9]{40}$/i]. *)
Definition is_address (s : string) : bool :=
  match s with
  | String "0" (String x rest) =>
      (Ascii.eqb x "x" || Ascii.eqb x "X")
      && bool_decide (String.length rest = 40%nat)
      && forallb is_hex (list_ascii_of_string rest)
  | _ => false
  end.

(** What [privateBuySchema] checks beyond the shape of the body. *)
Definition privateBuySchema (req : PrivateBuyRequest) : bool :=
  is_address (pr_buyerAddress req)
  && bool_decide (sd_action (sr_data (pr_signedRequest req)) = "buy").

(** Configuration, schema and wallet signature. *)
Definition privateBuyAuthorize (c : Crypto) (w : World) (now : Z)
    (req : PrivateBuyRequest) : Handler unit :=
  _ ← reject_if (negb (isRelayerConfigured w)) 503
         (ErrorBody "Private buying not available - relayer not configured");
  _ ← reject_if (negb (isServerFhevmConfigured w)) 503
         (ErrorBody "Private buying not available - server-side FHEVM not configured");
  _ ← reject_if (negb (privateBuySchema req)) 400 ValidationError;
  step (λ st,
    let '(verification, ns) :=
      verifySignedRequest c now (nonces st) (pr_signedRequest req) (pr_accountHash req) in
    if negb (valid verification)
    then (inl {| status := 401;
                 body := ErrorBody ("Authorization failed: " +:+ default "" (vr_error verification)) |},
          with_nonces st ns)
    else (inr (), with_nonces st ns)).

(** The NFT, its contract, the active listing, and the on-chain check of
    the listing. *)
Definition privateBuyReconcile (w : World) (req : PrivateBuyRequest)
    : Handler (Nft * string * Listing) :=
  d ← get_db;
  nft ← require (getNftById d (pr_nftId req)) 404
      (ErrorBody "NFT not found");
  collectionAddress ←
    require (contractAddressOf d nft) 400
      (ErrorBody "Collection contract address not found");
  (* Verify listing exists and is active in database *)
  listing ← require (getListingByNftId d (pr_nftId req)) 400
      (ErrorBody "NFT is not listed for sale");
  _ ← reject_if (negb (listing_isActive listing)) 400
         (ErrorBody "NFT is not listed for sale");
  (* Verify on-chain listing status before proceeding *)
  onChainStatus ← checkListingOnChain w collectionAddress (nft_tokenId nft);
  if negb (isListed onChainStatus)
  then
    (* Sync database with on-chain state *)
    _ ← put_db (deactivateListing d (listing_id listing));
    respond 400 (ErrorBody "NFT is no longer listed for sale. The listing has been updated.")
  else pure (nft, collectionAddress, listing).

(** Ownership, the buyer's pool balance, and the encrypted input. *)
Definition privateBuyFunds (w : World) (req : PrivateBuyRequest)
    (nft : Nft) (collectionAddress : string) (listing : Listing)
    : Handler (string * string) :=
  d ← get_db;
  (* Prevent buying your own NFT *)
  _ ← reject_if (bool_decide (nft_encryptedOwner nft = pr_encryptedBuyer req)) 400
         (ErrorBody "You already own this NFT");
  (* Check buyer's pool balance in the database *)
  buyerPoolBalance ←
    require (getPoolBalance d (pr_accountHash req)) 400
      (ErrorBody "No pool balance found. Please deposit ETH to your privacy pool first.");
  let buyerBalance := Js.parseFloat (pb_balance buyerPoolBalance) in
  let requiredAmount := Js.parseFloat (listing_price listing) in
  _ ← reject_if (Js.lt buyerBalance requiredAmount) 400
         (InsufficientPoolBalance (Js.toFixed8 buyerBalance) (Js.toFixed8 requiredAmount));
  (* Create encrypted input on server using relayer's wallet *)
  step (λ st,
    let st' := with_log st (chainLog st ++ [CallEncrypt collectionAddress (pr_buyerAddress req)]) in
    match fhevm_encrypt w (length (chainLog st)) collectionAddress (pr_buyerAddress req) with
    | inl message => (inl {| status := 500; body := PurchaseFailed (Error message) |}, st')
    | inr encryptedInput => (inr encryptedInput, st')
    end).

(** Everything before the ledger is asked to transfer. *)
Definition privateBuyValidate (c : Crypto) (w : World) (now : Z) (req : PrivateBuyRequest)
    : Handler (Nft * string * Listing * (string * string)) :=
  _ ← privateBuyAuthorize c w now req;
  '(nft, collectionAddress, listing) ← privateBuyReconcile w req;
  encryptedInput ← privateBuyFunds w req nft collectionAddress listing;
  pure (nft, collectionAddress, listing, encryptedInput).

Definition relayerBuyRequest (nft : Nft) (collectionAddress : string) (listing : Listing)
    (encryptedInput : string * string) : RelayerBuyRequest :=
  {| rb_collectionAddress := collectionAddress;
     rb_tokenId := nft_tokenId nft;
     rb_price := listing_price listing;
     rb_encryptedBuyer := encryptedInput.1;
     rb_inputProof := encryptedInput.2 |}.

(** Execute the buy via relayer. *)
Definition privateBuySubmit (w : World) (nft : Nft) (collectionAddress : string)
    (listing : Listing) (encryptedInput : string * string) : Handler RelayerBuyResult :=
  step (λ st,
    let '(result, log) :=
      buyNFTViaRelayer w (chainLog st)
        (relayerBuyRequest nft collectionAddress listing encryptedInput) in
    if negb (success result)
    then (inl {| status := 500;
                 body := ErrorBody (or_string (rb_error result) "Private buy failed") |},
          with_log st log)
    else (inr result, with_log st log)).

Definition poolBuyParams (req : PrivateBuyRequest) (listing : Listing)
    (result : RelayerBuyResult) : PoolBuy :=
  {| buy_nftId := pr_nftId req;
     buy_listingId := listing_id listing;
     buy_buyerAccountHash := pr_accountHash req;
     buy_encryptedBuyer := pr_encryptedBuyer req;
     buy_encryptedSeller := listing_encryptedSeller listing;
     buy_price := listing_price listing;
     buy_txHash := txHash result |}.

(** Perform atomic pool buy - all operations in a single transaction. *)
Definition privateBuyCommit (now : Z) (req : PrivateBuyRequest) (listing : Listing)
    (result : RelayerBuyResult) : Handler Response :=
  d ← get_db;
  match atomicPoolBuy d now (poolBuyParams req listing result) with
  | (Throw e, d') =>
      _ ← put_db d'; respond 500 (PurchaseFailed e)
  | (Ok _, d') =>
      _ ← put_db d';
      pure {| status := 200;
              body := PurchasedPrivately (txHash result) (listing_price listing) |}
  end.


Definition apiBuyPrivate (c : Crypto) (w : World) (now : Z) (req : PrivateBuyRequest)
    : Handler Response :=
  '(nft, collectionAddress, listing, encryptedInput) ← privateBuyValidate c w now req;
  result ← privateBuySubmit w nft collectionAddress listing encryptedInput;
  privateBuyCommit now req listing result.

End Routes.

(** ** Sequences of ledger operations *)

Module Ledger.
Import Schema Storage.

(** *** The ledger in fixed-point decimals

    The arithmetic that the specification asks for: amounts are integers
    of [10^-8] units, added and subtracted exactly.  The methods of
    [DatabaseStorage] are compared with it below. *)

Definition with_amounts (pb : PoolBalance) (now balance totalDeposited totalSpent : Z)
    : PoolBalance :=
  {| pb_encryptedOwner := pb_encryptedOwner pb;
     pb_balance := balance;
     pb_totalDeposited := totalDeposited;
     pb_totalSpent := totalSpent;
     pb_lastActivity := now |}.

Definition fixed_update (existing : PoolBalance) (now amount : Z) (type : PoolTxType)
    : outcome PoolBalance :=
  let b := pb_balance existing in
  let dep := pb_totalDeposited existing in
  let spent := pb_totalSpent existing in
  match type with
  | deposit => Ok (with_amounts existing now (b + amount) (dep + amount) spent)
  | nft_sale => Ok (with_amounts existing now (b + amount) dep spent)
  | withdraw =>
      if b - amount <? 0 then Throw (Error "Insufficient balance")
      else Ok (with_amounts existing now (b - amount) dep spent)
  | mint_payment | nft_purchase =>
      if b - amount <? 0 then Throw (Error "Insufficient balance for payment")
      else Ok (with_amounts existing now (b - amount) dep (spent + amount))
  end.

Definition fixed_create (now : Z) (data : PoolUpdate) : PoolBalance :=
  {| pb_encryptedOwner := pu_encryptedOwner data;
     pb_balance := pu_amount data;
     pb_totalDeposited := if bool_decide (pu_type data = deposit) then pu_amount data else 0;
     pb_totalSpent := 0;
     pb_lastActivity := now |}.

(** The buyer's row after a purchase at [price]. *)
Definition fixed_debit (buyer : PoolBalance) (now price : Z) : PoolBalance :=
  with_amounts buyer now (pb_balance buyer - price) (pb_totalDeposited buyer)
               (pb_totalSpent buyer + price).

(** The seller's row after a sale at [price]: credited, or created. *)
Definition fixed_credit (seller : option PoolBalance) (now : Z)
    (encryptedSeller : string) (price : Z) : PoolBalance :=
  match seller with
  | Some row =>
      with_amounts row now (pb_balance row + price) (pb_totalDeposited row) (pb_totalSpent row)
  | None =>
      {| pb_encryptedOwner := encryptedSeller;
         pb_balance := price; pb_totalDeposited := 0; pb_totalSpent := 0;
         pb_lastActivity := now |}
  end.

Definition purchase_rows (params : PoolBuy) : list PoolTransaction :=
  [ {| pt_accountHash := buy_buyerAccountHash params; pt_type := nft_purchase;
       pt_amount := buy_price params; pt_txHash := or_null (buy_txHash params);
       pt_nftId := Some (buy_nftId params) |};
    {| pt_accountHash := buy_encryptedSeller params; pt_type := nft_sale;
       pt_amount := buy_price params; pt_txHash := or_null (buy_txHash params);
       pt_nftId := Some (buy_nftId params) |} ].

Definition trade_of (params : PoolBuy) : Trade :=
  {| trade_nftId := buy_nftId params;
     trade_encryptedBuyer := buy_encryptedBuyer params;
     trade_encryptedSeller := buy_encryptedSeller params;
     trade_price := buy_price params |}.

(** The commit of a purchase between two different accounts. *)
Definition fixed_buy (d : Database) (now : Z) (params : PoolBuy)
    (buyer : PoolBalance) : Database :=
  let seller := poolBalances d !! buy_encryptedSeller params in
  deactivateListing
    (updateNftOwner
       (set_trades (λ ts, ts ++ [trade_of params])
          (set_poolTransactions (λ ts, ts ++ purchase_rows params)
             (set_poolBalances
                (λ m, <[buy_encryptedSeller params :=
                          fixed_credit seller now (buy_encryptedSeller params) (buy_price params)]>
                        (<[buy_buyerAccountHash params :=
                             fixed_debit buyer now (buy_price params)]> m)) d)))
       (buy_nftId params) (buy_encryptedBuyer params))
    (buy_listingId params).










(** Sale proceeds received and amounts withdrawn, per account: sums over
    the calls that went through. *)
Record Flows := {
  proceeds : gmap string Z;
  withdrawn : gmap string Z }.

Definition flow (m : gmap string Z) (h : string) : Z := default 0 (m !! h).






Definition deposit_of (h owner : string) (amount : Z) : PoolUpdate :=
  {| pu_accountHash := h; pu_encryptedOwner := owner; pu_amount := amount;
     pu_type := deposit |}.

(** [n] deposits of [amount] into one account. *)
Definition deposit_n (n : nat) (now : Z) (accountHash encryptedOwner : string)
    (amount : Z) (d : Database) : Database :=
  Nat.iter n (λ d, (createOrUpdatePoolBalance d now
                      (deposit_of accountHash encryptedOwner amount)).2) d.

(** The accounting identity, with withdrawals: every account holds what
    was deposited and received minus what was spent and withdrawn, and an
    account that does not exist has received and withdrawn nothing. *)
Definition accounted (d : Database) (f : Flows) : Prop :=
  ∀ h, match poolBalances d !! h with
       | Some pb =>
           pb_balance pb = pb_totalDeposited pb - pb_totalSpent pb
                           + flow (proceeds f) h - flow (withdrawn f) h
       | None => flow (proceeds f) h = 0 ∧ flow (withdrawn f) h = 0
       end.

Definition balance_of (d : Database) (accountHash : string) : option Z :=
  pb_balance <$> poolBalances d !! accountHash.

End Ledger.

(** ** Sample data *)

Module Samples.
Import Schema Storage Ledger.

Definition alice : string := "0xa11ce".
Definition bob : string := "0xb0b".

Definition nft1 : Nft :=
  {| nft_collectionId := Some "c1"; nft_tokenId := 7; nft_encryptedOwner := bob |}.

Definition account (balance deposited spent : Z) : PoolBalance :=
  {| pb_encryptedOwner := "enc"; pb_balance := balance; pb_totalDeposited := deposited;
     pb_totalSpent := spent; pb_lastActivity := 0 |}.

(** Bob's listing of the NFT. *)
Definition listing1 (price : Z) : Listing :=
  {| listing_id := "L1"; listing_nftId := "n1"; listing_encryptedSeller := bob;
     listing_price := price; listing_isActive := true |}.

(** One collection with one NFT, owned by Bob. *)
Definition market (pools : gmap string PoolBalance) (ls : list Listing) : Database :=
  {| collections := {["c1" := {| contractAddress := Some "0xc011ec7" |}]};
     nfts := {["n1" := nft1]}; listings := ls; trades := [];
     poolBalances := pools; poolTransactions := [] |}.

Definition purchase (buyer seller : string) (price : Z) : PoolBuy :=
  {| buy_nftId := "n1"; buy_listingId := "L1"; buy_buyerAccountHash := buyer;
     buy_encryptedBuyer := "enc-buyer"; buy_encryptedSeller := seller;
     buy_price := price; buy_txHash := Some "0xabc" |}.

Definition update (h : string) (amount : Z) (type : PoolTxType) : PoolUpdate :=
  {| pu_accountHash := h; pu_encryptedOwner := "enc"; pu_amount := amount;
     pu_type := type |}.

(** Alice holds 0.5. *)
Definition small_pool : Database := market {[alice := account 50000000 50000000 0]} [listing1 20000000].

(** Alice holds 90,000,000.00000001. *)
Definition large_pool : Database :=
  market {[alice := account 9000000000000001 9000000000000001 0]} [listing1 2].



(** *** A signed purchase *)

(** A stand-in for the signature scheme: the hash tags its input, and a
    signature recovers to its own text, so that a request is well signed
    when its signature is the signer's address. *)
Definition toy_crypto : Signing.Crypto :=
  {| Signing.keccak256 := λ s, "keccak:" +:+ s;
     Signing.verifyTypedData := λ _ _ signature, Some signature |}.

Definition carol : string := "0xCa701cA701cA701cA701cA701cA701cA701cA701".

Definition carol_hash : string := "keccak:0xca701ca701ca701ca701ca701ca701ca701ca701".

(** Carol's purchase order, valid until second [expiresAt]. *)
Definition order (nonce expiresAt : Z) : Signing.SignedRequest :=
  {| Signing.sr_data := {| Signing.sd_action := "buy";
                           Signing.sd_fields := [("nftId", "n1"); ("price", "0.20000000")];
                           Signing.sd_nonce := nonce;
                           Signing.sd_expiresAt := expiresAt |};
     Signing.sr_signature := carol;
     Signing.sr_signer := carol |}.

Definition no_nonces : Routes.NonceStore :=
  {| Routes.usedNonces := ∅; Routes.nonceTimestamps := ∅ |}.

Definition private_buy (nonce expiresAt : Z) : Routes.PrivateBuyRequest :=
  {| Routes.pr_nftId := "n1";
     Routes.pr_encryptedBuyer := "enc-carol";
     Routes.pr_buyerAddress := carol;
     Routes.pr_accountHash := carol_hash;
     Routes.pr_signedRequest := order nonce expiresAt |}.

(** Carol holds 0.5 and Bob's NFT is listed at 0.2. *)
Definition shop : Routes.ServerState :=
  {| Routes.db := market {[carol_hash := account 50000000 50000000 0]} [listing1 20000000];
     Routes.nonces := no_nonces;
     Routes.chainLog := [] |}.

(** A ledger on which the token is listed or not, and on which the
    purchase goes through or reverts. *)
Definition chain (listed : bool) (buys : bool) : Relayer.World :=
  {| Relayer.configured := true;
     Relayer.contract_isListed := λ _ _ _, inr listed;
     Relayer.contract_listingPrices := λ _ _ _, inr 200000000000000000;
     Relayer.contract_buyNFT := λ _ _ _ _ _ _,
       if buys then inr "0x7a"
       else inl {| Relayer.ce_reason := Some "execution reverted";
                   Relayer.ce_message := None |};
     Relayer.fhevm_encrypt := λ _ _ _, inr ("0xhandle", "0xproof") |}.

Definition public_buy : Routes.BuyRequest :=
  {| Routes.br_nftId := "n1"; Routes.br_listingId := "L1";
     Routes.br_encryptedBuyer := "enc-carol" |}.

End Samples.

(** ** The listing registry *)

Module Registry.
Import Schema Storage.

(** No NFT has two active listings: two active rows of [listings] for one
    NFT are one row. *)
Definition single_active (d : Database) : Prop :=
  ∀ i j l1 l2,
    listings d !! i = Some l1 -> listings d !! j = Some l2 ->
    listing_nftId l1 = listing_nftId l2 ->
    listing_isActive l1 = true -> listing_isActive l2 = true -> i = j.

(** The NFT has no active listing. *)
Definition unlisted (d : Database) (nftId : string) : Prop :=
  ∀ l, l ∈ listings d -> listing_nftId l = nftId -> listing_isActive l = false.

End Registry.

(** ** The money in the pool *)

Module Totals.
Import Schema Storage Ledger.



(** Every stored amount is within ten million. *)
Definition pool_in_range (d : Database) : Prop :=
  ∀ h pb, poolBalances d !! h = Some pb ->
    Js.in_range (pb_balance pb) ∧ Js.in_range (pb_totalDeposited pb)
    ∧ Js.in_range (pb_totalSpent pb).

End Totals.

(** ** Signing on the client

    The helpers with which the client builds signed requests
    ([getNextNonce] and [sign...Request], the first file of
    [src/unnamed/part_006]), and [getSignatureExpiryTime] of
    [shared/signing.ts]. *)

Module Client.
Import Signing.

(** [Math.floor(Date.now() / 1000) + minutesFromNow * 60], with [now] in
    milliseconds. *)
Definition getSignatureExpiryTime (now minutesFromNow : Z) : Z :=
  now / 1000 + minutesFromNow * 60.

(** The wallet: [signer.getAddress()], and
    [signer.signTypedData(EIP712_DOMAIN, { T: SignatureTypes.T }, data)],
    which rejects ([None]) when the user declines. *)
Record Wallet := {
  getAddress : string;
  signTypedData : string → SignatureData → option string }.

(** [++currentNonce]: the value returned, which is also the counter
    after the call. *)
Definition getNextNonce (currentNonce : Z) : Z := currentNonce + 1.

(** The common end of the five functions: sign, then read the address. *)
Definition signWith (wallet : Wallet) (typeName : string) (data : SignatureData)
    : option SignedRequest :=
  signature ← signTypedData wallet typeName data;
  Some {| sr_data := data; sr_signature := signature; sr_signer := getAddress wallet |}.

(** Each function returns the request (unless the wallet declines) and
    the counter, which has advanced in both cases.  [now] is the clock of
    the client when the data is built. *)
Definition signMintRequest (wallet : Wallet) (now currentNonce : Z)
    (collectionId mintPrice : string) : option SignedRequest * Z :=
  let nonce := getNextNonce currentNonce in
  (signWith wallet "Mint"
     {| sd_action := "mint";
        sd_fields := [("collectionId", collectionId); ("mintPrice", mintPrice)];
        sd_nonce := nonce;
        sd_expiresAt := getSignatureExpiryTime now 5 |}, nonce).

Definition signListRequest (wallet : Wallet) (now currentNonce : Z)
    (nftId price : string) : option SignedRequest * Z :=
  let nonce := getNextNonce currentNonce in
  (signWith wallet "List"
     {| sd_action := "list";
        sd_fields := [("nftId", nftId); ("price", price)];
        sd_nonce := nonce;
        sd_expiresAt := getSignatureExpiryTime now 5 |}, nonce).

Definition signUnlistRequest (wallet : Wallet) (now currentNonce : Z)
    (nftId : string) : option SignedRequest * Z :=
  let nonce := getNextNonce currentNonce in
  (signWith wallet "Unlist"
     {| sd_action := "unlist";
        sd_fields := [("nftId", nftId)];
        sd_nonce := nonce;
        sd_expiresAt := getSignatureExpiryTime now 5 |}, nonce).

Definition signBuyRequest (wallet : Wallet) (now currentNonce : Z)
    (nftId price : string) : option SignedRequest * Z :=
  let nonce := getNextNonce currentNonce in
  (signWith wallet "Buy"
     {| sd_action := "buy";
        sd_fields := [("nftId", nftId); ("price", price)];
        sd_nonce := nonce;
        sd_expiresAt := getSignatureExpiryTime now 5 |}, nonce).

Definition signOfferRequest (wallet : Wallet) (now currentNonce : Z)
    (nftId amount : string) : option SignedRequest * Z :=
  let nonce := getNextNonce currentNonce in
  (signWith wallet "Offer"
     {| sd_action := "offer";
        sd_fields := [("nftId", nftId); ("amount", amount)];
        sd_nonce := nonce;
        sd_expiresAt := getSignatureExpiryTime now 5 |}, nonce).

(** What the user asks to sign. *)
Inductive Intent :=
  | ToMint (collectionId mintPrice : string)
  | ToList (nftId price : string)
  | ToUnlist (nftId : string)
  | ToBuy (nftId price : string)
  | ToOffer (nftId amount : string).

Definition signIntent (wallet : Wallet) (now currentNonce : Z) (intent : Intent)
    : option SignedRequest * Z :=
  match intent with
  | ToMint collectionId mintPrice => signMintRequest wallet now currentNonce collectionId mintPrice
  | ToList nftId price => signListRequest wallet now currentNonce nftId price
  | ToUnlist nftId => signUnlistRequest wallet now currentNonce nftId
  | ToBuy nftId price => signBuyRequest wallet now currentNonce nftId price
  | ToOffer nftId amount => signOfferRequest wallet now currentNonce nftId amount
  end.

(** One page session: each intent is signed at its own instant, and the
    requests that were signed are submitted, in order, each at its own
    later instant and with the account hash of the wallet's address. *)
Fixpoint submissions (c : Crypto) (wallet : Wallet) (currentNonce : Z)
    (items : list (Z * Z * Intent)) : list (Z * SignedRequest * string) :=
  match items with
  | [] => []
  | (signedAt, submittedAt, intent) :: rest =>
      let '(request, currentNonce) := signIntent wallet signedAt currentNonce intent in
      match request with
      | Some sr => [(submittedAt, sr, keccak256 c (toLowerCase (getAddress wallet)))]
      | None => []
      end ++ submissions c wallet currentNonce rest
  end.

(** Signatures of the wallet are recovered to its address. *)
Definition signs_for (c : Crypto) (wallet : Wallet) : Prop :=
  ∀ typeName data,
    ∃ signature recovered,
      signTypedData wallet typeName data = Some signature
      ∧ verifyTypedData c typeName data signature = Some recovered
      ∧ toLowerCase recovered = toLowerCase (getAddress wallet).

End Client.

(** ** Keys of the nonce timestamps *)

Module NonceKeys.
Import Signing Routes.

Fixpoint colon_free (s : string) : bool :=
  match s with
  | EmptyString => true
  | String c s' => negb (Ascii.eqb c ":") && colon_free s'
  end.

(** Every key of [nonceTimestamps] is a signer and a nonce without a
    colon, joined by one: the keys that [verifySignedRequest] writes for
    addresses. *)
Definition keys_wellformed (ns : NonceStore) : Prop :=
  ∀ key t, nonceTimestamps ns !! key = Some t ->
    ∃ signer nonce, key = nonceKey signer nonce
                    ∧ colon_free signer = true ∧ colon_free nonce = true.

End NonceKeys.

(** ** Minting from a collection ([server/storage.ts])

    [mintFromCollection] and [poolMintFromCollection] read and write
    more columns of [collections] and [nfts] than the purchase paths do;
    the tables are given here with those columns. *)

Module Minting.
Import Schema.

Record CollectionRow := {
  col_name : string;
  col_description : option string;
  col_imageUrl : string;
  col_totalSupply : Z;
  col_mintedCount : Z;
  col_mintPrice : Z;
  col_isActive : bool }.

Record NftRow := {
  nr_collectionId : option string;
  nr_tokenId : Z;
  nr_name : string;
  nr_description : option string;
  nr_imageUrl : string;
  nr_encryptedOwner : string;
  nr_mintPrice : Z;
  nr_isMinted : bool }.

(** [collections] and [nfts] by id, [pool_balances] by account hash. *)
Record Catalogue := {
  cat_collections : gmap string CollectionRow;
  cat_nfts : gmap string NftRow;
  cat_poolBalances : gmap string PoolBalance;
  cat_poolTransactions : list (string * PoolTransaction) }.

Definition set_collections (f : gmap string CollectionRow → gmap string CollectionRow)
    (c : Catalogue) : Catalogue :=
  {| cat_collections := f (cat_collections c); cat_nfts := cat_nfts c;
     cat_poolBalances := cat_poolBalances c;
     cat_poolTransactions := cat_poolTransactions c |}.

Definition set_nfts (f : gmap string NftRow → gmap string NftRow) (c : Catalogue)
    : Catalogue :=
  {| cat_collections := cat_collections c; cat_nfts := f (cat_nfts c);
     cat_poolBalances := cat_poolBalances c;
     cat_poolTransactions := cat_poolTransactions c |}.

Definition set_poolBalances (f : gmap string PoolBalance → gmap string PoolBalance)
    (c : Catalogue) : Catalogue :=
  {| cat_collections := cat_collections c; cat_nfts := cat_nfts c;
     cat_poolBalances := f (cat_poolBalances c);
     cat_poolTransactions := cat_poolTransactions c |}.

Definition set_poolTransactions
    (f : list (string * PoolTransaction) → list (string * PoolTransaction))
    (c : Catalogue) : Catalogue :=
  {| cat_collections := cat_collections c; cat_nfts := cat_nfts c;
     cat_poolBalances := cat_poolBalances c;
     cat_poolTransactions := f (cat_poolTransactions c) |}.

(** [db.transaction]: the writes of a body that throws are dropped. *)
Definition transaction {A} (c : Catalogue)
    (body : Catalogue → outcome (A * Catalogue)) : outcome A * Catalogue :=
  match body c with
  | Ok (a, c') => (Ok a, c')
  | Throw e => (Throw e, c)
  end.

(** A value written to an [integer] column. *)
Definition integer (n : Z) : outcome Z :=
  if (- 2 ^ 31 <=? n) && (n <? 2 ^ 31) then Ok n else Throw (DbError "22003").

(** [x || null] on a nullable text. *)
Definition or_null (s : option string) : option string :=
  match s with
  | Some "" => None
  | _ => s
  end.

(** The token is taken in the collection (among the NFTs of no
    collection, for [None]): the unique constraint on
    [(collection_id, token_id)], nulls not distinct. *)
Definition token_taken (c : Catalogue) (collectionId : option string) (tokenId : Z) : bool :=
  bool_decide (map_Exists (λ _ n, nr_collectionId n = collectionId
                                  ∧ nr_tokenId n = tokenId) (cat_nfts c)).

(** [insert(nfts).values(...).returning()]; [newId] is the value drawn
    for [id].  Values out of the range of their column are refused
    first, then the unique constraints are looked at, then the foreign
    key to [collections]. *)
Definition insertNftRow (tx : Catalogue) (newId : string) (row : NftRow)
    : outcome (NftRow * Catalogue) :=
  tokenId ← integer (nr_tokenId row);
  mintPrice ← numeric_18_8 (nr_mintPrice row);
  if bool_decide (is_Some (cat_nfts tx !! newId))
     || token_taken tx (nr_collectionId row) tokenId
  then Throw (DbError "23505")
  else if bool_decide (is_Some (nr_collectionId row))
          && bool_decide (nr_collectionId row ≫= (cat_collections tx !!.) = None)
  then Throw (DbError "23503")
  else
    let nft := {| nr_collectionId := nr_collectionId row; nr_tokenId := tokenId;
                  nr_name := nr_name row; nr_description := nr_description row;
                  nr_imageUrl := nr_imageUrl row;
                  nr_encryptedOwner := nr_encryptedOwner row;
                  nr_mintPrice := mintPrice; nr_isMinted := nr_isMinted row |} in
    Ok (nft, set_nfts (insert newId nft) tx).

Definition setMintedCount (tx : Catalogue) (collectionId : string)
    (collection : CollectionRow) (count : Z) : outcome Catalogue :=
  mintedCount ← integer count;
  Ok (set_collections
        (insert collectionId
           {| col_name := col_name collection;
              col_description := col_description collection;
              col_imageUrl := col_imageUrl collection;
              col_totalSupply := col_totalSupply collection;
              col_mintedCount := mintedCount;
              col_mintPrice := col_mintPrice collection;
              col_isActive := col_isActive collection |}) tx).

(** The collection after one more mint. *)
Definition raised (collection : CollectionRow) : CollectionRow :=
  {| col_name := col_name collection;
     col_description := col_description collection;
     col_imageUrl := col_imageUrl collection;
     col_totalSupply := col_totalSupply collection;
     col_mintedCount := col_mintedCount collection + 1;
     col_mintPrice := col_mintPrice collection;
     col_isActive := col_isActive collection |}.

(** The row that both methods insert, for token [tokenId]. *)
Definition mintedNft (collectionId : string) (collection : CollectionRow)
    (tokenId : Z) (encryptedOwner : string) : NftRow :=
  {| nr_collectionId := Some collectionId;
     nr_tokenId := tokenId;
     nr_name := col_name collection +:+ " #" +:+ pretty tokenId;
     nr_description := or_null (col_description collection);
     nr_imageUrl := col_imageUrl collection;
     nr_encryptedOwner := encryptedOwner;
     nr_mintPrice := col_mintPrice collection;
     nr_isMinted := true |}.

Definition mintFromCollection (c : Catalogue) (newId : string)
    (collectionId encryptedOwner : string) : outcome NftRow * Catalogue :=
  transaction c (λ tx,
    match cat_collections tx !! collectionId with
    | None => Throw (Error "Collection not found")
    | Some collection =>
        if negb (col_isActive collection) then Throw (Error "Collection is not active")
        else if col_totalSupply collection <=? col_mintedCount collection
        then Throw (Error "Collection is sold out")
        else
          let tokenNumber := col_mintedCount collection + 1 in
          '(nft, tx) ← insertNftRow tx newId
                         (mintedNft collectionId collection tokenNumber encryptedOwner);
          tx ← setMintedCount tx collectionId collection tokenNumber;
          Ok (nft, tx)
    end).

Record PoolMintFromCollectionParams := {
  pm_collectionId : string;
  pm_encryptedOwner : string;
  pm_accountHash : string;
  pm_mintPrice : Z;
  pm_txHash : string;
  pm_onChainTokenId : Z }.

Record PoolMintResult := {
  pmr_nft : NftRow;
  pmr_updatedBalance : PoolBalance;
  pmr_transaction : PoolTransaction }.

(** [newId] and [newTxId] are the ids drawn for the NFT and for the
    history row; [now] is the instant of [new Date()].  The history row
    references the NFT inserted just before, so that its foreign key
    holds. *)
Definition poolMintFromCollection (c : Catalogue) (now : Z) (newId newTxId : string)
    (params : PoolMintFromCollectionParams) : outcome PoolMintResult * Catalogue :=
  let collectionId := pm_collectionId params in
  let accountHash := pm_accountHash params in
  let mintPrice := pm_mintPrice params in
  let onChainTokenId := pm_onChainTokenId params in
  let amountNum := Js.parseFloat mintPrice in
  transaction c (λ tx,
    match cat_collections tx !! collectionId with
    | None => Throw (Error "Collection not found")
    | Some collection =>
        if negb (col_isActive collection) then Throw (Error "Collection is not active")
        else if col_totalSupply collection <=? col_mintedCount collection
        then Throw (Error "Collection is sold out")
        else
          let newMintedCount := col_mintedCount collection + 1 in
          '(nft, tx) ← insertNftRow tx newId
                         (mintedNft collectionId collection onChainTokenId
                            (pm_encryptedOwner params));
          tx ← setMintedCount tx collectionId collection newMintedCount;
          match cat_poolBalances tx !! accountHash with
          | None => Throw (Error "Pool balance not found")
          | Some existingBalance =>
              let currentBalance := Js.parseFloat (pb_balance existingBalance) in
              let currentSpent := Js.parseFloat (pb_totalSpent existingBalance) in
              if Js.lt currentBalance amountNum
              then Throw (Error "Insufficient pool balance")
              else
                let newBalance := Js.sub currentBalance amountNum in
                let newSpent := Js.add currentSpent amountNum in
                balance ← numeric_of_text (Js.toFixed8 newBalance);
                totalSpent ← numeric_of_text (Js.toFixed8 newSpent);
                let updatedBalance :=
                  {| pb_encryptedOwner := pb_encryptedOwner existingBalance;
                     pb_balance := balance;
                     pb_totalDeposited := pb_totalDeposited existingBalance;
                     pb_totalSpent := totalSpent;
                     pb_lastActivity := now |} in
                let tx := set_poolBalances (insert accountHash updatedBalance) tx in
                amount ← numeric_18_8 mintPrice;
                if bool_decide (newTxId ∈ (cat_poolTransactions tx).*1)
                then Throw (DbError "23505")
                else
                  let transaction :=
                    {| pt_accountHash := accountHash; pt_type := mint_payment;
                       pt_amount := amount; pt_txHash := Some (pm_txHash params);
                       pt_nftId := Some newId |} in
                  let tx := set_poolTransactions (λ ts, ts ++ [(newTxId, transaction)]) tx in
                  Ok ({| pmr_nft := nft; pmr_updatedBalance := updatedBalance;
                         pmr_transaction := transaction |}, tx)
          end
    end).

(** *** [createNft] *)

Record InsertNft := {
  in_collectionId : option string;
  in_tokenId : option Z;
  in_name : string;
  in_description : option string;
  in_imageUrl : string;
  in_encryptedOwner : string;
  in_mintPrice : Z;
  in_isMinted : option bool }.

(** [MAX(token_id)] over the NFTs of the collection (of no collection,
    for [None]): [None] is the [NULL] of an empty selection. *)
Definition max_token (c : Catalogue) (collectionId : option string) : option Z :=
  map_fold (λ _ n acc,
              if bool_decide (nr_collectionId n = collectionId)
              then Some (from_option (Z.max (nr_tokenId n)) (nr_tokenId n) acc)
              else acc)
           None (cat_nfts c).

(** [COALESCE(MAX(token_id), 0)]. *)
Definition maxId (c : Catalogue) (collectionId : option string) : Z :=
  default 0 (max_token c collectionId).

(** The method runs outside a transaction; its one write is the
    insert. *)
Definition createNft (c : Catalogue) (newId : string) (insertNft : InsertNft)
    : outcome NftRow * Catalogue :=
  let collectionId := or_null (in_collectionId insertNft) in
  let tokenId :=
    match in_tokenId insertNft with
    | Some tokenId => tokenId
    | None => maxId c collectionId + 1
    end in
  match insertNftRow c newId
          {| nr_collectionId := collectionId;
             nr_tokenId := tokenId;
             nr_name := in_name insertNft;
             nr_description := or_null (in_description insertNft);
             nr_imageUrl := in_imageUrl insertNft;
             nr_encryptedOwner := in_encryptedOwner insertNft;
             nr_mintPrice := in_mintPrice insertNft;
             nr_isMinted := default true (in_isMinted insertNft) |} with
  | Ok (nft, c') => (Ok nft, c')
  | Throw e => (Throw e, c)
  end.

(** The number of NFT rows of a collection. *)
Definition minted (c : Catalogue) (collectionId : string) : nat :=
  size (filter (λ kv, nr_collectionId kv.2 = Some collectionId) (cat_nfts c)).

(** Every collection has minted [mintedCount] NFTs, and no more than its
    supply. *)
Definition supply_kept (c : Catalogue) : Prop :=
  ∀ id collection, cat_collections c !! id = Some collection ->
    col_mintedCount collection = Z.of_nat (minted c id)
    ∧ col_mintedCount collection <= col_totalSupply collection.

(** The tokens of every collection are numbered from 1 to its
    [mintedCount], as [mintFromCollection] numbers them. *)
Definition numbered (c : Catalogue) : Prop :=
  ∀ id nft collectionId collection,
    cat_nfts c !! id = Some nft -> nr_collectionId nft = Some collectionId ->
    cat_collections c !! collectionId = Some collection ->
    1 <= nr_tokenId nft <= col_mintedCount collection.

End Minting.

(** ** More routes ([server/routes.ts]) *)

Module PoolRoutes.
Import Schema Storage Signing Relayer Routes.

(** A response: an error body, or [res.status(code).json(body)] with a
    body of the route. *)
Inductive Reply (A : Type) :=
  | Refused (code : Z) (error : Body)
  | Replied (code : Z) (body : A).
Arguments Refused {A} code error.
Arguments Replied {A} code body.

Definition code_of {A} (r : Reply A) : Z :=
  match r with
  | Refused code _ => code
  | Replied code _ => code
  end.


(** [/^0x[a-fA-F0-9]+$/] and [/^0x[a-fA-F0-9]*$/]. *)
Definition is_hex_text (nonempty : bool) (s : string) : bool :=
  match s with
  | String "0" (String "x" rest) =>
      negb (nonempty && bool_decide (rest = "")) && forallb is_hex (list_ascii_of_string rest)
  | _ => false
  end.

(** *** [recordPoolTransaction] and [getTradesByNftId] ([server/storage.ts]) *)


Definition getTradesByNftId (d : Database) (nftId : string) : list Trade :=
  List.filter (λ t, bool_decide (trade_nftId t = nftId)) (trades d).

(** *** [POST /api/pool/deposit] *)




(** *** [POST /api/pool/withdraw] *)

(** The pool contract: [process.env.VITE_PRIVACY_POOL_ADDRESS], and
    [pool.withdraw(accountHash, amountWei, recipientAddress)] followed by
    [tx.wait()]: the transaction hash, or what either throws.  The answer
    may depend on the number of calls made before. *)
Record PoolContract := {
  poolAddress : option string;
  pool_withdraw : nat → string → Z → string → CallError + string }.


Definition isPoolConfigured (w : World) (pool : PoolContract) : bool :=
  bool_decide (is_Some (truthy (poolAddress pool))) && isRelayerConfigured w.







(** *** [POST /api/pool/buy] *)

Record PoolBuyRequest := {
  pbr_nftId : string;
  pbr_accountHash : string;
  pbr_encryptedBuyer : string;
  pbr_encryptedHandle : string;
  pbr_inputProof : string }.

(** [{ success: true, ..., txHash, poolBuy: true, price }]. *)
Record PoolBuyReceipt := {
  pbuy_txHash : option string;
  pbuy_price : Z }.

Definition apiPoolBuy (w : World) (pool : PoolContract) (req : PoolBuyRequest)
    (st : ServerState) : Reply PoolBuyReceipt * ServerState :=
  if negb (isPoolConfigured w pool)
  then (Refused 503 (ErrorBody "Pool buying not available - pool not configured"), st)
  else if negb (is_hex_text true (pbr_encryptedHandle req)
                && is_hex_text false (pbr_inputProof req))
  then (Refused 400 ValidationError, st)
  else
    let d := db st in
    (* Get the NFT *)
    match getNftById d (pbr_nftId req) with
    | None => (Refused 404 (ErrorBody "NFT not found"), st)
    | Some nft =>
    (* Get the collection for contract address first *)
    match contractAddressOf d nft with
    | None => (Refused 400 (ErrorBody "Collection contract address not found"), st)
    | Some collectionAddress =>
    (* Verify listing exists and is active in database *)
    match getListingByNftId d (pbr_nftId req) with
    | None => (Refused 400 (ErrorBody "NFT is not listed for sale"), st)
    | Some listing =>
    if negb (listing_isActive listing) then (Refused 400 (ErrorBody "NFT is not listed for sale"), st)
    else
      (* Verify on-chain listing status before proceeding *)
      let '(onChainStatus, log1) :=
        checkOnChainListingStatus w (chainLog st) collectionAddress (nft_tokenId nft) in
      if negb (isListed onChainStatus)
      then
        (* Sync database with on-chain state *)
        (Refused 400 (ErrorBody "NFT is no longer listed for sale. The listing has been updated."),
         with_db (with_log st log1) (deactivateListing d (listing_id listing)))
      else
      (* Prevent buying your own NFT *)
      if bool_decide (nft_encryptedOwner nft = pbr_encryptedBuyer req)
      then (Refused 400 (ErrorBody "You already own this NFT"), with_log st log1)
      else
      (* Check buyer's pool balance in the database *)
      match getPoolBalance d (pbr_accountHash req) with
      | None =>
          (Refused 400 (ErrorBody "No pool balance found. Please deposit ETH to your privacy pool first."),
           with_log st log1)
      | Some buyerPoolBalance =>
      let buyerBalance := Js.parseFloat (pb_balance buyerPoolBalance) in
      let requiredAmount := Js.parseFloat (listing_price listing) in
      if Js.lt buyerBalance requiredAmount
      then
        (Refused 400 (InsufficientPoolBalance (Js.toFixed8 buyerBalance)
                                              (Js.toFixed8 requiredAmount)),
         with_log st log1)
      else
      (* Execute the buy via relayer *)
      let '(result, log2) :=
        buyNFTViaRelayer w log1
          {| rb_collectionAddress := collectionAddress;
             rb_tokenId := nft_tokenId nft;
             rb_price := listing_price listing;
             rb_encryptedBuyer := pbr_encryptedHandle req;
             rb_inputProof := pbr_inputProof req |} in
      if negb (success result)
      then (Refused 500 (ErrorBody (or_string (rb_error result) "Pool buy failed")), with_log st log2)
      else
        (* Create trade record *)
        match createTrade d {| trade_nftId := pbr_nftId req;
                               trade_encryptedBuyer := pbr_encryptedBuyer req;
                               trade_encryptedSeller := listing_encryptedSeller listing;
                               trade_price := listing_price listing |} with
        | (Throw _, d1) =>
            (Refused 500 (ErrorBody "Failed to purchase NFT via pool"), with_db (with_log st log2) d1)
        | (Ok _, d1) =>
            (* Transfer ownership, deactivate the listing *)
            let d2 := updateNftOwner d1 (pbr_nftId req) (pbr_encryptedBuyer req) in
            let d3 := deactivateListing d2 (listing_id listing) in
            (Replied 200 {| pbuy_txHash := txHash result;
                            pbuy_price := listing_price listing |},
             with_db (with_log st log2) d3)
        end
      end
    end end end.

(** *** [POST /api/listings] and [POST /api/listings/cancel] *)

(** [newId] is the id drawn for the new row. *)
Definition apiListings (newId : string) (data : InsertListing) (st : ServerState)
    : Reply Listing * ServerState :=
  (* Verify NFT exists *)
  match getNftById (db st) (il_nftId data) with
  | None => (Refused 404 (ErrorBody "NFT not found"), st)
  | Some nft =>
      (* Verify the seller owns the NFT (encrypted address match) *)
      if bool_decide (nft_encryptedOwner nft ≠ il_encryptedSeller data)
      then (Refused 403 (ErrorBody "You don't own this NFT"), st)
      else
        match createListing (db st) newId data with
        | (Throw _, d1) => (Refused 500 (ErrorBody "Failed to create listing"), with_db st d1)
        | (Ok listing, d1) => (Replied 201 listing, with_db st d1)
        end
  end.

Definition apiListingsCancel (nftId : string) (st : ServerState)
    : Reply unit * ServerState :=
  (* Get the listing *)
  match getListingByNftId (db st) nftId with
  | None => (Refused 400 (ErrorBody "NFT is not listed"), st)
  | Some listing =>
      if negb (listing_isActive listing)
      then (Refused 400 (ErrorBody "NFT is not listed"), st)
      else
        (* Deactivate the listing in database *)
        (Replied 200 (), with_db st (deactivateListing (db st) (listing_id listing)))
  end.

(** *** [GET /api/nfts/:id] *)

(** [{ ...nft, listing, trades }]. *)
Record NftDetails := {
  det_nft : Nft;
  det_listing : option Listing;
  det_trades : list Trade }.

Definition apiNftDetails (w : World) (id : string) (st : ServerState)
    : Reply NftDetails * ServerState :=
  match getNftById (db st) id with
  | None => (Refused 404 (ErrorBody "NFT not found"), st)
  | Some nft =>
      let listing := getListingByNftId (db st) id in
      let trades := getTradesByNftId (db st) id in
      (* Verify on-chain listing status if there is an active listing *)
      let '(listing, st) :=
        match listing with
        | Some l =>
            if listing_isActive l
               && bool_decide (is_Some (truthy (nft_collectionId nft)))
            then
              match contractAddressOf (db st) nft with
              | Some contractAddress =>
                  let '(onChainStatus, log) :=
                    checkOnChainListingStatus w (chainLog st) contractAddress
                      (nft_tokenId nft) in
                  if negb (isListed onChainStatus)
                  then (None,
                        with_db (with_log st log) (deactivateListing (db st) (listing_id l)))
                  else (Some l, with_log st log)
              | None => (Some l, st)
              end
            else (Some l, st)
        | None => (None, st)
        end in
      (Replied 200
         {| det_nft := nft;
            det_listing := listing ≫= λ l, if listing_isActive l then Some l else None;
            det_trades := trades |},
       st)
  end.

End PoolRoutes.

(** ** Listing through the relayer ([server/relayer.ts], [server/routes.ts]) *)

Module RelayerListing.
Import Schema Storage Signing Relayer Routes PoolRoutes.

(** The collection contracts as the relayer's wallet reaches them:
    [wallet.address]; [collection.ownerOf(tokenId)]; and
    [collection.listNFT(tokenId, priceWei, encryptedSeller, inputProof)]
    and [collection.unlistNFT(tokenId)], each followed by [tx.wait()]: the
    transaction hash, or what either throws.  An answer may depend on the
    number of calls made before it. *)
Record Collections := {
  walletAddress : string;
  contract_ownerOf : nat → string → Z → CallError + string;
  contract_listNFT : nat → string → Z → Z → string → string → CallError + string;
  contract_unlistNFT : nat → string → Z → CallError + string }.

(** Calls that leave the server, in the order they are made. *)
Inductive RelayerCall :=
  | CallOwnerOf (collectionAddress : string) (tokenId : Z)
  | CallListed (collectionAddress : string) (tokenId : Z)
  | CallListNFT (collectionAddress : string) (tokenId priceWei : Z)
                (encryptedSeller inputProof : string)
  | CallUnlistNFT (collectionAddress : string) (tokenId : Z).

(** A transaction, as opposed to a read. *)
Definition sends (c : RelayerCall) : bool :=
  match c with
  | CallListNFT _ _ _ _ _ | CallUnlistNFT _ _ => true
  | _ => false
  end.

(** [String.prototype.includes]. *)
Fixpoint includes (s needle : string) : bool :=
  String.prefix needle s
  || match s with
     | EmptyString => false
     | String _ s' => includes s' needle
     end.

(** [RelayerListResult] and [RelayerUnlistResult]: the same three
    fields. *)
Record RelayerResult := {
  rr_success : bool;
  rr_txHash : option string;
  rr_error : option string }.

Definition failure (error : string) : RelayerResult :=
  {| rr_success := false; rr_txHash := None; rr_error := Some error |}.

(** [error.reason || error.message || fallback] of what was caught. *)
Definition caught_or (fallback : string) (e : CallError) : RelayerResult :=
  failure (or_string (ce_reason e) (or_string (ce_message e) fallback)).

Definition not_the_owner (tokenId : Z) (owner : string) : string :=
  "Relayer is not the owner of token " +:+ pretty tokenId +:+ ". Owner: " +:+ owner.

(** *** [isRelayerOwner] *)

Definition isRelayerOwner (w : World) (cs : Collections) (log : list RelayerCall)
    (collectionAddress : string) (tokenId : Z) : bool * list RelayerCall :=
  match getRelayerWallet w with
  | inl _ => (false, log)
  | inr _ =>
      let log1 := log ++ [CallOwnerOf collectionAddress tokenId] in
      match contract_ownerOf cs (length log) collectionAddress tokenId with
      | inl _ => (false, log1)
      | inr owner =>
          (bool_decide (toLowerCase owner = toLowerCase (walletAddress cs)), log1)
      end
  end.

(** *** [listNFTViaRelayer] *)

Record RelayerListRequest := {
  rl_collectionAddress : string;
  rl_tokenId : Z;
  rl_price : Z;
  rl_encryptedSeller : string;
  rl_inputProof : string }.

Definition listNFTViaRelayer (w : World) (cs : Collections) (log : list RelayerCall)
    (request : RelayerListRequest) : RelayerResult * list RelayerCall :=
  let fallback := "Failed to list NFT via relayer" in
  match getRelayerWallet w with
  | inl e => (caught_or fallback e, log)
  | inr _ =>
      let addr := rl_collectionAddress request in
      let tokenId := rl_tokenId request in
      (* Verify the relayer owns this token *)
      let log1 := log ++ [CallOwnerOf addr tokenId] in
      match contract_ownerOf cs (length log) addr tokenId with
      | inl e => (caught_or fallback e, log1)
      | inr owner =>
          if bool_decide (toLowerCase owner ≠ toLowerCase (walletAddress cs))
          then (failure (not_the_owner tokenId owner), log1)
          else
            let priceWei := parseEther (rl_price request) in
            let log2 := log1 ++ [CallListNFT addr tokenId priceWei
                                   (rl_encryptedSeller request) (rl_inputProof request)] in
            match contract_listNFT cs (length log1) addr tokenId priceWei
                    (rl_encryptedSeller request) (rl_inputProof request) with
            | inl e => (caught_or fallback e, log2)
            | inr hash =>
                ({| rr_success := true; rr_txHash := Some hash; rr_error := None |}, log2)
            end
      end
  end.

(** *** [unlistNFTViaRelayer] *)

Definition unlistNFTViaRelayer (w : World) (cs : Collections) (log : list RelayerCall)
    (collectionAddress : string) (tokenId : Z) : RelayerResult * list RelayerCall :=
  let fallback := "Failed to unlist NFT via relayer" in
  match getRelayerWallet w with
  | inl e => (caught_or fallback e, log)
  | inr _ =>
      (* Verify the relayer owns this token *)
      let log1 := log ++ [CallOwnerOf collectionAddress tokenId] in
      match contract_ownerOf cs (length log) collectionAddress tokenId with
      | inl e => (caught_or fallback e, log1)
      | inr owner =>
          if bool_decide (toLowerCase owner ≠ toLowerCase (walletAddress cs))
          then (failure (not_the_owner tokenId owner), log1)
          else
            (* Verify the token is listed *)
            let log2 := log1 ++ [CallListed collectionAddress tokenId] in
            match contract_isListed w (length log1) collectionAddress tokenId with
            | inl e => (caught_or fallback e, log2)
            | inr false =>
                (failure ("Token " +:+ pretty tokenId +:+ " is not listed"), log2)
            | inr true =>
                let log3 := log2 ++ [CallUnlistNFT collectionAddress tokenId] in
                match contract_unlistNFT cs (length log2) collectionAddress tokenId with
                | inl e => (caught_or fallback e, log3)
                | inr hash =>
                    ({| rr_success := true; rr_txHash := Some hash; rr_error := None |},
                     log3)
                end
            end
      end
  end.

(** *** [POST /api/relayer/unlist] *)

Record UnlistRequest := {
  ur_nftId : string;
  ur_encryptedOwner : string;
  ur_signedRequest : SignedRequest }.

(** The bodies of the route: [{ error, needsDirectUnlist: true }],
    [{ success: true, synced: true, message }] and
    [{ success: true, txHash, relayerUnlist: true }]. *)
Inductive UnlistBody :=
  | NeedsDirectUnlist
  | Synced
  | Unlisted (txHash : option string).

(** [verifySignedRequest] as the routes use it: the answer to a request
    that fails, and the nonce maps. *)
Definition authorization (c : Crypto) (now : Z) (signedRequest : SignedRequest)
    (expectedAccountHash : string) (st : ServerState) : option Body * ServerState :=
  let '(verification, ns) :=
    verifySignedRequest c now (nonces st) signedRequest expectedAccountHash in
  (if valid verification then None
   else Some (ErrorBody ("Authorization failed: " +:+ default "" (vr_error verification))),
   with_nonces st ns).

Definition apiRelayerUnlist (c : Crypto) (w : World) (cs : Collections) (now : Z)
    (req : UnlistRequest) (st : ServerState) (log : list RelayerCall)
    : Reply UnlistBody * ServerState * list RelayerCall :=
  if negb (bool_decide (sd_action (sr_data (ur_signedRequest req)) = "unlist"))
  then (Refused 400 ValidationError, st, log)
  else
    (* Verify wallet signature *)
    let '(verification, st) :=
      authorization c now (ur_signedRequest req) (ur_encryptedOwner req) st in
    match verification with
    | Some error => (Refused 401 error, st, log)
    | None =>
    let d := db st in
    (* Get the NFT *)
    match getNftById d (ur_nftId req) with
    | None => (Refused 404 (ErrorBody "NFT not found"), st, log)
    | Some nft =>
    (* Verify the signer owns the NFT *)
    if bool_decide (nft_encryptedOwner nft ≠ ur_encryptedOwner req)
    then (Refused 403 (ErrorBody "You don't own this NFT"), st, log)
    else
    (* Get the collection for contract address *)
    match contractAddressOf d nft with
    | None => (Refused 400 (ErrorBody "Collection not deployed"), st, log)
    | Some contractAddress =>
    (* Get the listing *)
    match getListingByNftId d (ur_nftId req) with
    | None => (Refused 400 (ErrorBody "NFT is not listed"), st, log)
    | Some listing =>
    if negb (listing_isActive listing)
    then (Refused 400 (ErrorBody "NFT is not listed"), st, log)
    else
      (* Check if relayer is the owner on-chain *)
      let '(relayerIsOwner, log1) :=
        isRelayerOwner w cs log contractAddress (nft_tokenId nft) in
      if negb relayerIsOwner then (Replied 400 NeedsDirectUnlist, st, log1)
      else
        (* Unlist via relayer *)
        let '(result, log2) :=
          unlistNFTViaRelayer w cs log1 contractAddress (nft_tokenId nft) in
        if negb (rr_success result)
        then
          (* If the token is not listed on-chain, just sync the database *)
          if from_option (λ error, includes error "is not listed") false (rr_error result)
          then (Replied 200 Synced,
                with_db st (deactivateListing d (listing_id listing)), log2)
          else (Refused 500 (ErrorBody (or_string (rr_error result)
                                          "Unlisting via relayer failed")),
                st, log2)
        else
          (* Deactivate the listing in database *)
          (Replied 200 (Unlisted (rr_txHash result)),
           with_db st (deactivateListing d (listing_id listing)), log2)
    end end end end.

(** *** [POST /api/listings/relayer] *)

Record ListRequest := {
  lr_nftId : string;
  lr_price : Z;
  lr_encryptedSeller : string;
  lr_encryptedHandle : string;
  lr_inputProof : string;
  lr_signedRequest : SignedRequest }.

(** [{ ...listing, txHash, relayerListing: true }]. *)
Record RelayerListed := {
  listed_row : Listing;
  listed_txHash : option string }.

(** What [relayerListSchema] checks beyond the shape of the body. *)
Definition relayerListSchema (req : ListRequest) : bool :=
  is_hex_text true (lr_encryptedHandle req)
  && is_hex_text false (lr_inputProof req)
  && bool_decide (sd_action (sr_data (lr_signedRequest req)) = "list").

(** [newId] is the id drawn for the new row. *)
Definition apiListingsRelayer (c : Crypto) (w : World) (cs : Collections) (now : Z)
    (newId : string) (req : ListRequest) (st : ServerState) (log : list RelayerCall)
    : Reply RelayerListed * ServerState * list RelayerCall :=
  if negb (isRelayerConfigured w)
  then (Refused 503 (ErrorBody "Relayer listing not available - relayer not configured"),
        st, log)
  else if negb (relayerListSchema req) then (Refused 400 ValidationError, st, log)
  else
    (* Verify wallet signature *)
    let '(verification, st) :=
      authorization c now (lr_signedRequest req) (lr_encryptedSeller req) st in
    match verification with
    | Some error => (Refused 401 error, st, log)
    | None =>
    let d := db st in
    (* Get NFT and verify ownership *)
    match getNftById d (lr_nftId req) with
    | None => (Refused 404 (ErrorBody "NFT not found"), st, log)
    | Some nft =>
    (* Verify the seller owns the NFT in our database *)
    if bool_decide (nft_encryptedOwner nft ≠ lr_encryptedSeller req)
    then (Refused 403 (ErrorBody "You don't own this NFT"), st, log)
    else
    (* Get the collection to find contract address *)
    match contractAddressOf d nft with
    | None => (Refused 400 (ErrorBody "Collection contract address not found"), st, log)
    | Some contractAddress =>
      (* Verify the relayer is the on-chain owner (for pool-minted NFTs) *)
      let '(relayerOwns, log1) :=
        isRelayerOwner w cs log contractAddress (nft_tokenId nft) in
      if negb relayerOwns
      then (Refused 400 (ErrorBody "This NFT cannot be listed via relayer - relayer is not the on-chain owner. Use direct listing instead."),
            st, log1)
      else
        (* Call the relayer to list the NFT on-chain *)
        let '(result, log2) :=
          listNFTViaRelayer w cs log1
            {| rl_collectionAddress := contractAddress;
               rl_tokenId := nft_tokenId nft;
               rl_price := lr_price req;
               rl_encryptedSeller := lr_encryptedHandle req;
               rl_inputProof := lr_inputProof req |} in
        if negb (rr_success result)
        then (Refused 500 (ErrorBody (or_string (rr_error result)
                                        "Listing via relayer failed")),
              st, log2)
        else
          (* Create listing in database *)
          match createListing d newId
                  {| il_nftId := lr_nftId req; il_price := lr_price req;
                     il_encryptedSeller := lr_encryptedSeller req;
                     il_isActive := None |} with
          | (Throw _, d1) =>
              (Refused 500 (ErrorBody "Failed to list NFT via relayer"), with_db st d1, log2)
          | (Ok listing, d1) =>
              (Replied 201 {| listed_row := listing; listed_txHash := rr_txHash result |},
               with_db st d1, log2)
          end
    end end end.

(** A request that the nonce check lets through at [now]. *)
Definition authorized (c : Crypto) (now : Z) (ns : NonceStore)
    (signedRequest : SignedRequest) (accountHash : string) : Prop :=
  reaches_nonce_check c now signedRequest accountHash
  ∧ ¬ consumed ns (toLowerCase (sr_signer signedRequest))
                  (pretty (sd_nonce (sr_data signedRequest))).

(** The calls added to a log. *)
Definition added (log log' : list RelayerCall) : list RelayerCall :=
  drop (length log) log'.

End RelayerListing.

(** ** The pool contract ([contracts/PrivacyPool.sol]) *)

Module PrivacyPool.

(** [uint256] values, addresses and [bytes32] hashes are integers; the
    zero address and [bytes32(0)] are [0].  Amounts are in wei. *)
Definition MAX_UINT256 : Z := 2 ^ 256 - 1.
Definition MIN_DEPOSIT : Z := 10 ^ 15.
Definition MAX_DEPOSIT : Z := 10 * 10 ^ 18.

(** The storage of the contract, with its address [this] and the ether
    it holds, [address(this).balance].  A key absent from [_balances]
    maps to [0]. *)
Record Pool := {
  this : Z;
  owner : Z;
  relayer : Z;
  totalPoolBalance : Z;
  totalDeposits : Z;
  totalWithdrawals : Z;
  _balances : gmap Z Z;
  held : Z }.

Definition with_held (p : Pool) (h : Z) : Pool :=
  {| this := this p; owner := owner p; relayer := relayer p;
     totalPoolBalance := totalPoolBalance p; totalDeposits := totalDeposits p;
     totalWithdrawals := totalWithdrawals p; _balances := _balances p; held := h |}.

Definition with_owner (p : Pool) (a : Z) : Pool :=
  {| this := this p; owner := a; relayer := relayer p;
     totalPoolBalance := totalPoolBalance p; totalDeposits := totalDeposits p;
     totalWithdrawals := totalWithdrawals p; _balances := _balances p; held := held p |}.

Definition with_relayer (p : Pool) (a : Z) : Pool :=
  {| this := this p; owner := owner p; relayer := a;
     totalPoolBalance := totalPoolBalance p; totalDeposits := totalDeposits p;
     totalWithdrawals := totalWithdrawals p; _balances := _balances p; held := held p |}.

(** The state after [constructor()], run by [deployer] at an address
    that already held [funds]. *)
Definition constructed (address deployer funds : Z) : Pool :=
  {| this := address; owner := deployer; relayer := 0;
     totalPoolBalance := 0; totalDeposits := 0; totalWithdrawals := 0;
     _balances := ∅; held := funds |}.

(** [getBalance], [hasSufficientBalance] and [getPoolStats]. *)
Definition getBalance (p : Pool) (accountHash : Z) : Z :=
  default 0 (_balances p !! accountHash).

Definition hasSufficientBalance (p : Pool) (accountHash amount : Z) : bool :=
  amount <=? getBalance p accountHash.

Definition getPoolStats (p : Pool) : Z * Z * Z :=
  (totalPoolBalance p, totalDeposits p, totalWithdrawals p).

(** Checked arithmetic of Solidity 0.8: [None] is the panic that
    reverts. *)
Definition checked_add (a b : Z) : option Z :=
  if a + b <=? MAX_UINT256 then Some (a + b) else None.

Definition checked_sub (a b : Z) : option Z :=
  if b <=? a then Some (a - b) else None.

(** [require(b, ...)]. *)
Definition require (b : bool) : option unit :=
  if b then Some () else None.

(** The external functions; [receive] stands for a call with empty
    data. *)
Inductive Function :=
  | setRelayer (_relayer : Z)
  | transferOwnership (newOwner : Z)
  | deposit (accountHash : Z)
  | withdraw (accountHash amount recipient : Z)
  | deductForMint (accountHash amount : Z)
  | emergencyWithdraw (recipient : Z)
  | receive.

Definition payable (f : Function) : bool :=
  match f with
  | deposit _ | receive => true
  | _ => false
  end.

(** What happens to the contract.  [Forced value] is ether that arrives
    without a call (the beneficiary of a [selfdestruct] or of a block
    reward).  [Transact sender value f nested ok] is a call of [f] with
    [msg.sender] and [msg.value]; [nested] and [ok] say what the callee
    of the external call of [f] does while it runs: the events it causes
    on the pool, each of which goes through or reverts on its own, and
    whether it returns successfully. *)
#[warnings="-register-all"]
Inductive Event :=
  | Forced (value : Z)
  | Transact (sender value : Z) (f : Function) (nested : list Event) (ok : bool).

(** The body of a function up to its external call: the storage after
    it, and the call [(target, amount)] that follows, if any.  [None]
    is a revert. *)
Definition body (p : Pool) (sender value : Z) (f : Function) : option (Pool * option (Z * Z)) :=
  _ ← require ((0 <=? value) && (payable f || (value =? 0)));
  let p := with_held p (held p + value) in
  match f with
  | setRelayer _relayer =>
      _ ← require (bool_decide (sender = owner p));
      _ ← require (bool_decide (_relayer ≠ 0));
      Some (with_relayer p _relayer, None)
  | transferOwnership newOwner =>
      _ ← require (bool_decide (sender = owner p));
      _ ← require (bool_decide (newOwner ≠ 0));
      Some (with_owner p newOwner, None)
  | deposit accountHash =>
      _ ← require (MIN_DEPOSIT <=? value);
      _ ← require (value <=? MAX_DEPOSIT);
      _ ← require (bool_decide (accountHash ≠ 0));
      balance ← checked_add (getBalance p accountHash) value;
      total ← checked_add (totalPoolBalance p) value;
      count ← checked_add (totalDeposits p) 1;
      Some ({| this := this p; owner := owner p; relayer := relayer p;
               totalPoolBalance := total; totalDeposits := count;
               totalWithdrawals := totalWithdrawals p;
               _balances := <[accountHash := balance]> (_balances p);
               held := held p |}, None)
  | withdraw accountHash amount recipient =>
      _ ← require (bool_decide (sender = relayer p));
      _ ← require (0 <? amount);
      _ ← require (amount <=? getBalance p accountHash);
      _ ← require (bool_decide (recipient ≠ 0));
      balance ← checked_sub (getBalance p accountHash) amount;
      total ← checked_sub (totalPoolBalance p) amount;
      count ← checked_add (totalWithdrawals p) 1;
      Some ({| this := this p; owner := owner p; relayer := relayer p;
               totalPoolBalance := total; totalDeposits := totalDeposits p;
               totalWithdrawals := count;
               _balances := <[accountHash := balance]> (_balances p);
               held := held p |}, Some (recipient, amount))
  | deductForMint accountHash amount =>
      _ ← require (bool_decide (sender = relayer p));
      _ ← require (0 <? amount);
      _ ← require (amount <=? getBalance p accountHash);
      balance ← checked_sub (getBalance p accountHash) amount;
      total ← checked_sub (totalPoolBalance p) amount;
      Some ({| this := this p; owner := owner p; relayer := relayer p;
               totalPoolBalance := total; totalDeposits := totalDeposits p;
               totalWithdrawals := totalWithdrawals p;
               _balances := <[accountHash := balance]> (_balances p);
               held := held p |}, Some (relayer p, amount))
  | emergencyWithdraw recipient =>
      _ ← require (bool_decide (sender = owner p));
      _ ← require (bool_decide (recipient ≠ 0));
      Some (p, Some (recipient, held p))
  | receive => None
  end.

(** A call of a function, with [target.call{value: amount}("")]
    followed by [require(success, ...)] where the function has one.
    The call fails when the pool holds less than [amount], when the
    target is the pool itself (its [receive] reverts), or when the callee
    fails; a failure reverts the whole call. *)
Fixpoint execute (p : Pool) (e : Event) {struct e} : option Pool :=
  match e with
  | Forced value =>
      _ ← require (0 <=? value);
      Some (with_held p (held p + value))
  | Transact sender value f nested ok =>
      '(p1, call) ← body p sender value f;
      match call with
      | None => Some p1
      | Some (target, amount) =>
          _ ← require (amount <=? held p1);
          _ ← require (bool_decide (target ≠ this p1));
          _ ← require ok;
          Some (fold_left (λ q e', default q (execute q e')) nested
                  (with_held p1 (held p1 - amount)))
      end
  end.

(** A reverted event leaves the pool as it was. *)
Definition step (p : Pool) (e : Event) : Pool := default p (execute p e).

Definition run (p : Pool) (events : list Event) : Pool := fold_left step events p.

(** The sum of the accounts. *)
Definition accounts_total (p : Pool) : Z :=
  map_fold (λ _ balance sum, balance + sum) 0 (_balances p).

(** The books are right: no account is negative, and
    [totalPoolBalance] is the sum of the accounts. *)
Definition accounted (p : Pool) : Prop :=
  map_Forall (λ _ balance, 0 ≤ balance) (_balances p)
  ∧ totalPoolBalance p = accounts_total p.

(** The pool holds what it owes. *)
Definition solvent (p : Pool) : Prop := totalPoolBalance p ≤ held p.

(** Some call in the event, nested ones included, satisfies [test]. *)
Fixpoint calls (test : Z → Function → bool) (e : Event) : bool :=
  match e with
  | Forced _ => false
  | Transact sender _ f nested _ => test sender f || existsb (calls test) nested
  end.

Definition is_emergencyWithdraw (sender : Z) (f : Function) : bool :=
  match f with
  | emergencyWithdraw _ => true
  | _ => false
  end.

(** The call is sent by the owner or by the relayer of [p]. *)
Definition privileged (p : Pool) (sender : Z) (f : Function) : bool :=
  bool_decide (sender = owner p) || bool_decide (sender = relayer p).

End PrivacyPool.

(** ** More sample data *)

Module MoreSamples.
Import Schema Storage Ledger Samples.

(** A purchase of an NFT that has no row. *)
Definition lost_nft : PoolBuy :=
  {| buy_nftId := "n2"; buy_listingId := "L1"; buy_buyerAccountHash := alice;
     buy_encryptedBuyer := "enc-buyer"; buy_encryptedSeller := bob;
     buy_price := 20000000; buy_txHash := Some "0xabc" |}.

(** Carol's wallet under [toy_crypto]: it signs with her address. *)
Definition carol_wallet : Client.Wallet :=
  {| Client.getAddress := carol; Client.signTypedData := λ _ _, Some carol |}.

(** A purchase signed at 1.0 s and submitted at 2.0 s, then a listing
    signed at 1.5 s and submitted at 301.0 s. *)
Definition carol_session : list (Z * Z * Client.Intent) :=
  [(1000, 2000, Client.ToBuy "n1" "0.20000000");
   (1500, 301000, Client.ToList "n1" "0.30000000")].

(** A collection of two tokens at 0.1, nothing minted yet; Alice holds
    0.5 in the pool. *)
Definition veil : Minting.CollectionRow :=
  {| Minting.col_name := "Veil"; Minting.col_description := Some "First drop";
     Minting.col_imageUrl := "ipfs://veil"; Minting.col_totalSupply := 2;
     Minting.col_mintedCount := 0; Minting.col_mintPrice := 10000000;
     Minting.col_isActive := true |}.

Definition gallery : Minting.Catalogue :=
  {| Minting.cat_collections := {["c1" := veil]};
     Minting.cat_nfts := ∅;
     Minting.cat_poolBalances := {[alice := account 50000000 50000000 0]};
     Minting.cat_poolTransactions := [] |}.

Definition pool_mint : Minting.PoolMintFromCollectionParams :=
  {| Minting.pm_collectionId := "c1"; Minting.pm_encryptedOwner := "enc-alice";
     Minting.pm_accountHash := alice; Minting.pm_mintPrice := 10000000;
     Minting.pm_txHash := "0x7a"; Minting.pm_onChainTokenId := 1 |}.

(** An account hash and a transaction hash of 64 hex digits. *)
Definition vault : string :=
  "0xabababababababababababababababababababababababababababababababab".


(** The account holds 0.5; Bob's NFT is listed at 0.2. *)
Definition bank : Routes.ServerState :=
  {| Routes.db := market {[vault := account 50000000 50000000 0]} [listing1 20000000];
     Routes.nonces := no_nonces;
     Routes.chainLog := [] |}.




(** Bob lists his NFT again, at 0.3. *)
Definition relisting : InsertListing :=
  {| il_nftId := "n1"; il_encryptedSeller := bob; il_price := 30000000;
     il_isActive := None |}.

End MoreSamples.

(** ** Sample data for the relayer's listings *)

Module ListingSamples.
Import Schema Storage Samples.

(** The relayer's wallet, and collections on which it owns every token;
    listing and unlisting go through. *)
Definition relayer_wallet : string := "0x5EaF00d5EaF00d5EaF00d5EaF00d5EaF00d5EaF0".

Definition deployed : RelayerListing.Collections :=
  {| RelayerListing.walletAddress := relayer_wallet;
     RelayerListing.contract_ownerOf := λ _ _ _,
       inr "0x5eaf00d5eaf00d5eaf00d5eaf00d5eaf00d5eaf0";
     RelayerListing.contract_listNFT := λ _ _ _ _ _ _, inr "0x11";
     RelayerListing.contract_unlistNFT := λ _ _ _, inr "0x22" |}.

(** Carol's pool-minted NFT, listed by her at 0.2. *)
Definition carols_nft : Nft :=
  {| nft_collectionId := Some "c1"; nft_tokenId := 7; nft_encryptedOwner := carol_hash |}.

Definition carols_listing : Listing :=
  {| listing_id := "L1"; listing_nftId := "n1"; listing_encryptedSeller := carol_hash;
     listing_price := 20000000; listing_isActive := true |}.

Definition pooled : Routes.ServerState :=
  {| Routes.db :=
       {| collections := {["c1" := {| contractAddress := Some "0xc011ec7" |}]};
          nfts := {["n1" := carols_nft]}; listings := [carols_listing]; trades := [];
          poolBalances := ∅; poolTransactions := [] |};
     Routes.nonces := no_nonces;
     Routes.chainLog := [] |}.

(** Carol's signed requests, valid until second [expiresAt]. *)
Definition signed (action : string) (fields : list (string * string))
    (nonce expiresAt : Z) : Signing.SignedRequest :=
  {| Signing.sr_data := {| Signing.sd_action := action;
                           Signing.sd_fields := fields;
                           Signing.sd_nonce := nonce;
                           Signing.sd_expiresAt := expiresAt |};
     Signing.sr_signature := carol;
     Signing.sr_signer := carol |}.

Definition unlist_request (nonce expiresAt : Z) : RelayerListing.UnlistRequest :=
  {| RelayerListing.ur_nftId := "n1";
     RelayerListing.ur_encryptedOwner := carol_hash;
     RelayerListing.ur_signedRequest := signed "unlist" [("nftId", "n1")] nonce expiresAt |}.

(** Carol lists at 0.3 with a request signed for 0.5. *)
Definition list_request (nonce expiresAt : Z) : RelayerListing.ListRequest :=
  {| RelayerListing.lr_nftId := "n1";
     RelayerListing.lr_price := 30000000;
     RelayerListing.lr_encryptedSeller := carol_hash;
     RelayerListing.lr_encryptedHandle := "0xab";
     RelayerListing.lr_inputProof := "0x";
     RelayerListing.lr_signedRequest :=
       signed "list" [("nftId", "n1"); ("price", "0.5")] nonce expiresAt |}.

End ListingSamples.

(** ** Sample data for the pool contract *)

Module PoolContractSamples.
Import PrivacyPool.

Definition ether : Z := 10 ^ 18.

(** The pool at address 900, deployed by 1; 2 is the relayer, 5 and 6
    are users, 77 and 78 account hashes. *)
Definition fresh_pool : Pool := constructed 900 1 0.

(** The relayer is set, two users deposit, and a withdrawal pays a
    recipient that deposits half of it again while it is paid. *)
Definition busy_day : list Event :=
  [Transact 1 0 (setRelayer 2) [] true;
   Transact 5 (2 * ether) (deposit 77) [] true;
   Transact 6 ether (deposit 78) [] true;
   Transact 2 0 (withdraw 77 ether 5)
     [Transact 5 (ether / 2) (deposit 77) [] true] true].

(** Two users deposit and try what they are not allowed to. *)
Definition outsiders : list Event :=
  [Transact 5 (2 * ether) (deposit 77) [] true;
   Transact 6 0 (withdraw 77 ether 6) [] true;
   Transact 6 0 (setRelayer 6) [] true;
   Transact 6 0 (emergencyWithdraw 6) [] true;
   Forced 3].

End PoolContractSamples.

(** * Verified properties *)

(** ** Binary64 arithmetic on eight-digit decimals *)

Module JsFacts.
Import Js.

Lemma U_pos : 0 < U.
Proof. reflexivity. Qed.

Lemma D_val : D = 100000000.
Proof. reflexivity. Qed.

Lemma limit_val : limit = 1000000000000000.
Proof. reflexivity. Qed.

Lemma eps_pos : 0 < eps.
Proof. reflexivity. Qed.

(** Four parse errors stay below half a decimal unit. *)
Lemma eps_small : 8 * eps * D < U.
Proof. reflexivity. Qed.

(** *** Agreement with [SpecFloat] on samples *)

Example parseFloat_is_binary64 :
  forallb (λ n, eqb (of_spec (b64_decimal n)) (parseFloat n)) decimal_samples = true.
Proof. vm_compute. reflexivity. Qed.

Example add_is_binary64 : agree_on binary64_pairs (SFadd 53 1024) add = true.
Proof. vm_compute. reflexivity. Qed.

Example sub_is_binary64 : agree_on binary64_pairs (SFsub 53 1024) sub = true.
Proof. vm_compute. reflexivity. Qed.

Example lt_is_binary64 :
  forallb (λ p, Bool.eqb (SFltb p.1 p.2) (lt (of_spec p.1) (of_spec p.2))
                && Bool.eqb (SFltb p.2 p.1) (lt (of_spec p.2) (of_spec p.1)))
          binary64_pairs = true.
Proof. vm_compute. reflexivity. Qed.

(** [toFixed(8)] on values that print exactly, round down, round up and
    sit on a tie: 0.5, 0.1 + 0.2, 1/3, 2/3 and [2^-9 = 0.001953125]. *)
Example toFixed8_samples :
  toFixed8 (parseFloat 50000000) = Some 50000000
  ∧ toFixed8 (add (parseFloat 10000000) (parseFloat 20000000)) = Some 30000000
  ∧ toFixed8 (round_ratio U 3) = Some 33333333
  ∧ toFixed8 (round_ratio (2 * U) 3) = Some 66666667
  ∧ toFixed8 (round_ratio (- (2 * U)) 3) = Some (-66666667)
  ∧ toFixed8 (Fin (2 ^ (unit_exp - 9))) = Some 195313
  ∧ toFixed8 (Fin (- 2 ^ (unit_exp - 9))) = Some (-195313)
  ∧ toFixed8 (round_ratio (10 ^ 21 * U) 1) = None.
Proof. vm_compute. repeat split. Qed.

(** *** Rounding error *)

Lemma rne_err a d :
  0 <= a -> 0 < d -> 2 * Z.abs (rne a d * d - a) <= d.
Proof.
  intros Ha Hd. unfold rne.
  pose proof (Z_div_mod a d ltac:(lia)) as Hdm.
  destruct (Z.div_eucl a d) as [f r]. destruct Hdm as [Heq Hr].
  destruct (Z.ltb_spec (2 * r) d); [nia|].
  destruct (Z.ltb_spec d (2 * r)); [nia|].
  destruct (Z.even f); nia.
Qed.

Lemma rne_nonneg a d : 0 <= a -> 0 < d -> 0 <= rne a d.
Proof.
  intros Ha Hd. unfold rne.
  pose proof (Z_div_mod a d ltac:(lia)) as Hdm.
  destruct (Z.div_eucl a d) as [f r]. destruct Hdm as [Heq Hr].
  assert (0 <= f) by nia.
  repeat match goal with |- context [if ?b then _ else _] => destruct b end; lia.
Qed.

Lemma round_mag_nonneg a d : 0 <= a -> 0 < d -> 0 <= round_mag a d.
Proof.
  intros Ha Hd. unfold round_mag.
  destruct (Z.leb_spec (Z.log2 (a / d) - 52) 0).
  - by apply rne_nonneg.
  - apply Z.mul_nonneg_nonneg; [apply rne_nonneg|]; lia.
Qed.

(** One rounding moves a value below [2^J] units by at most
    [2^(J-54)] units. *)
Lemma round_mag_err a d J :
  0 <= a -> 0 < d -> 54 <= J -> a < 2 ^ J * d ->
  Z.abs (round_mag a d * d - a) <= 2 ^ (J - 54) * d.
Proof.
  intros Ha Hd HJ Hlt. unfold round_mag.
  assert (Hpow : 2 ^ (J - 53) = 2 * 2 ^ (J - 54)).
  { replace (J - 53) with (Z.succ (J - 54)) by lia. apply Z.pow_succ_r. lia. }
  assert (Hp : 0 < 2 ^ (J - 54)) by (apply Z.pow_pos_nonneg; lia).
  destruct (Z.leb_spec (Z.log2 (a / d) - 52) 0) as [Hs|Hs].
  - pose proof (rne_err a d Ha Hd). nia.
  - assert (Hq : 0 < a / d).
    { destruct (Z.le_gt_cases (a / d) 0) as [Hle|]; [|done].
      pose proof (Z.log2_nonpos _ Hle). lia. }
    set (s := Z.log2 (a / d) - 52) in *.
    assert (Hqlt : a / d < 2 ^ J) by (apply Z.div_lt_upper_bound; lia).
    apply Z.log2_lt_pow2 in Hqlt; [|done].
    assert (Hle : 2 ^ s <= 2 ^ (J - 53)) by (apply Z.pow_le_mono_r; lia).
    assert (Hps : 0 < 2 ^ s) by (apply Z.pow_pos_nonneg; lia).
    pose proof (rne_err a (d * 2 ^ s) Ha ltac:(lia)) as He.
    replace (rne a (d * 2 ^ s) * 2 ^ s * d)
      with (rne a (d * 2 ^ s) * (d * 2 ^ s)) by ring.
    nia.
Qed.

Lemma round_ratio_near p d J :
  0 < d -> 54 <= J <= 2096 -> Z.abs p < 2 ^ J * d ->
  near (round_ratio p d) p d (2 ^ (J - 54)).
Proof.
  intros Hd HJ Hlt. unfold round_ratio.
  pose proof (round_mag_err (Z.abs p) d J ltac:(lia) Hd ltac:(lia) Hlt) as He.
  pose proof (round_mag_nonneg (Z.abs p) d ltac:(lia) Hd) as Hm.
  set (m := round_mag (Z.abs p) d) in *.
  assert (Hp : 0 < 2 ^ (J - 54)) by (apply Z.pow_pos_nonneg; lia).
  assert (Hp2 : 2 ^ J = 2 ^ 54 * 2 ^ (J - 54)).
  { rewrite <- Z.pow_add_r by lia. f_equal. lia. }
  assert (Hmax : 2 ^ J <= 2 ^ 2096) by (apply Z.pow_le_mono_r; lia).
  assert (Hbig : 2 ^ 2098 = 4 * 2 ^ 2096) by reflexivity.
  assert (H54 : 1 < 2 ^ 54) by reflexivity.
  destruct (Z.leb_spec (2 ^ 2098) m) as [Hov|Hov].
  - exfalso.
    generalize dependent (2 ^ J). generalize dependent (2 ^ (J - 54)).
    generalize dependent (2 ^ 2096). generalize dependent (2 ^ 2098).
    generalize dependent (2 ^ 54). intros. nia.
  - exists (Z.sgn p * m). split; [done|].
    destruct (Z.lt_trichotomy p 0) as [Hn|[->|Hpos]].
    + rewrite (Z.sgn_neg _ Hn). rewrite (Z.abs_neq p) in He by lia. lia.
    + simpl. lia.
    + rewrite (Z.sgn_pos _ Hpos). rewrite (Z.abs_eq p) in He by lia. lia.
Qed.

Lemma parseFloat_near n :
  in_range n -> near (parseFloat n) (n * U) D eps.
Proof.
  intros Hn. unfold parseFloat, in_range in *.
  replace eps with (2 ^ (1098 - 54)) by reflexivity.
  apply round_ratio_near; [reflexivity|lia|].
  assert (HK : limit * U < 2 ^ 1098 * D) by reflexivity.
  pose proof U_pos. rewrite Z.abs_mul, (Z.abs_eq U) by lia.
  generalize dependent (2 ^ 1098). intros. nia.
Qed.

(** The sum of two doubles near [a] and [b] is near [a + b]. *)
Lemma add_near x y a b :
  in_range a -> in_range b ->
  near x (a * U) D eps -> near y (b * U) D eps ->
  near (add x y) ((a + b) * U) D (4 * eps).
Proof.
  intros Ha Hb (v1 & -> & H1) (v2 & -> & H2). unfold in_range in *. simpl.
  assert (HK : 2 * (limit * U + eps * D) < 2 ^ 1099 * D) by reflexivity.
  assert (HE : 2 ^ (1099 - 54) = 2 * eps) by reflexivity.
  pose proof U_pos. pose proof eps_pos. pose proof D_val as HD.
  assert (Hv : Z.abs (v1 + v2) < 2 ^ 1099 * 1).
  { generalize dependent (2 ^ 1099). intros. nia. }
  destruct (round_ratio_near (v1 + v2) 1 1099 ltac:(lia) ltac:(lia) Hv)
    as (w & -> & Hw).
  rewrite HE in Hw. exists w. split; [done|].
  clear HK Hv HE. rewrite HD in *. lia.
Qed.

Lemma neg_near y b E :
  near y (b * U) D E -> near (neg y) (- b * U) D E.
Proof. intros (v & -> & H). exists (- v). split; [done|]. lia. Qed.

Lemma sub_near x y a b :
  in_range a -> in_range b ->
  near x (a * U) D eps -> near y (b * U) D eps ->
  near (sub x y) ((a - b) * U) D (4 * eps).
Proof.
  intros Ha Hb Hx Hy. unfold sub.
  replace (a - b) with (a + - b) by lia.
  apply add_near; [done| |done|by apply neg_near].
  unfold in_range in *. lia.
Qed.

(** A double within half a decimal unit of [N / 10^8] prints as [N]. *)
Lemma toFixed8_near x N :
  Z.abs N <= 2 * limit -> near x (N * U) D (4 * eps) ->
  toFixed8 x = Some N.
Proof.
  intros HN (w & -> & Hw). unfold toFixed8.
  pose proof U_pos. pose proof eps_pos. pose proof eps_small.
  pose proof limit_val as HL. pose proof D_val as HD.
  assert (HT : 10 ^ 21 = 1000000000000000000000) by reflexivity.
  rewrite HT. destruct (Z.leb_spec (1000000000000000000000 * U) (Z.abs w)); [nia|].
  f_equal.
  destruct (Z.lt_trichotomy N 0) as [Hn|[->|Hp]].
  - assert (w < 0) by nia.
    rewrite Z.sgn_neg, Z.abs_neq by lia.
    rewrite <- (Z.div_unique (2 * - w * D + U) (2 * U) (- N)
               (2 * - w * D + U - 2 * U * - N)); [lia|left; nia|lia].
  - rewrite (Z.div_small (2 * Z.abs w * D + U) (2 * U)) by nia. lia.
  - assert (0 < w) by nia.
    rewrite Z.sgn_pos, Z.abs_eq by lia.
    rewrite <- (Z.div_unique (2 * w * D + U) (2 * U) N
               (2 * w * D + U - 2 * U * N)); [lia|left; nia|lia].
Qed.

(** Deposits and credits: [(parseFloat(b) + parseFloat(x)).toFixed(8)]. *)
Lemma add_exact a b :
  in_range a -> in_range b ->
  toFixed8 (add (parseFloat a) (parseFloat b)) = Some (a + b).
Proof.
  intros Ha Hb. apply toFixed8_near.
  - unfold in_range in *. lia.
  - apply add_near; auto using parseFloat_near.
Qed.

(** Debits: [(parseFloat(b) - parseFloat(x)).toFixed(8)]. *)
Lemma sub_exact a b :
  in_range a -> in_range b ->
  toFixed8 (sub (parseFloat a) (parseFloat b)) = Some (a - b).
Proof.
  intros Ha Hb. apply toFixed8_near.
  - unfold in_range in *. lia.
  - apply sub_near; auto using parseFloat_near.
Qed.

(** [parseFloat] is strictly monotone on the range. *)
Lemma lt_parseFloat a b :
  in_range a -> in_range b ->
  lt (parseFloat a) (parseFloat b) = (a <? b).
Proof.
  intros Ha Hb.
  destruct (Z.eq_dec a b) as [->|Hne].
  { rewrite Z.ltb_irrefl. destruct (parseFloat_near b Hb) as (v & -> & _).
    simpl. apply Z.ltb_irrefl. }
  destruct (parseFloat_near a Ha) as (v1 & -> & H1).
  destruct (parseFloat_near b Hb) as (v2 & -> & H2). simpl.
  pose proof U_pos. pose proof eps_pos. pose proof eps_small. pose proof D_val.
  destruct (Z.ltb_spec a b), (Z.ltb_spec v1 v2); try done; nia.
Qed.

(** The guard [newBalance < 0] of a debit. *)
Lemma lt_sub_zero a b :
  in_range a -> in_range b ->
  lt (sub (parseFloat a) (parseFloat b)) zero = (a <? b).
Proof.
  intros Ha Hb.
  destruct (Z.eq_dec a b) as [->|Hne].
  { rewrite Z.ltb_irrefl. destruct (parseFloat_near b Hb) as (v & -> & _).
    unfold sub. simpl. rewrite Z.add_opp_diag_r. reflexivity. }
  destruct (sub_near _ _ a b Ha Hb (parseFloat_near a Ha) (parseFloat_near b Hb))
    as (w & -> & Hw). simpl.
  pose proof U_pos. pose proof eps_pos. pose proof eps_small. pose proof D_val.
  destruct (Z.ltb_spec a b), (Z.ltb_spec w 0); try done; nia.
Qed.

End JsFacts.

(** ** The storage methods in the exact range *)

Module StorageFacts.
Import Js JsFacts Schema Storage Ledger.

Lemma numeric_in_range n : Z.abs n <= 2 * limit -> numeric_18_8 n = Ok n.
Proof.
  intros H. unfold numeric_18_8.
  assert (2 * limit < 10 ^ 18) by reflexivity.
  destruct (Z.ltb_spec (Z.abs n) (10 ^ 18)); [done|lia].
Qed.

Lemma numeric_add a b :
  in_range a -> in_range b ->
  numeric_of_text (toFixed8 (add (parseFloat a) (parseFloat b))) = Ok (a + b).
Proof.
  intros Ha Hb. rewrite add_exact by done. simpl.
  apply numeric_in_range. unfold in_range in *. lia.
Qed.

Lemma numeric_sub a b :
  in_range a -> in_range b ->
  numeric_of_text (toFixed8 (sub (parseFloat a) (parseFloat b))) = Ok (a - b).
Proof.
  intros Ha Hb. rewrite sub_exact by done. simpl.
  apply numeric_in_range. unfold in_range in *. lia.
Qed.

Lemma toFixed8_parseFloat a : in_range a -> toFixed8 (parseFloat a) = Some a.
Proof.
  intros Ha. apply toFixed8_near.
  - unfold in_range in *. pose proof limit_val. lia.
  - destruct (parseFloat_near a Ha) as (v & -> & Hv).
    exists v. split; [done|]. pose proof eps_pos. pose proof D_val. nia.
Qed.

Lemma numeric_id a :
  in_range a -> numeric_of_text (toFixed8 (parseFloat a)) = Ok a.
Proof.
  intros Ha. rewrite toFixed8_parseFloat by done. simpl.
  apply numeric_in_range. unfold in_range in *. pose proof limit_val. lia.
Qed.

Lemma ltb_sub_zero a b : (a - b <? 0) = (a <? b).
Proof. destruct (Z.ltb_spec (a - b) 0), (Z.ltb_spec a b); lia. Qed.

Local Opaque parseFloat add sub lt toFixed8.

(** In the range, an update of an existing account is the fixed-point
    update. *)
Lemma update_existing d now data existing :
  poolBalances d !! pu_accountHash data = Some existing ->
  in_range (pb_balance existing) -> in_range (pb_totalDeposited existing) ->
  in_range (pb_totalSpent existing) -> in_range (pu_amount data) ->
  createOrUpdatePoolBalance d now data =
    match fixed_update existing now (pu_amount data) (pu_type data) with
    | Ok row => (Ok row, set_poolBalances (insert (pu_accountHash data) row) d)
    | Throw e => (Throw e, d)
    end.
Proof.
  intros Hex Hb Hd Hs Ha.
  unfold createOrUpdatePoolBalance, transaction, fixed_update. rewrite Hex.
  destruct (pu_type data) eqn:Ht; simpl;
    rewrite ?lt_sub_zero by done;
    rewrite ?numeric_add, ?numeric_sub, ?numeric_id by done; simpl;
    rewrite ?numeric_add, ?numeric_sub, ?numeric_id by done; simpl.
  all: try reflexivity.
  all: rewrite (ltb_sub_zero (pb_balance existing));
    destruct (pb_balance existing <? pu_amount data); simpl; [reflexivity|];
    rewrite ?numeric_add, ?numeric_sub, ?numeric_id by done; simpl;
    rewrite ?numeric_add, ?numeric_sub, ?numeric_id by done; simpl;
    rewrite ?numeric_add, ?numeric_sub, ?numeric_id by done; reflexivity.
Qed.

(** A new account is created with the amount as given. *)
Lemma update_new d now data :
  poolBalances d !! pu_accountHash data = None ->
  in_range (pu_amount data) ->
  createOrUpdatePoolBalance d now data =
    if bool_decide (pu_type data = deposit ∨ pu_type data = nft_sale)
    then (Ok (fixed_create now data),
          set_poolBalances (insert (pu_accountHash data) (fixed_create now data)) d)
    else (Throw (Error "Cannot withdraw or spend without existing balance"), d).
Proof.
  intros Hex Ha.
  unfold createOrUpdatePoolBalance, transaction, fixed_create. rewrite Hex.
  assert (Hz : numeric_18_8 0 = Ok 0) by reflexivity.
  destruct (pu_type data) eqn:Ht; simpl; rewrite ?Ht; simpl;
    rewrite ?numeric_in_range by (unfold in_range in *; pose proof limit_val; lia);
    simpl; rewrite ?Hz; reflexivity.
Qed.


(** In the range, [atomicPoolBuy] either refuses or commits these rows. *)
Lemma buy_in_range d now params buyer :
  poolBalances d !! buy_buyerAccountHash params = Some buyer ->
  in_range (pb_balance buyer) -> in_range (pb_totalSpent buyer) ->
  in_range (buy_price params) ->
  (∀ es, poolBalances d !! buy_encryptedSeller params = Some es -> in_range (pb_balance es)) ->
  atomicPoolBuy d now params =
    if pb_balance buyer <? buy_price params
    then (Throw (InsufficientPool (Some (pb_balance buyer)) (Some (buy_price params))), d)
    else
      match nfts d !! buy_nftId params with
      | None => (Throw (DbError "23503"), d)
      | Some _ =>
          let debited := fixed_debit buyer now (buy_price params) in
          let pools1 := <[buy_buyerAccountHash params := debited]> (poolBalances d) in
          let credited :=
            match poolBalances d !! buy_encryptedSeller params with
            | Some es =>
                let row := default es (pools1 !! buy_encryptedSeller params) in
                with_amounts row now (pb_balance es + buy_price params)
                             (pb_totalDeposited row) (pb_totalSpent row)
            | None => fixed_credit None now (buy_encryptedSeller params) (buy_price params)
            end in
          (Ok (trade_of params, debited, credited),
           deactivateListing
             (updateNftOwner
                (set_trades (λ ts, ts ++ [trade_of params])
                   (set_poolTransactions (λ ts, ts ++ purchase_rows params)
                      (set_poolBalances
                         (λ _, <[buy_encryptedSeller params := credited]> pools1) d)))
                (buy_nftId params) (buy_encryptedBuyer params))
             (buy_listingId params))
      end.
Proof.
  intros Hbuyer Hb Hs Hp Hseller.
  unfold atomicPoolBuy, transaction. rewrite Hbuyer.
  rewrite lt_parseFloat, !toFixed8_parseFloat by done.
  destruct (Z.ltb_spec (pb_balance buyer) (buy_price params)); [reflexivity|].
  rewrite numeric_sub, numeric_add by done. simpl.
  assert (Hnum : numeric_18_8 (buy_price params) = Ok (buy_price params)).
  { apply numeric_in_range. unfold in_range in *. pose proof limit_val. lia. }
  destruct (poolBalances d !! buy_encryptedSeller params) as [es|] eqn:Hes; simpl.
  - rewrite numeric_add by eauto. simpl.
    unfold insertPoolTransaction, references_nft, set_poolBalances,
      set_poolTransactions, set_trades, purchase_rows. simpl.
    destruct (nfts d !! buy_nftId params) eqn:Hn; simpl; [|reflexivity].
    repeat (progress (simpl; rewrite ?Hn, ?Hnum)).
    rewrite <- !app_assoc. reflexivity.
  - rewrite Hnum. simpl.
    unfold insertPoolTransaction, references_nft, set_poolBalances,
      set_poolTransactions, set_trades, purchase_rows. simpl.
    destruct (nfts d !! buy_nftId params) eqn:Hn; simpl; [|reflexivity].
    repeat (progress (simpl; rewrite ?Hn, ?Hnum)).
    rewrite <- !app_assoc. reflexivity.
Qed.
End StorageFacts.

(** ** Sequences of ledger calls *)

Module LedgerFacts.
Import Js JsFacts Schema Storage Ledger StorageFacts.















(** *** Deposits, spending, proceeds and withdrawals *)








(** *** Deposits *)

Lemma deposit_step d now h owner amount existing :
  poolBalances d !! h = Some existing ->
  in_range (pb_balance existing) -> in_range (pb_totalDeposited existing) ->
  in_range (pb_totalSpent existing) -> in_range amount ->
  createOrUpdatePoolBalance d now (deposit_of h owner amount) =
    (Ok (with_amounts existing now (pb_balance existing + amount)
           (pb_totalDeposited existing + amount) (pb_totalSpent existing)),
     set_poolBalances
       (insert h (with_amounts existing now (pb_balance existing + amount)
                    (pb_totalDeposited existing + amount) (pb_totalSpent existing))) d).
Proof.
  intros Hex Hb Hd Hs Ha.
  by rewrite (update_existing d now (deposit_of h owner amount) existing).
Qed.

Lemma deposit_n_exact n : ∀ d now h owner amount existing,
  poolBalances d !! h = Some existing ->
  0 <= amount ->
  0 <= pb_balance existing -> pb_balance existing + Z.of_nat n * amount <= limit ->
  0 <= pb_totalDeposited existing ->
  pb_totalDeposited existing + Z.of_nat n * amount <= limit ->
  in_range (pb_totalSpent existing) ->
  ∃ row, poolBalances (deposit_n n now h owner amount d) !! h = Some row
         ∧ pb_balance row = pb_balance existing + Z.of_nat n * amount
         ∧ pb_totalDeposited row = pb_totalDeposited existing + Z.of_nat n * amount
         ∧ pb_totalSpent row = pb_totalSpent existing.
Proof.
  induction n as [|n IH]; intros d now h owner amount existing Hex Ha Hb HbL Hd HdL Hs.
  - exists existing. simpl. repeat split; [done|lia..].
  - destruct (IH d now h owner amount existing Hex Ha Hb ltac:(nia) Hd ltac:(nia) Hs)
      as (row & Hrow & Hrb & Hrd & Hrs).
    unfold deposit_n in *. rewrite Nat.iter_succ.
    fold (deposit_of h owner amount) in *.
    rewrite (deposit_step _ now h owner amount row Hrow)
      by (unfold in_range in *; nia).
    simpl. rewrite lookup_insert_eq. eexists. split; [done|]. simpl. lia.
Qed.

(** C9, amended.  For an account whose balance, total deposited and
    total spent are at most ten million currency units in magnitude, a
    deposit of an amount in that range succeeds and leaves exactly
    [balance + amount]; and 10,000 deposits of 0.00000001 onto such an
    account (non-negative, with room for 0.0001 below the bound) raise the
    balance by exactly 0.0001. *)
Theorem deposit_exact (d : Database) (now : Z) (h owner : string) (amount : Z)
    (existing : PoolBalance) :
  poolBalances d !! h = Some existing ->
  in_range (pb_balance existing) -> in_range (pb_totalDeposited existing) ->
  in_range (pb_totalSpent existing) -> in_range amount ->
  let r := createOrUpdatePoolBalance d now
             {| pu_accountHash := h; pu_encryptedOwner := owner;
                pu_amount := amount; pu_type := deposit |} in
  (∃ row, r.1 = Ok row ∧ pb_balance row = pb_balance existing + amount)
  ∧ balance_of r.2 h = Some (pb_balance existing + amount)
  ∧ (0 <= pb_balance existing -> pb_balance existing + 10000 <= limit ->
     0 <= pb_totalDeposited existing -> pb_totalDeposited existing + 10000 <= limit ->
     balance_of (deposit_n (Z.to_nat 10000) now h owner 1 d) h
     = Some (pb_balance existing + 10000)).
Proof.
  intros Hex Hb Hd Hs Ha r. subst r.
  pose proof (deposit_step d now h owner amount existing Hex Hb Hd Hs Ha) as Hstep.
  unfold deposit_of in Hstep. split; [|split].
  - rewrite Hstep. eexists. split; [done|]. done.
  - rewrite Hstep. unfold balance_of. simpl. by rewrite lookup_insert_eq.
  - clear Hstep. intros Hb0 HbL Hd0 HdL.
    assert (Hn : Z.of_nat (Z.to_nat 10000) = 10000) by (apply Z2Nat.id; lia).
    generalize dependent (Z.to_nat 10000). intros n Hn.
    destruct (deposit_n_exact n d now h owner 1 existing Hex ltac:(lia) Hb0
                ltac:(lia) Hd0 ltac:(lia) Hs) as (row & Hrow & Hrb & _).
    unfold balance_of. rewrite Hrow. simpl. f_equal. lia.
Qed.

(** *** Settlement *)

(** C1, amended.  When the buyer's account exists with a balance of at
    least the price, buyer and seller are different accounts, the NFT
    exists, and the price, the buyer's balance and total spent and the
    seller's balance are at most ten million currency units in
    magnitude, [atomicPoolBuy] succeeds: the buyer's balance decreases by
    exactly the price, the seller's balance (zero for a new account)
    increases by exactly the price, one trade for the NFT at that price
    is appended, and no listing with the given id is left active. *)
Theorem atomicPoolBuy_settles (d : Database) (now : Z) (params : PoolBuy)
    (buyer : PoolBalance) :
  poolBalances d !! buy_buyerAccountHash params = Some buyer ->
  is_Some (nfts d !! buy_nftId params) ->
  buy_buyerAccountHash params ≠ buy_encryptedSeller params ->
  in_range (pb_balance buyer) -> in_range (pb_totalSpent buyer) ->
  in_range (buy_price params) ->
  (∀ es, poolBalances d !! buy_encryptedSeller params = Some es -> in_range (pb_balance es)) ->
  buy_price params <= pb_balance buyer ->
  ∃ trade bb sb d',
    atomicPoolBuy d now params = (Ok (trade, bb, sb), d')
    ∧ balance_of d' (buy_buyerAccountHash params) = Some (pb_balance buyer - buy_price params)
    ∧ balance_of d' (buy_encryptedSeller params)
      = Some (default 0 (balance_of d (buy_encryptedSeller params)) + buy_price params)
    ∧ trades d' = trades d ++ [trade]
    ∧ trade_nftId trade = buy_nftId params
    ∧ trade_price trade = buy_price params
    ∧ Forall (λ l, listing_id l = buy_listingId params -> listing_isActive l = false)
             (listings d')
    ∧ d' = fixed_buy d now params buyer.
Proof.
  intros Hbuyer [nft Hnft] Hne Hb Hs Hp Hseller Hle.
  rewrite (buy_in_range d now params buyer Hbuyer Hb Hs Hp Hseller).
  destruct (Z.ltb_spec (pb_balance buyer) (buy_price params)); [lia|].
  rewrite Hnft. simpl.
  rewrite (lookup_insert_ne _ _ _ _ Hne).
  do 4 eexists. split; [reflexivity|].
  unfold balance_of, deactivateListing, updateNftOwner, set_listings, set_nfts,
    set_trades, set_poolTransactions, set_poolBalances. simpl.
  rewrite lookup_insert_eq, lookup_insert_ne, lookup_insert_eq by done. simpl.
  repeat split.
  - destruct (poolBalances d !! buy_encryptedSeller params); done.
  - apply List.Forall_map, Forall_forall. intros l _ Hid.
    unfold deactivate in *. case_bool_decide; done.
  - unfold fixed_buy, deactivateListing, updateNftOwner, set_listings, set_nfts,
      set_trades, set_poolTransactions, set_poolBalances, fixed_credit. simpl.
    destruct (poolBalances d !! buy_encryptedSeller params); done.
Qed.

End LedgerFacts.

(** ** The claims about the pool ledger at sample inputs *)

Module LedgerSamples.
Import Js Schema Storage Ledger Samples LedgerFacts.

Ltac in_range_by_computation := unfold in_range; vm_compute; discriminate.

(** C9 as stated fails: a deposit of 0.00000001 onto a balance of
    90,000,000.00000001 leaves 90,000,000.00000003. *)
Lemma deposit_drift :
  balance_of large_pool alice = Some 9000000000000001
  ∧ balance_of (createOrUpdatePoolBalance large_pool 1 (update alice 1 deposit)).2 alice
    = Some 9000000000000003
  ∧ 9000000000000003 ≠ 9000000000000001 + 1.
Proof. split; [|split]; [vm_compute; reflexivity..|lia]. Qed.

Lemma deposit_exact_witness :
  poolBalances small_pool !! alice = Some (account 50000000 50000000 0)
  ∧ in_range 50000000 ∧ in_range 0 ∧ in_range 1
  ∧ balance_of (createOrUpdatePoolBalance small_pool 1 (update alice 1 deposit)).2 alice
    = Some (50000000 + 1).
Proof.
  assert (H1 : poolBalances small_pool !! alice = Some (account 50000000 50000000 0))
    by reflexivity.
  assert (H2 : in_range 50000000) by in_range_by_computation.
  assert (H3 : in_range 0) by in_range_by_computation.
  assert (H4 : in_range 1) by in_range_by_computation.
  refine (conj H1 (conj H2 (conj H3 (conj H4 _)))).
  exact (proj1 (proj2 (deposit_exact small_pool 1 alice "enc" 1
                         (account 50000000 50000000 0) H1 H2 H2 H3 H4))).
Defined.

(** C1 as stated fails twice.  With a balance of 90,000,000.00000001 and
    a price of 0.00000002 the buyer is left with 90,000,000.00000000, not
    89,999,999.99999999.  And when the seller's account is the buyer's,
    the balance goes from 1.0 to 1.3 at a price of 0.3. *)
Lemma settlement_not_exact :
  (∃ r, atomicPoolBuy large_pool 1 (purchase alice bob 2) = (Ok r.1, r.2)
        ∧ balance_of r.2 alice = Some 9000000000000000
        ∧ 9000000000000000 ≠ 9000000000000001 - 2)
  ∧ (∃ r, atomicPoolBuy (market {[alice := account 100000000 100000000 0]} [listing1 30000000])
            1 (purchase alice alice 30000000) = (Ok r.1, r.2)
          ∧ balance_of r.2 alice = Some 130000000
          ∧ 130000000 ≠ 100000000 - 30000000).
Proof.
  split.
  - eexists (_, _). split; [vm_compute; reflexivity|]. split; [vm_compute; reflexivity|lia].
  - eexists (_, _). split; [vm_compute; reflexivity|]. split; [vm_compute; reflexivity|lia].
Qed.

Lemma atomicPoolBuy_settles_witness :
  poolBalances small_pool !! alice = Some (account 50000000 50000000 0)
  ∧ is_Some (nfts small_pool !! "n1")
  ∧ alice ≠ bob
  ∧ 20000000 <= 50000000
  ∧ ∃ trade bb sb d',
      atomicPoolBuy small_pool 1 (purchase alice bob 20000000) = (Ok (trade, bb, sb), d')
      ∧ balance_of d' alice = Some (50000000 - 20000000)
      ∧ balance_of d' bob = Some (default 0 (balance_of small_pool bob) + 20000000)
      ∧ trades d' = trades small_pool ++ [trade]
      ∧ trade_nftId trade = "n1"
      ∧ trade_price trade = 20000000
      ∧ Forall (λ l, listing_id l = "L1" -> listing_isActive l = false) (listings d')
      ∧ d' = fixed_buy small_pool 1 (purchase alice bob 20000000) (account 50000000 50000000 0).
Proof.
  assert (H1 : poolBalances small_pool !! alice = Some (account 50000000 50000000 0))
    by reflexivity.
  assert (H2 : is_Some (nfts small_pool !! "n1")) by (eexists; reflexivity).
  assert (H3 : alice ≠ bob) by discriminate.
  assert (H4 : 20000000 <= 50000000) by lia.
  refine (conj H1 (conj H2 (conj H3 (conj H4 _)))).
  apply (atomicPoolBuy_settles small_pool 1 (purchase alice bob 20000000)
           (account 50000000 50000000 0) H1 H2 H3).
  - in_range_by_computation.
  - in_range_by_computation.
  - in_range_by_computation.
  - intros es Hes. vm_compute in Hes. discriminate Hes.
  - exact H4.
Defined.





End LedgerSamples.

(** ** Listings *)

Module ListingFacts.
Import Schema Storage.

Lemma find_active d nftId l :
  getListingByNftId d nftId = Some l ->
  l ∈ listings d ∧ listing_nftId l = nftId ∧ listing_isActive l = true.
Proof.
  unfold getListingByNftId. intros H. apply List.find_some in H as [Hin Hp].
  apply andb_prop in Hp as [Hn Ha]. apply bool_decide_eq_true in Hn.
  split; [by apply list_elem_of_In|done].
Qed.

Lemma deactivate_id listingId l :
  listing_id (deactivate listingId l) = listing_id l.
Proof. unfold deactivate. by case_bool_decide. Qed.

Lemma deactivated listingId l :
  listing_id l = listingId -> listing_isActive (deactivate listingId l) = false.
Proof. intros H. unfold deactivate. by rewrite bool_decide_eq_true_2. Qed.


(** C7, amended.  For an asset that has an Active listing, [createListing]
    for that asset does not fail: with the NFT in place, a fresh row id
    and a price inside the range of the column (zero and negative prices
    included), it deactivates the existing listing and appends the new
    one, which carries the price as given. *)
Theorem createListing_replaces (d : Database) (newId : string) (ins : InsertListing)
    (existing : Listing) :
  getListingByNftId d (il_nftId ins) = Some existing ->
  is_Some (nfts d !! il_nftId ins) ->
  Z.abs (il_price ins) < 10 ^ 18 ->
  newId ∉ map listing_id (listings d) ->
  ∃ l,
    createListing d newId ins
      = (Ok l, set_listings (λ ls, ls ++ [l]) (deactivateListing d (listing_id existing)))
    ∧ listing_id l = newId
    ∧ listing_nftId l = il_nftId ins
    ∧ listing_price l = il_price ins
    ∧ listing_isActive l = default true (il_isActive ins)
    ∧ listing_isActive existing = true
    ∧ Forall (λ l', listing_id l' = listing_id existing -> listing_isActive l' = false)
             (listings (createListing d newId ins).2).
Proof.
  intros Hex [nft Hnft] Hprice Hfresh.
  destruct (find_active _ _ _ Hex) as (Hin & Hn & Hact).
  unfold createListing. rewrite Hex.
  unfold references_nft, numeric_18_8. simpl. rewrite Hnft. simpl.
  destruct (Z.ltb_spec (Z.abs (il_price ins)) (10 ^ 18)) as [_|]; [|lia]. simpl.
  rewrite List.map_map.
  rewrite (List.map_ext _ listing_id (deactivate_id _)).
  case_bool_decide; [done|].
  eexists. split; [reflexivity|]. simpl. repeat split; try done.
  apply Forall_app. split.
  - apply List.Forall_map, Forall_forall. intros l _ Hid.
    rewrite deactivate_id in Hid. by apply deactivated.
  - apply Forall_singleton. simpl. intros Hid. exfalso. apply Hfresh.
    rewrite Hid. apply list_elem_of_In, List.in_map, list_elem_of_In, Hin.
Qed.

End ListingFacts.

(** ** Routes *)

Module RouteFacts.
Import Schema Storage Signing Relayer Routes ListingFacts.

#[local] Arguments contractAddressOf : simpl never.

Ltac handler_steps :=
  unfold run, mbind, handler_bind, bind, require, reject_if, respond, pure,
    get_db, put_db, step, checkListingOnChain, with_db, with_log, with_nonces.

(** The on-chain check only reads. *)
Lemma checkOnChainListingStatus_reads w log addr tokenId :
  filter (λ c, is_write c = true) (checkOnChainListingStatus w log addr tokenId).2
  = filter (λ c, is_write c = true) log.
Proof.
  unfold checkOnChainListingStatus.
  destruct (getRelayerWallet w); [done|].
  destruct (contract_isListed w (length log) addr tokenId) as [?|[]]; simpl;
    [by rewrite filter_app, app_nil_r| |by rewrite filter_app, app_nil_r].
  destruct (contract_listingPrices _ _ _ _); simpl;
    by rewrite !filter_app, !app_nil_r.
Qed.

Lemma apiBuy_succeeds w req st nft listing :
  buyable w req st nft listing ->
  ∃ st',
    run (apiBuy w req) st
      = ({| status := 200; body := Purchased (listing_price listing) |}, st')
    ∧ trades (db st')
      = trades (db st) ++ [{| trade_nftId := br_nftId req;
                              trade_encryptedBuyer := br_encryptedBuyer req;
                              trade_encryptedSeller := listing_encryptedSeller listing;
                              trade_price := listing_price listing |}]
    ∧ nft_encryptedOwner <$> nfts (db st') !! br_nftId req = Some (br_encryptedBuyer req)
    ∧ Forall (λ l, listing_id l = br_listingId req -> listing_isActive l = false)
             (listings (db st'))
    ∧ poolBalances (db st') = poolBalances (db st)
    ∧ poolTransactions (db st') = poolTransactions (db st)
    ∧ nonces st' = nonces st
    ∧ filter (λ c, is_write c = true) (chainLog st')
      = filter (λ c, is_write c = true) (chainLog st).
Proof.
  intros (Hnft & Hlisting & Hid & Hchain & Howner & Hprice).
  destruct (find_active _ _ _ Hlisting) as (Hin & Hn & Hact).
  unfold apiBuy. handler_steps. simpl. rewrite Hnft, Hlisting. simpl.
  rewrite Hact. simpl. rewrite bool_decide_eq_false_2 by (intros H; by apply H).
  simpl.
  assert (Htrade : createTrade (db st)
                     {| trade_nftId := br_nftId req;
                        trade_encryptedBuyer := br_encryptedBuyer req;
                        trade_encryptedSeller := listing_encryptedSeller listing;
                        trade_price := listing_price listing |}
    = (Ok {| trade_nftId := br_nftId req;
             trade_encryptedBuyer := br_encryptedBuyer req;
             trade_encryptedSeller := listing_encryptedSeller listing;
             trade_price := listing_price listing |},
       set_trades (λ ts, ts ++ [{| trade_nftId := br_nftId req;
             trade_encryptedBuyer := br_encryptedBuyer req;
             trade_encryptedSeller := listing_encryptedSeller listing;
             trade_price := listing_price listing |}]) (db st))).
  { unfold createTrade, references_nft, numeric_18_8, getNftById in *.
    simpl. rewrite Hnft. simpl.
    destruct (Z.ltb_spec (Z.abs (listing_price listing)) (10 ^ 18)); [done|lia]. }
  assert (Hdeact : ∀ ls, Forall (λ l, listing_id l = br_listingId req -> listing_isActive l = false)
                    (map (deactivate (br_listingId req)) ls)).
  { intros ls. apply List.Forall_map, Forall_forall. intros l _ Hl.
    rewrite deactivate_id in Hl. by apply deactivated. }
  destruct (contractAddressOf (db st) nft) as [addr|] eqn:Haddr; simpl.
  - pose proof (checkOnChainListingStatus_reads w (chainLog st) addr (nft_tokenId nft)) as Hlog.
    destruct (checkOnChainListingStatus w (chainLog st) addr (nft_tokenId nft))
      as [onChain log]. simpl in *. rewrite Hchain. simpl.
    rewrite bool_decide_eq_false_2 by done. simpl.
    rewrite Htrade. simpl.
    eexists. split; [reflexivity|]. simpl.
    unfold getNftById in Hnft. rewrite lookup_alter_eq, Hnft. simpl.
    repeat split; try done; apply Hdeact.
  - rewrite bool_decide_eq_false_2 by done. simpl.
    rewrite Htrade. simpl.
    eexists. split; [reflexivity|]. simpl.
    unfold getNftById in Hnft. rewrite lookup_alter_eq, Hnft. simpl.
    repeat split; try done; apply Hdeact.
Qed.

Lemma apiBuy_200 w req st :
  status (run (apiBuy w req) st).1 = 200 -> ∃ nft listing, buyable w req st nft listing.
Proof.
  unfold buyable, apiBuy. handler_steps. simpl.
  destruct (getNftById (db st) (br_nftId req)) as [nft|] eqn:Hnft; simpl; [|done].
  destruct (getListingByNftId (db st) (br_nftId req)) as [listing|] eqn:Hlisting;
    simpl; [|done].
  destruct (listing_isActive listing); simpl; [|done].
  case_bool_decide as Hid; simpl; [done|].
  assert (listing_id listing = br_listingId req)
    by (by destruct (decide (listing_id listing = br_listingId req))).
  unfold getNftById in Hnft.
  destruct (contractAddressOf (db st) nft) as [addr|] eqn:Haddr; simpl;
    [destruct (checkOnChainListingStatus w (chainLog st) addr (nft_tokenId nft))
       as [onChain log] eqn:Hc; simpl;
     destruct (isListed onChain) eqn:Hl; simpl; [|done]|];
    (case_bool_decide as Hown; simpl; [done|];
     unfold createTrade, references_nft, numeric_18_8; simpl; rewrite Hnft; simpl;
     destruct (Z.ltb_spec (Z.abs (listing_price listing)) (10 ^ 18)); simpl; [|done];
     intros _; exists nft, listing; rewrite ?Haddr, ?Hc; simpl; repeat split; done).
Qed.

(** C10.  A request to [POST /api/buy] succeeds (status 200) exactly when
    the NFT exists, its active listing is the one named by id, the ledger
    (when the collection has a contract address) reports the token as
    listed, the buyer is not the owner and the listing's price is in the
    range of the column.  Then a trade from the listing's seller to the
    buyer at the listing's price is appended, the ownership pointer of
    the NFT is the buyer, no listing with that id is left active, every
    pool balance and the pool history are unchanged, the nonce maps are
    unchanged (the handler has no access to a signature check), and no
    write reaches the ledger. *)
Theorem apiBuy_effects (w : World) (req : BuyRequest) (st : ServerState) :
  (status (run (apiBuy w req) st).1 = 200 ↔ ∃ nft listing, buyable w req st nft listing)
  ∧ ∀ nft listing, buyable w req st nft listing ->
      ∃ st',
        run (apiBuy w req) st
          = ({| status := 200; body := Purchased (listing_price listing) |}, st')
        ∧ trades (db st')
          = trades (db st) ++ [{| trade_nftId := br_nftId req;
                                  trade_encryptedBuyer := br_encryptedBuyer req;
                                  trade_encryptedSeller := listing_encryptedSeller listing;
                                  trade_price := listing_price listing |}]
        ∧ nft_encryptedOwner <$> nfts (db st') !! br_nftId req = Some (br_encryptedBuyer req)
        ∧ Forall (λ l, listing_id l = br_listingId req -> listing_isActive l = false)
                 (listings (db st'))
        ∧ poolBalances (db st') = poolBalances (db st)
        ∧ poolTransactions (db st') = poolTransactions (db st)
        ∧ nonces st' = nonces st
        ∧ filter (λ c, is_write c = true) (chainLog st')
          = filter (λ c, is_write c = true) (chainLog st).
Proof.
  split; [split|].
  - apply apiBuy_200.
  - intros (nft & listing & Hb).
    destruct (apiBuy_succeeds w req st nft listing Hb) as (st' & -> & _). done.
  - apply apiBuy_succeeds.
Qed.

(** *** Nonces *)

Lemma verify_cases c now ns sr h r ns' :
  verifySignedRequest c now ns sr h = (r, ns') ->
  (valid r = false ∧ ns' = ns ∧ ¬ reaches_nonce_check c now sr h
   ∧ (vr_error r = Some "Signer address does not match account hash"
      ∨ vr_error r = Some "Invalid signature"
      ∨ vr_error r = Some "Request expired"))
  ∨ (reaches_nonce_check c now sr h
     ∧ ((valid r = false ∧ vr_error r = Some "Replay attack detected: nonce already used"
         ∧ consumed ns (toLowerCase (sr_signer sr)) (pretty (sd_nonce (sr_data sr)))
         ∧ ∀ s n, consumed ns s n ↔ consumed ns' s n)
        ∨ (valid r = true
           ∧ ¬ consumed ns (toLowerCase (sr_signer sr)) (pretty (sd_nonce (sr_data sr)))
           ∧ consumed ns' (toLowerCase (sr_signer sr)) (pretty (sd_nonce (sr_data sr)))
           ∧ ∀ s n, consumed ns s n → consumed ns' s n))).
Proof.
  unfold verifySignedRequest, reaches_nonce_check.
  case_bool_decide as Hh.
  { intros [= <- <-]. left. repeat split; auto. intros (? & _). done. }
  destruct (verifySignature c now sr (sr_signer sr)) eqn:Hsig; simpl.
  2:{ intros [= <- <-]. left. repeat split; auto. intros (_ & ? & _). done. }
  destruct (negb (sd_expiresAt (sr_data sr) =? 0) && (1000 * sd_expiresAt (sr_data sr) <? now))
    eqn:Hexp.
  { intros [= <- <-]. left. repeat split; auto. intros (_ & _ & ?). done. }
  set (s := toLowerCase (sr_signer sr)). set (n := pretty (sd_nonce (sr_data sr))).
  destruct (usedNonces ns !! s) as [set|] eqn:Hset; simpl.
  - rewrite Hset. simpl. case_bool_decide as Hin; intros [= <- <-]; right;
      (split; [done|]).
    + left. split; [done|]. split; [done|]. split; [by exists set|].
      intros s' n'. unfold consumed. simpl. done.
    + right. split; [done|]. split.
      { intros (set' & Hs' & Hn'). congruence. }
      split.
      { exists ({[n]} ∪ set). simpl. rewrite lookup_insert_eq. split; [done|set_solver]. }
      intros s' n' (set' & Hs' & Hn'). unfold consumed. simpl.
      destruct (decide (s = s')) as [<-|Hne].
      * rewrite lookup_insert_eq. eexists. split; [done|].
        assert (set' = set) as -> by congruence. set_solver.
      * rewrite lookup_insert_ne by done. eauto.
  - rewrite lookup_insert_eq. simpl.
    rewrite bool_decide_eq_false_2 by set_solver.
    intros [= <- <-]. right. split; [done|]. right. split; [done|]. split.
    { intros (set' & Hs' & Hn'). congruence. }
    split.
    { exists ({[n]} ∪ ∅). simpl. rewrite lookup_insert_eq. split; [done|set_solver]. }
    intros s' n' (set' & Hs' & Hn'). unfold consumed. simpl.
    destruct (decide (s = s')) as [<-|Hne]; [congruence|].
    rewrite !lookup_insert_ne by done. eauto.
Qed.


Lemma verify_consumed c now ns sr h :
  consumed ns (toLowerCase (sr_signer sr)) (pretty (sd_nonce (sr_data sr))) ->
  valid (verifySignedRequest c now ns sr h).1 = false
  ∧ (reaches_nonce_check c now sr h ->
     vr_error (verifySignedRequest c now ns sr h).1
     = Some "Replay attack detected: nonce already used").
Proof.
  intros Hc. destruct (verifySignedRequest c now ns sr h) as [r ns'] eqn:Hv.
  destruct (verify_cases _ _ _ _ _ _ _ Hv)
    as [(Hr & -> & Hnot & _)|(Hreach & [(Hr & He & _)|(_ & Hn & _)])]; simpl; done.
Qed.




(** *** Expired requests *)





(** *** The stages of a private purchase *)

Lemma authorize_frame c w now req st :
  db (privateBuyAuthorize c w now req st).2 = db st
  ∧ chainLog (privateBuyAuthorize c w now req st).2 = chainLog st.
Proof.
  unfold privateBuyAuthorize. handler_steps.
  destruct (isRelayerConfigured w); simpl; [|done].
  destruct (isServerFhevmConfigured w); simpl; [|done].
  destruct (privateBuySchema req); simpl; [|done].
  destruct (verifySignedRequest _ _ _ _ _) as [v ns].
  destruct (valid v); done.
Qed.


Lemma reconcile_proceeds w req st x st' :
  privateBuyReconcile w req st = (inr x, st') ->
  db st' = db st ∧ nonces st' = nonces st.
Proof.
  unfold privateBuyReconcile. handler_steps. simpl.
  destruct (getNftById (db st) (pr_nftId req)) as [nft|]; simpl; [|done].
  destruct (contractAddressOf (db st) nft) as [addr|]; simpl; [|done].
  destruct (getListingByNftId (db st) (pr_nftId req)) as [listing|]; simpl; [|done].
  destruct (listing_isActive listing); simpl; [|done].
  destruct (checkOnChainListingStatus w (chainLog st) addr (nft_tokenId nft)) as [onChain log].
  simpl. destruct (isListed onChain); simpl; [|done].
  by intros [= <- <-].
Qed.

Lemma funds_frame w req nft addr listing st :
  db (privateBuyFunds w req nft addr listing st).2 = db st
  ∧ nonces (privateBuyFunds w req nft addr listing st).2 = nonces st.
Proof.
  unfold privateBuyFunds. handler_steps. simpl.
  case_bool_decide; simpl; [done|].
  destruct (getPoolBalance (db st) (pr_accountHash req)) as [pb|]; simpl; [|done].
  destruct (Js.lt _ _); simpl; [done|].
  destruct (fhevm_encrypt w _ _ _); done.
Qed.

Lemma validate_proceeds c w now req st x st' :
  privateBuyValidate c w now req st = (inr x, st') -> db st' = db st.
Proof.
  unfold privateBuyValidate. unfold mbind, handler_bind, bind.
  pose proof (authorize_frame c w now req st) as [Ha _].
  destruct (privateBuyAuthorize c w now req st) as [[r|[]] st1]; [done|]. simpl in Ha.
  destruct (privateBuyReconcile w req st1) as [[r|[[nft addr] listing]] st2] eqn:Hrec; [done|].
  apply reconcile_proceeds in Hrec as [Hr _].
  pose proof (funds_frame w req nft addr listing st2) as [Hf _].
  destruct (privateBuyFunds w req nft addr listing st2) as [[r|enc] st3]; [done|].
  simpl in *. unfold pure. intros [= <- <-]. congruence.
Qed.

(** C4.  When a private purchase has passed validation and the relayer's
    purchase on the ledger fails, the request ends with status 500 and
    the relayer's error (or "Private buy failed"), and the database is
    the one the request started with: pool balances, trades, ownership
    pointers and listings are unchanged. *)
Theorem chain_failure_leaves_database (c : Crypto) (w : World) (now : Z)
    (req : PrivateBuyRequest) (st st3 : ServerState)
    (nft : Nft) (addr : string) (listing : Listing) (enc : string * string) :
  privateBuyValidate c w now req st = (inr (nft, addr, listing, enc), st3) ->
  success (buyNFTViaRelayer w (chainLog st3) (relayerBuyRequest nft addr listing enc)).1
    = false ->
  ∃ st',
    run (apiBuyPrivate c w now req) st
      = ({| status := 500;
            body := ErrorBody
                      (or_string
                         (rb_error (buyNFTViaRelayer w (chainLog st3)
                                      (relayerBuyRequest nft addr listing enc)).1)
                         "Private buy failed") |}, st')
    ∧ db st' = db st
    ∧ poolBalances (db st') = poolBalances (db st)
    ∧ trades (db st') = trades (db st)
    ∧ nfts (db st') = nfts (db st)
    ∧ listings (db st') = listings (db st).
Proof.
  intros Hval Hfail.
  pose proof (validate_proceeds _ _ _ _ _ _ _ Hval) as Hdb.
  unfold apiBuyPrivate, run. unfold mbind, handler_bind, bind. rewrite Hval.
  unfold privateBuySubmit, step.
  destruct (buyNFTViaRelayer w (chainLog st3) (relayerBuyRequest nft addr listing enc))
    as [result log]. simpl in *. rewrite Hfail. simpl.
  eexists. split; [reflexivity|]. simpl. rewrite Hdb. done.
Qed.



End RouteFacts.

(** ** The claims about listings and routes at sample inputs *)

Module RouteSamples.
Import Schema Storage Signing Relayer Routes Samples ListingFacts RouteFacts.

(** C7 as stated fails: listing an asset that has an Active listing
    succeeds, at price zero, and the earlier listing is deactivated. *)
Lemma second_listing_accepted :
  getListingByNftId small_pool "n1" = Some (listing1 20000000)
  ∧ createListing small_pool "L2"
      {| il_nftId := "n1"; il_encryptedSeller := bob; il_price := 0; il_isActive := None |}
    = (Ok {| listing_id := "L2"; listing_nftId := "n1"; listing_encryptedSeller := bob;
             listing_price := 0; listing_isActive := true |},
       market {[alice := account 50000000 50000000 0]}
              [{| listing_id := "L1"; listing_nftId := "n1"; listing_encryptedSeller := bob;
                  listing_price := 20000000; listing_isActive := false |};
               {| listing_id := "L2"; listing_nftId := "n1"; listing_encryptedSeller := bob;
                  listing_price := 0; listing_isActive := true |}]).
Proof. split; vm_compute; reflexivity. Qed.

Lemma createListing_replaces_witness :
  getListingByNftId small_pool "n1" = Some (listing1 20000000)
  ∧ is_Some (nfts small_pool !! "n1")
  ∧ Z.abs (-5) < 10 ^ 18
  ∧ ("L2" ∉ map listing_id (listings small_pool))
  ∧ ∃ l,
      createListing small_pool "L2"
        {| il_nftId := "n1"; il_encryptedSeller := bob; il_price := -5; il_isActive := None |}
      = (Ok l, set_listings (λ ls, ls ++ [l]) (deactivateListing small_pool "L1"))
      ∧ listing_id l = "L2"
      ∧ listing_nftId l = "n1"
      ∧ listing_price l = -5
      ∧ listing_isActive l = true
      ∧ listing_isActive (listing1 20000000) = true
      ∧ Forall (λ l', listing_id l' = "L1" -> listing_isActive l' = false)
               (listings (createListing small_pool "L2"
                  {| il_nftId := "n1"; il_encryptedSeller := bob; il_price := -5;
                     il_isActive := None |}).2).
Proof.
  assert (H1 : getListingByNftId small_pool "n1" = Some (listing1 20000000)) by reflexivity.
  assert (H2 : is_Some (nfts small_pool !! "n1")) by (eexists; reflexivity).
  assert (H3 : Z.abs (-5) < 10 ^ 18) by reflexivity.
  assert (H4 : "L2" ∉ map listing_id (listings small_pool)).
  { simpl. intros H. apply list_elem_of_singleton in H. discriminate H. }
  refine (conj H1 (conj H2 (conj H3 (conj H4 _)))).
  exact (createListing_replaces small_pool "L2"
           {| il_nftId := "n1"; il_encryptedSeller := bob; il_price := -5; il_isActive := None |}
           (listing1 20000000) H1 H2 H3 H4).
Defined.


(** The sweep forgets a nonce ten minutes after its use: an order that
    expires later than that is accepted a second time. *)
Example nonce_reusable_after_sweep :
  let '(first, ns) := verifySignedRequest toy_crypto 999000 no_nonces (order 1 10000) carol_hash in
  valid first = true
  ∧ valid (verifySignedRequest toy_crypto 1600000 ns (order 1 10000) carol_hash).1 = false
  ∧ valid (verifySignedRequest toy_crypto 1600000 (sweep 1600000 ns) (order 1 10000)
             carol_hash).1 = true.
Proof. vm_compute. repeat split. Qed.




(** The state in which the sample purchase has passed validation. *)
Lemma sample_validated (buys : bool) :
  privateBuyValidate toy_crypto (chain true buys) 999000 (private_buy 1 1000) shop
  = (inr (nft1, "0xc011ec7", listing1 20000000, ("0xhandle", "0xproof")),
     (privateBuyValidate toy_crypto (chain true buys) 999000 (private_buy 1 1000) shop).2).
Proof. destruct buys; vm_compute; reflexivity. Qed.

Lemma chain_failure_leaves_database_witness :
  ∃ st3,
    privateBuyValidate toy_crypto (chain true false) 999000 (private_buy 1 1000) shop
    = (inr (nft1, "0xc011ec7", listing1 20000000, ("0xhandle", "0xproof")), st3)
    ∧ success (buyNFTViaRelayer (chain true false) (chainLog st3)
                 (relayerBuyRequest nft1 "0xc011ec7" (listing1 20000000)
                    ("0xhandle", "0xproof"))).1 = false
    ∧ ∃ st',
        run (apiBuyPrivate toy_crypto (chain true false) 999000 (private_buy 1 1000)) shop
        = ({| status := 500;
              body := ErrorBody
                        (or_string
                           (rb_error (buyNFTViaRelayer (chain true false) (chainLog st3)
                                        (relayerBuyRequest nft1 "0xc011ec7" (listing1 20000000)
                                           ("0xhandle", "0xproof"))).1)
                           "Private buy failed") |}, st')
        ∧ db st' = db shop
        ∧ poolBalances (db st') = poolBalances (db shop)
        ∧ trades (db st') = trades (db shop)
        ∧ nfts (db st') = nfts (db shop)
        ∧ listings (db st') = listings (db shop).
Proof.
  pose proof (sample_validated false) as H1.
  eexists. refine (conj H1 _).
  assert (H2 : success (buyNFTViaRelayer (chain true false)
                 (chainLog (privateBuyValidate toy_crypto (chain true false) 999000
                              (private_buy 1 1000) shop).2)
                 (relayerBuyRequest nft1 "0xc011ec7" (listing1 20000000)
                    ("0xhandle", "0xproof"))).1 = false) by (vm_compute; reflexivity).
  refine (conj H2 _).
  exact (chain_failure_leaves_database toy_crypto (chain true false) 999000
           (private_buy 1 1000) shop _ nft1 "0xc011ec7" (listing1 20000000)
           ("0xhandle", "0xproof") H1 H2).
Defined.


(** The sample purchase through [POST /api/buy] is one that succeeds. *)
Lemma sample_buyable : buyable (chain true true) public_buy shop nft1 (listing1 20000000).
Proof.
  repeat split; try (vm_compute; reflexivity); discriminate.
Qed.

End RouteSamples.

Module PoolFacts.
Import Js Schema Storage Ledger JsFacts StorageFacts Samples MoreSamples.

Ltac within_limit := unfold in_range; vm_compute; discriminate.

(** X1.  A settlement whose NFT row is missing is rolled back whole.
    With the buyer's balance sufficient and all amounts within ten
    million, [atomicPoolBuy] for an NFT that has no row throws the
    foreign key violation of the history insert, and the debit of the
    buyer and the credit of the seller that its body had already written
    are dropped: the database is the one it was called on. *)
Theorem settlement_rolls_back (d : Database) (now : Z) (params : PoolBuy)
    (buyer : PoolBalance) :
  poolBalances d !! buy_buyerAccountHash params = Some buyer ->
  in_range (pb_balance buyer) -> in_range (pb_totalSpent buyer) ->
  in_range (buy_price params) ->
  (∀ es, poolBalances d !! buy_encryptedSeller params = Some es -> in_range (pb_balance es)) ->
  buy_price params <= pb_balance buyer ->
  nfts d !! buy_nftId params = None ->
  atomicPoolBuy d now params = (Throw (DbError "23503"), d).
Proof.
  intros Hb Hr1 Hr2 Hr3 Hes Hle Hnft.
  rewrite (buy_in_range d now params buyer Hb Hr1 Hr2 Hr3 Hes).
  destruct (Z.ltb_spec (pb_balance buyer) (buy_price params)); [lia|].
  by rewrite Hnft.
Qed.

Lemma settlement_rolls_back_witness :
  atomicPoolBuy small_pool 1 lost_nft = (Throw (DbError "23503"), small_pool).
Proof.
  apply (settlement_rolls_back small_pool 1 lost_nft (account 50000000 50000000 0)).
  - reflexivity.
  - within_limit.
  - within_limit.
  - within_limit.
  - intros es Hes. vm_compute in Hes. discriminate Hes.
  - vm_compute. discriminate.
  - reflexivity.
Defined.

(** X2.  The first operation on an account.  For an account hash that
    has no row and an amount within ten million, a [deposit] creates the
    account with the amount as balance and as [totalDeposited], an
    [nft_sale] creates it with the amount as balance and nothing
    deposited, both with [totalSpent] zero and the owner of the request;
    a [withdraw], [mint_payment] or [nft_purchase] throws "Cannot
    withdraw or spend without existing balance" and writes nothing. *)
Theorem first_operation_on_account (d : Database) (now : Z) (data : PoolUpdate) :
  poolBalances d !! pu_accountHash data = None ->
  in_range (pu_amount data) ->
  match pu_type data with
  | deposit =>
      ∃ row, createOrUpdatePoolBalance d now data
             = (Ok row, set_poolBalances (insert (pu_accountHash data) row) d)
           ∧ pb_balance row = pu_amount data
           ∧ pb_totalDeposited row = pu_amount data
           ∧ pb_totalSpent row = 0
           ∧ pb_encryptedOwner row = pu_encryptedOwner data
  | nft_sale =>
      ∃ row, createOrUpdatePoolBalance d now data
             = (Ok row, set_poolBalances (insert (pu_accountHash data) row) d)
           ∧ pb_balance row = pu_amount data
           ∧ pb_totalDeposited row = 0
           ∧ pb_totalSpent row = 0
           ∧ pb_encryptedOwner row = pu_encryptedOwner data
  | withdraw | mint_payment | nft_purchase =>
      createOrUpdatePoolBalance d now data
      = (Throw (Error "Cannot withdraw or spend without existing balance"), d)
  end.
Proof.
  intros Hnone Ha. rewrite (update_new d now data Hnone Ha).
  unfold fixed_create.
  destruct (pu_type data) eqn:Ht;
    repeat (case_bool_decide; try (exfalso; intuition congruence));
    try reflexivity; eexists; (split; [reflexivity|]); simpl; rewrite ?Ht;
    repeat (case_bool_decide; try (exfalso; intuition congruence)); done.
Qed.

Lemma first_operation_on_account_witness :
  createOrUpdatePoolBalance small_pool 1 (update bob 30000000 withdraw)
  = (Throw (Error "Cannot withdraw or spend without existing balance"), small_pool).
Proof.
  apply (first_operation_on_account small_pool 1 (update bob 30000000 withdraw)).
  - reflexivity.
  - within_limit.
Defined.



End PoolFacts.

(** ** The money in the pool *)

Module TotalsFacts.
Import Js Schema Storage Ledger Totals JsFacts StorageFacts LedgerFacts Samples.




End TotalsFacts.

(** ** The listing registry *)

Module RegistryFacts.
Import Schema Storage Registry ListingFacts Samples.

Lemma deactivate_nftId listingId l :
  listing_nftId (deactivate listingId l) = listing_nftId l.
Proof. unfold deactivate. by case_bool_decide. Qed.

Lemma deactivate_active listingId l :
  listing_isActive (deactivate listingId l) = true ->
  listing_isActive l = true ∧ listing_id l ≠ listingId.
Proof. unfold deactivate. case_bool_decide; simpl; [done|]. intros ->. done. Qed.

Lemma deactivateListing_single_active d listingId :
  single_active d -> single_active (deactivateListing d listingId).
Proof.
  intros H i j l1 l2 H1 H2 Hn Ha1 Ha2. simpl in H1, H2.
  change (map (deactivate listingId) (listings d)) with
    (deactivate listingId <$> listings d) in H1, H2.
  rewrite list_lookup_fmap in H1, H2.
  destruct (listings d !! i) as [o1|] eqn:E1; [|done].
  destruct (listings d !! j) as [o2|] eqn:E2; [|done].
  simpl in H1, H2. injection H1 as <-. injection H2 as <-.
  rewrite !deactivate_nftId in Hn.
  apply deactivate_active in Ha1 as [Ha1 _]. apply deactivate_active in Ha2 as [Ha2 _].
  by apply (H i j o1 o2).
Qed.

Lemma find_none_unlisted d nftId :
  getListingByNftId d nftId = None -> unlisted d nftId.
Proof.
  unfold getListingByNftId. intros H l Hin Hn.
  apply list_elem_of_In in Hin.
  pose proof (List.find_none _ _ H l Hin) as Hp. simpl in Hp.
  rewrite bool_decide_eq_true_2 in Hp by done. simpl in Hp. done.
Qed.

Lemma unlisted_find_none d nftId :
  unlisted d nftId -> getListingByNftId d nftId = None.
Proof.
  unfold getListingByNftId. intros H.
  destruct (List.find _ _) as [l|] eqn:E; [|done].
  apply List.find_some in E as [Hin Hp]. apply andb_prop in Hp as [Hn Ha].
  apply bool_decide_eq_true in Hn. apply list_elem_of_In in Hin.
  rewrite (H l Hin Hn) in Ha. done.
Qed.

(** Deactivating the listing that the lookup returns leaves the NFT
    without an active listing. *)
Lemma deactivate_found_unlisted d nftId l :
  single_active d -> getListingByNftId d nftId = Some l ->
  unlisted (deactivateListing d (listing_id l)) nftId.
Proof.
  intros Hs Hf l' Hin Hn.
  destruct (find_active _ _ _ Hf) as (Hl & Hln & Hla).
  simpl in Hin. apply list_elem_of_In, List.in_map_iff in Hin as (o & <- & Ho).
  apply list_elem_of_In in Ho.
  rewrite deactivate_nftId in Hn.
  destruct (listing_isActive (deactivate (listing_id l) o)) eqn:Ha; [|done].
  apply deactivate_active in Ha as [Ha Hid].
  apply list_elem_of_lookup in Ho as [i Hi]. apply list_elem_of_lookup in Hl as [j Hj].
  assert (i = j) by (apply (Hs i j o l); congruence). subst j.
  congruence.
Qed.

Lemma find_last (p : Listing → bool) ls l :
  (∀ x, x ∈ ls -> p x = false) ->
  List.find p (ls ++ [l]) = if p l then Some l else None.
Proof.
  induction ls as [|a ls IH]; intros H; simpl; [done|].
  rewrite (H a) by left. apply IH. intros x Hx. apply H. by right.
Qed.

Lemma createListing_registry d newId ins :
  single_active d ->
  single_active (createListing d newId ins).2
  ∧ ∀ l, (createListing d newId ins).1 = Ok l ->
         getListingByNftId (createListing d newId ins).2 (il_nftId ins)
         = if listing_isActive l then Some l else None.
Proof.
  intros Hs. unfold createListing.
  set (db1 := match getListingByNftId d (il_nftId ins) with
              | Some l => deactivateListing d (listing_id l)
              | None => d
              end).
  assert (Hs1 : single_active db1).
  { subst db1. destruct (getListingByNftId d (il_nftId ins)); [|done].
    by apply deactivateListing_single_active. }
  assert (Hu : unlisted db1 (il_nftId ins)).
  { subst db1. destruct (getListingByNftId d (il_nftId ins)) eqn:E.
    - by apply deactivate_found_unlisted.
    - by apply find_none_unlisted. }
  clearbody db1.
  destruct (references_nft db1 (il_nftId ins)) as [[]|e]; simpl; [|by split].
  destruct (numeric_18_8 (il_price ins)) as [price|e]; simpl; [|by split].
  case_bool_decide as Hid; simpl; [by split|].
  set (l := {| listing_id := newId |}).
  split.
  - intros i j l1 l2 H1 H2 Hn Ha1 Ha2.
    apply lookup_app_Some in H1, H2.
    destruct H1 as [H1|[Hi H1]], H2 as [H2|[Hj H2]].
    + by apply (Hs1 i j l1 l2).
    + apply list_lookup_singleton_Some in H2 as [Hj' <-].
      exfalso. apply list_elem_of_lookup_2 in H1.
      rewrite (Hu l1 H1) in Ha1; [done|]. by rewrite Hn.
    + apply list_lookup_singleton_Some in H1 as [Hi' <-].
      exfalso. apply list_elem_of_lookup_2 in H2.
      rewrite (Hu l2 H2) in Ha2; [done|]. by rewrite <- Hn.
    + apply list_lookup_singleton_Some in H1 as [Hi' _].
      apply list_lookup_singleton_Some in H2 as [Hj' _]. lia.
  - intros l' [= <-]. unfold getListingByNftId. simpl.
    rewrite find_last.
    + simpl. rewrite bool_decide_eq_true_2 by done. done.
    + intros x Hx. destruct (bool_decide_reflect (listing_nftId x = il_nftId ins)) as [E|]; [|done].
      simpl. by apply Hu.
Qed.

(** X4.  [createListing] keeps the registry at one active listing per
    NFT, whether the insert goes through or not; and the listing it
    returns is then the one that [getListingByNftId] finds for the NFT
    (none, when it was inserted inactive). *)
Theorem createListing_single_active (d : Database) (newId : string)
    (ins : InsertListing) :
  single_active d ->
  single_active (createListing d newId ins).2
  ∧ ∀ l, (createListing d newId ins).1 = Ok l ->
         getListingByNftId (createListing d newId ins).2 (il_nftId ins)
         = if listing_isActive l then Some l else None.
Proof. apply createListing_registry. Qed.

Lemma createListing_single_active_witness :
  getListingByNftId
    (createListing (market ∅ [listing1 20000000]) "L2"
       {| il_nftId := "n1"; il_encryptedSeller := bob; il_price := 30000000;
          il_isActive := None |}).2 "n1"
  = Some {| listing_id := "L2"; listing_nftId := "n1"; listing_encryptedSeller := bob;
            listing_price := 30000000; listing_isActive := true |}.
Proof.
  assert (Hs : single_active (market ∅ [listing1 20000000])).
  { intros [|i] [|j] l1 l2 H1 H2; simpl in *; try done. }
  exact (proj2 (createListing_single_active (market ∅ [listing1 20000000]) "L2"
                  {| il_nftId := "n1"; il_encryptedSeller := bob; il_price := 30000000;
                     il_isActive := None |} Hs) _ eq_refl).
Defined.

End RegistryFacts.

(** ** The relayer *)

Module RelayerFacts.
Import Relayer.

Lemma or_string_nonempty a b : b ≠ "" -> or_string a b ≠ "".
Proof. destruct a as [[|c s]|]; simpl; done. Qed.

Lemma or_string_some s b : s ≠ "" -> or_string (Some s) b = s.
Proof. destruct s; done. Qed.

Lemma caught_error e :
  success (caught e) = false ∧ txHash (caught e) = None
  ∧ ∃ m, rb_error (caught e) = Some m ∧ m ≠ "".
Proof.
  repeat split. eexists. split; [reflexivity|].
  apply or_string_nonempty, or_string_nonempty. done.
Qed.

Lemma filter_write_reads log reads :
  Forall (λ c, is_write c = false) reads ->
  filter (λ c, is_write c = true) (log ++ reads) = filter (λ c, is_write c = true) log.
Proof.
  intros H. rewrite filter_app.
  assert (Hnil : filter (λ c, is_write c = true) reads = []).
  { induction H as [|c reads Hc _ IH]; [done|].
    rewrite filter_cons_False by (rewrite Hc; done). exact IH. }
  by rewrite Hnil, app_nil_r.
Qed.

(** X5.  What [buyNFTViaRelayer] returns and sends.  A success carries the
    transaction hash and no error, after one [isListed] read and one
    [buyNFT] write whose value is the price in wei.  A failure carries no
    hash and an error text that is never empty, so that the fallback text
    of the routes ([result.error || ...]) is never used.  And unless the
    [isListed] read answers [true], nothing is written to the ledger. *)
Theorem buyNFTViaRelayer_outcome (w : World) (log : list ChainCall)
    (request : RelayerBuyRequest) :
  let r := (buyNFTViaRelayer w log request).1 in
  let log' := (buyNFTViaRelayer w log request).2 in
  let addr := rb_collectionAddress request in
  let tokenId := rb_tokenId request in
  (success r = true ->
   ∃ hash, txHash r = Some hash ∧ rb_error r = None
     ∧ log' = log ++ [CallIsListed addr tokenId;
                      CallBuyNFT addr tokenId (rb_encryptedBuyer request)
                        (rb_inputProof request) (rb_price request * 10 ^ 10)])
  ∧ (success r = false ->
     txHash r = None
     ∧ ∃ m, rb_error r = Some m ∧ m ≠ "" ∧ ∀ fallback, or_string (rb_error r) fallback = m)
  ∧ (configured w = false ∨ contract_isListed w (length log) addr tokenId ≠ inr true ->
     filter (λ c, is_write c = true) log' = filter (λ c, is_write c = true) log).
Proof.
  assert (Hcaught : ∀ e,
    txHash (caught e) = None
    ∧ ∃ m, rb_error (caught e) = Some m ∧ m ≠ ""
           ∧ ∀ fallback, or_string (rb_error (caught e)) fallback = m).
  { intros e. destruct (caught_error e) as (_ & _ & m & Hm & Hne).
    split; [done|]. exists m. split; [done|]. split; [done|].
    intros fb. rewrite Hm. by apply or_string_some. }
  intros r log' addr tokenId. subst r log' addr tokenId.
  unfold buyNFTViaRelayer, getRelayerWallet.
  destruct (configured w); cbn [fst snd].
  2: { split; [done|]. split; [intros _; apply Hcaught|done]. }
  destruct (contract_isListed w (length log) _ _) as [e|[|]] eqn:Hl; cbn [fst snd].
  - split; [done|]. split; [intros _; apply Hcaught|].
    intros _. by apply (filter_write_reads log [_]); repeat constructor.
  - destruct (contract_buyNFT w _ _ _ _ _ _) as [e|hash]; cbn [fst snd].
    + split; [done|]. split; [intros _; apply Hcaught|by intros [|]].
    + split; [|split; [done|by intros [|]]].
      intros _. exists hash. repeat split. by rewrite <- app_assoc.
  - split; [done|]. split.
    + intros _. split; [done|]. eexists. split; [reflexivity|]. split; [done|]. done.
    + intros _. by apply (filter_write_reads log [_]); repeat constructor.
Qed.

(** X6.  [checkOnChainListingStatus] never throws and only reads.  It
    reports the token as listed exactly when the relayer is configured,
    the [isListed] read answers [true] and the [listingPrices] read that
    follows answers; it then carries that price.  In every other case,
    a failed read included, it reports "not listed" without a price. *)
Theorem checkOnChainListingStatus_outcome (w : World) (log : list ChainCall)
    (collectionAddress : string) (tokenId : Z) :
  let status := (checkOnChainListingStatus w log collectionAddress tokenId).1 in
  let log' := (checkOnChainListingStatus w log collectionAddress tokenId).2 in
  (isListed status = true ↔
   configured w = true
   ∧ contract_isListed w (length log) collectionAddress tokenId = inr true
   ∧ ∃ priceWei,
       contract_listingPrices w (S (length log)) collectionAddress tokenId = inr priceWei
       ∧ ocl_price status = Some priceWei)
  ∧ (isListed status = false -> ocl_price status = None)
  ∧ (∃ reads, log' = log ++ reads ∧ (length reads <= 2)%nat
              ∧ Forall (λ c, is_write c = false) reads)
  ∧ (configured w = false -> log' = log).
Proof.
  unfold checkOnChainListingStatus, getRelayerWallet.
  destruct (configured w); simpl.
  2: { split; [split; [done|intros (? & _); done]|]. split; [done|].
       split; [|done]. exists []. rewrite app_nil_r. repeat split; [simpl; lia|done]. }
  destruct (contract_isListed w (length log) _ _) as [e|[|]] eqn:Hl; simpl.
  - split; [split; [done|intros (_ & ? & _); done]|]. split; [done|].
    split; [|done]. eexists [_]. repeat split; [simpl; lia|repeat constructor].
  - rewrite length_app, Nat.add_1_r. simpl.
    destruct (contract_listingPrices w _ _ _) as [e|p] eqn:Hp; simpl.
    + split; [split; [done|intros (_ & _ & ? & ? & _); done]|]. split; [done|].
      split; [|done]. eexists [_; _]. rewrite <- app_assoc.
      repeat split; [simpl; lia|repeat constructor].
    + split; [split; [intros _; repeat split; by exists p|done]|]. split; [done|].
      split; [|done]. eexists [_; _]. rewrite <- app_assoc.
      repeat split; [simpl; lia|repeat constructor].
  - split; [split; [done|intros (_ & ? & _); done]|]. split; [done|].
    split; [|done]. eexists [_]. repeat split; [simpl; lia|repeat constructor].
Qed.

End RelayerFacts.

(** ** Authorization *)

Module AuthFacts.
Import Schema Signing Routes Client NonceKeys RouteFacts Samples MoreSamples.

Lemma verify_accepts c now ns sr h :
  valid (verifySignedRequest c now ns sr h).1 = true ↔
    keccak256 c (toLowerCase (sr_signer sr)) = h
    ∧ (∃ typeName recovered,
         getTypeName (sd_action (sr_data sr)) = Some typeName
         ∧ verifyTypedData c typeName (sr_data sr) (sr_signature sr) = Some recovered
         ∧ toLowerCase recovered = toLowerCase (sr_signer sr))
    ∧ now / 1000 <= sd_expiresAt (sr_data sr)
    ∧ (sd_expiresAt (sr_data sr) = 0 ∨ now <= 1000 * sd_expiresAt (sr_data sr))
    ∧ ¬ consumed ns (toLowerCase (sr_signer sr)) (pretty (sd_nonce (sr_data sr))).
Proof.
  unfold verifySignedRequest, verifySignature, isSignatureExpired.
  case_bool_decide as Hh; simpl.
  { split; [done|]. intros (? & _). done. }
  rewrite bool_decide_eq_false_2 by (intros ?; done).
  destruct (Z.ltb_spec (sd_expiresAt (sr_data sr)) (now / 1000)) as [He|He]; simpl.
  { split; [done|]. intros (_ & _ & ? & _). lia. }
  destruct (getTypeName (sd_action (sr_data sr))) as [tn|] eqn:Htn; simpl.
  2: { split; [done|]. intros (_ & (? & ? & ? & _) & _). done. }
  destruct (verifyTypedData c tn (sr_data sr) (sr_signature sr)) as [rec|] eqn:Hv; simpl.
  2: { split; [done|]. intros (_ & (? & ? & [= <-] & ? & _) & _). congruence. }
  case_bool_decide as Hrec; simpl.
  2: { split; [done|]. intros (_ & (? & ? & [= <-] & ? & ?) & _). congruence. }
  destruct (Z.eqb_spec (sd_expiresAt (sr_data sr)) 0) as [E0|E0]; simpl;
    [|destruct (Z.ltb_spec (1000 * sd_expiresAt (sr_data sr)) now) as [Hx|Hx]; simpl].
  2: { split; [done|]. intros (_ & _ & _ & [?|?] & _); [done|lia]. }
  all: destruct (usedNonces ns !! toLowerCase (sr_signer sr)) as [set|] eqn:Hs;
    rewrite ?lookup_insert_eq, ?Hs; simpl;
    (case_bool_decide as Hin; simpl;
     [split; [done|]; intros (_ & _ & _ & _ & Hc); exfalso; apply Hc;
        first [by exists set | set_solver]
     |split; [|done]; intros _; split; [done|]; split; [by eauto|]; split; [done|];
        split; [by auto|]; intros (set' & Hs' & Hin'); congruence]).
Qed.

(** X7.  [verifySignedRequest] accepts a request exactly when the hash of
    the signer's lower-cased address is the expected account hash, the
    action has a type, the signature recovers to the signer (compared in
    lower case), the clock has not passed [expiresAt] (to the second for
    [verifySignature], to the millisecond for the check that follows,
    which is skipped at [expiresAt = 0]), and the nonce has not been
    consumed for the signer. *)
Theorem verifySignedRequest_accepts (c : Crypto) (now : Z) (ns : NonceStore)
    (sr : SignedRequest) (h : string) :
  valid (verifySignedRequest c now ns sr h).1 = true ↔
    keccak256 c (toLowerCase (sr_signer sr)) = h
    ∧ (∃ typeName recovered,
         getTypeName (sd_action (sr_data sr)) = Some typeName
         ∧ verifyTypedData c typeName (sr_data sr) (sr_signature sr) = Some recovered
         ∧ toLowerCase recovered = toLowerCase (sr_signer sr))
    ∧ now / 1000 <= sd_expiresAt (sr_data sr)
    ∧ (sd_expiresAt (sr_data sr) = 0 ∨ now <= 1000 * sd_expiresAt (sr_data sr))
    ∧ ¬ consumed ns (toLowerCase (sr_signer sr)) (pretty (sd_nonce (sr_data sr))).
Proof. apply verify_accepts. Qed.

(** A request consumes its own nonce and nothing else. *)
Lemma verify_only_own c now ns sr h s n :
  consumed (verifySignedRequest c now ns sr h).2 s n ->
  consumed ns s n
  ∨ (s = toLowerCase (sr_signer sr) ∧ n = pretty (sd_nonce (sr_data sr))).
Proof.
  unfold verifySignedRequest.
  case_bool_decide; simpl; [by left|].
  destruct (verifySignature _ _ _ _); simpl; [|by left].
  destruct (_ && _); simpl; [by left|].
  set (signerLower := toLowerCase (sr_signer sr)).
  set (nonce := pretty (sd_nonce (sr_data sr))).
  set (used := match usedNonces ns !! signerLower with
               | Some _ => usedNonces ns
               | None => <[signerLower := ∅]> (usedNonces ns)
               end).
  assert (Hused : ∀ s' set, used !! s' = Some set -> ∀ n', n' ∈ set -> consumed ns s' n').
  { subst used. intros s' set Hs' n' Hn'.
    destruct (usedNonces ns !! signerLower) eqn:E; [by exists set|].
    destruct (decide (s' = signerLower)) as [->|Hne].
    - rewrite lookup_insert_eq in Hs'. injection Hs' as <-. set_solver.
    - rewrite lookup_insert_ne in Hs' by done. by exists set. }
  case_bool_decide; simpl.
  - intros (set & Hs & Hn). left. by apply (Hused s set).
  - intros (set & Hs & Hn). simpl in Hs.
    destruct (decide (s = signerLower)) as [->|Hne].
    + rewrite lookup_insert_eq in Hs. injection Hs as <-.
      apply elem_of_union in Hn as [Hn|Hn]; [right; set_solver|].
      left. destruct (used !! signerLower) as [set|] eqn:E; [|set_solver].
      by apply (Hused signerLower set).
    + rewrite lookup_insert_ne in Hs by done. left. by apply (Hused s set).
Qed.

Lemma signIntent_shape wallet now counter intent :
  (signIntent wallet now counter intent).2 = counter + 1
  ∧ ∀ sr, (signIntent wallet now counter intent).1 = Some sr ->
      sr_signer sr = getAddress wallet
      ∧ sd_nonce (sr_data sr) = counter + 1
      ∧ sd_expiresAt (sr_data sr) = now / 1000 + 300
      ∧ ∃ typeName,
          getTypeName (sd_action (sr_data sr)) = Some typeName
          ∧ signTypedData wallet typeName (sr_data sr) = Some (sr_signature sr).
Proof.
  destruct intent; simpl;
    unfold signMintRequest, signListRequest, signUnlistRequest, signBuyRequest,
      signOfferRequest, getNextNonce, getSignatureExpiryTime, signWith; simpl;
    (split; [done|]); intros sr Hsr;
    match type of Hsr with
    | context [signTypedData wallet ?tn ?data] =>
        destruct (signTypedData wallet tn data) as [sig|] eqn:Hsig; [|done];
        simpl in Hsr; injection Hsr as <-; simpl;
        repeat split; exists tn; split; [reflexivity|exact Hsig]
    end.
Qed.

(** X8.  Requests built by the client in one session are never refused:
    with a wallet whose signatures verify, and a server that has consumed
    no nonce of this signer above the session's counter, every intent
    is signed, and every request that reaches the server no later than
    its [expiresAt] (five minutes after the second in which it was built)
    is accepted, in any mix of the five actions. *)
Theorem session_requests_accepted (c : Crypto) (wallet : Wallet) :
  signs_for c wallet ->
  ∀ (items : list (Z * Z * Intent)) (ns : NonceStore) (currentNonce : Z),
    (∀ n, consumed ns (toLowerCase (getAddress wallet)) (pretty n) -> n <= currentNonce) ->
    Forall (λ item, item.1.2 <= 1000 * (item.1.1 / 1000 + 300)) items ->
    length (submissions c wallet currentNonce items) = length items
    ∧ Forall (λ r, valid r = true)
             (authorize_all c ns (submissions c wallet currentNonce items)).
Proof.
  intros Hsigns items.
  induction items as [|[[signedAt submittedAt] intent] items IH];
    intros ns counter Hfresh Hwin; [done|].
  apply Forall_cons in Hwin as [Hw Hwin]. simpl in Hw.
  cbn [submissions].
  destruct (signIntent_shape wallet signedAt counter intent) as [Hcnt Hshape].
  destruct (signIntent wallet signedAt counter intent) as [request counter'] eqn:Hsign.
  simpl in Hcnt, Hshape. subst counter'.
  destruct request as [sr|].
  2: { exfalso. destruct intent; simpl in Hsign;
       unfold signMintRequest, signListRequest, signUnlistRequest, signBuyRequest,
         signOfferRequest, signWith in Hsign;
       match type of Hsign with
       | context [signTypedData wallet ?tn ?data] =>
           destruct (Hsigns tn data) as (sig & ? & Hs & _); rewrite Hs in Hsign
       end; done. }
  destruct (Hshape sr eq_refl) as (Hsigner & Hnonce & Hexp & tn & Htn & Hsig).
  cbn [app authorize_all length].
  destruct (verifySignedRequest c submittedAt ns sr
              (keccak256 c (toLowerCase (getAddress wallet)))) as [r ns'] eqn:Hv.
  assert (Hvalid : valid r = true).
  { change r with (r, ns').1. rewrite <- Hv. apply verify_accepts.
    rewrite Hsigner, Hexp, Hnonce.
    split; [done|]. split.
    - destruct (Hsigns tn (sr_data sr)) as (sig & rec & Hs & Hrec & Hlow).
      exists tn, rec. rewrite Hsig in Hs. injection Hs as <-. done.
    - split; [|split; [right; lia|]].
      + assert (submittedAt / 1000 <= (1000 * (signedAt / 1000 + 300)) / 1000)
          by (apply Z.div_le_mono; lia).
        rewrite Z.mul_comm, Z.div_mul in H by done. lia.
      + intros Hc. apply Hfresh in Hc. lia. }
  destruct (IH ns' (counter + 1)) as [Hlen Hall]; [|done|].
  - intros n Hn. change ns' with (r, ns').2 in Hn. rewrite <- Hv in Hn.
    apply verify_only_own in Hn as [Hn|[_ Hn]].
    + apply Hfresh in Hn. lia.
    + rewrite Hnonce in Hn. apply (inj pretty) in Hn. lia.
  - split; [by rewrite Hlen|]. by constructor.
Qed.

Lemma session_requests_accepted_witness :
  signs_for toy_crypto carol_wallet
  ∧ Forall (λ r, valid r = true)
           (authorize_all toy_crypto no_nonces
              (submissions toy_crypto carol_wallet 7 carol_session)).
Proof.
  assert (H1 : signs_for toy_crypto carol_wallet).
  { intros typeName data. exists carol, carol. done. }
  refine (conj H1 _).
  apply (session_requests_accepted toy_crypto carol_wallet H1 carol_session no_nonces 7).
  - intros n (set & Hs & _). done.
  - repeat constructor; vm_compute; discriminate.
Defined.

End AuthFacts.

(** ** The sweep of the nonce maps *)

Module SweepFacts.
Import Schema Signing Routes NonceKeys RouteFacts AuthFacts Samples.

Lemma split_colon_free s : colon_free s = true -> split_colon s = [s].
Proof.
  induction s as [|c s IH]; simpl; [done|].
  intros H. apply andb_prop in H as [Hc Hs].
  apply negb_true_iff in Hc. rewrite Hc, (IH Hs). done.
Qed.

Lemma split_colon_key signer nonce :
  colon_free signer = true -> colon_free nonce = true ->
  split_colon (nonceKey signer nonce) = [signer; nonce].
Proof.
  intros Hs Hn. change (nonceKey signer nonce) with (signer +:+ String ":" nonce).
  induction signer as [|c s IH]; simpl.
  - by rewrite (split_colon_free nonce Hn).
  - simpl in Hs. apply andb_prop in Hs as [Hc Hs].
    apply negb_true_iff in Hc. rewrite Hc. by rewrite (IH Hs).
Qed.

Lemma lower_ascii_colon c : Ascii.eqb (lower_ascii c) ":" = Ascii.eqb c ":".
Proof. destruct c as [[] [] [] [] [] [] [] []]; reflexivity. Qed.

Lemma toLowerCase_colon_free s : colon_free (toLowerCase s) = colon_free s.
Proof. induction s as [|c s IH]; simpl; [done|]. by rewrite lower_ascii_colon, IH. Qed.

Lemma pretty_N_char_colon x : Ascii.eqb (pretty_N_char x) ":" = false.
Proof. unfold pretty_N_char. by repeat case_match. Qed.

Lemma pretty_N_go_colon_free x : ∀ s,
  colon_free s = true -> colon_free (pretty_N_go x s) = true.
Proof.
  induction (N.lt_wf_0 x) as [x _ IH]; intros s Hs.
  destruct (decide (x = 0%N)) as [->|Hx]; [by rewrite pretty_N_go_0|].
  rewrite pretty_N_go_step by lia. apply IH.
  - apply N.div_lt; lia.
  - simpl. by rewrite pretty_N_char_colon, Hs.
Qed.

Lemma pretty_N_colon_free (x : N) : colon_free (pretty x) = true.
Proof.
  unfold pretty, pretty_N. case_decide; [done|]. by apply pretty_N_go_colon_free.
Qed.

(** [String(nonce)] of an integer has no colon. *)
Lemma pretty_Z_colon_free (x : Z) : colon_free (pretty x) = true.
Proof.
  destruct x as [|p|p]; [done|apply pretty_N_colon_free|].
  unfold pretty, pretty_Z. simpl. apply pretty_N_colon_free.
Qed.

(** The sweep never makes a nonce consumed. *)
Lemma sweep_one_subset ns key s n :
  consumed (sweep_one ns key) s n -> consumed ns s n.
Proof.
  unfold sweep_one, consumed. simpl.
  destruct (split_colon key !! 0%nat) as [signer|]; simpl; [|done].
  destruct (usedNonces ns !! signer) as [set|] eqn:Hset; simpl; [|done].
  set (set' := from_option _ _ _).
  assert (Hsub : set' ⊆ set).
  { subst set'. destruct (split_colon key !! 1%nat); simpl; [|done].
    intros x Hx. by apply elem_of_difference in Hx as [Hx _]. }
  case_bool_decide.
  - intros (x & Hx & Hn). apply lookup_delete_Some in Hx as [_ Hx]. by exists x.
  - intros (x & Hx & Hn). destruct (decide (s = signer)) as [->|Hne].
    + rewrite lookup_insert_eq in Hx. injection Hx as <-. exists set. set_solver.
    + rewrite lookup_insert_ne in Hx by done. by exists x.
Qed.

Lemma sweep_one_wellformed ns signer nonce :
  colon_free signer = true -> colon_free nonce = true ->
  usedNonces (sweep_one ns (nonceKey signer nonce))
  = match usedNonces ns !! signer with
    | Some set =>
        if bool_decide (size (set ∖ {[nonce]}) = 0%nat)
        then delete signer (usedNonces ns)
        else <[signer := set ∖ {[nonce]}]> (usedNonces ns)
    | None => usedNonces ns
    end.
Proof.
  intros Hs Hn. unfold sweep_one. rewrite (split_colon_key _ _ Hs Hn). simpl.
  by destruct (usedNonces ns !! signer).
Qed.

(** Sweeping the record of a nonce forgets the nonce. *)
Lemma sweep_one_removes ns signer nonce :
  colon_free signer = true -> colon_free nonce = true ->
  ¬ consumed (sweep_one ns (nonceKey signer nonce)) signer nonce.
Proof.
  intros Hs Hn (set & Hset & Hin). rewrite (sweep_one_wellformed _ _ _ Hs Hn) in Hset.
  destruct (usedNonces ns !! signer) as [set0|] eqn:E; [|congruence].
  case_bool_decide.
  - by rewrite lookup_delete_eq in Hset.
  - rewrite lookup_insert_eq in Hset. injection Hset as <-.
    apply elem_of_difference in Hin as [_ Hin]. apply Hin. by apply elem_of_singleton.
Qed.

(** Sweeping the record of another nonce keeps this one. *)
Lemma sweep_one_keeps ns signer nonce s n :
  colon_free signer = true -> colon_free nonce = true ->
  (signer, nonce) ≠ (s, n) ->
  consumed ns s n -> consumed (sweep_one ns (nonceKey signer nonce)) s n.
Proof.
  intros Hs Hn Hne (set & Hset & Hin). unfold consumed.
  rewrite (sweep_one_wellformed _ _ _ Hs Hn).
  destruct (decide (signer = s)) as [->|Hsig].
  - rewrite Hset. assert (Hnn : n ≠ nonce) by congruence.
    assert (Hin' : n ∈ set ∖ {[nonce]}).
    { apply elem_of_difference. split; [done|]. intros Hx. by apply elem_of_singleton in Hx. }
    rewrite bool_decide_eq_false_2.
    + exists (set ∖ {[nonce]}). by rewrite lookup_insert_eq.
    + intros Hz. apply size_empty_iff in Hz. rewrite Hz in Hin'.
      by apply not_elem_of_empty in Hin'.
  - destruct (usedNonces ns !! signer) as [set0|]; [|by exists set].
    case_bool_decide.
    + exists set. by rewrite lookup_delete_ne.
    + exists set. by rewrite lookup_insert_ne.
Qed.

Lemma sweep_one_timestamps ns key :
  nonceTimestamps (sweep_one ns key) = delete key (nonceTimestamps ns).
Proof. done. Qed.

Lemma sweep_one_keys_wellformed ns key :
  keys_wellformed ns -> keys_wellformed (sweep_one ns key).
Proof.
  intros H k t Hk. rewrite sweep_one_timestamps in Hk.
  apply lookup_delete_Some in Hk as [_ Hk]. by apply (H k t).
Qed.

Lemma foldl_sweep_timestamps keys : ∀ ns key,
  nonceTimestamps (foldl sweep_one ns keys) !! key
  = if bool_decide (key ∈ keys) then None else nonceTimestamps ns !! key.
Proof.
  induction keys as [|k keys IH]; intros ns key.
  - by rewrite bool_decide_eq_false_2 by apply not_elem_of_nil.
  - cbn [foldl]. rewrite IH, sweep_one_timestamps.
    destruct (decide (key = k)) as [->|Hne].
    + rewrite lookup_delete_eq. rewrite (bool_decide_eq_true_2 (k ∈ k :: keys)) by left.
      by case_bool_decide.
    + rewrite lookup_delete_ne by done.
      case_bool_decide as H1; case_bool_decide as H2; try done.
      * exfalso. apply H2. by right.
      * apply elem_of_cons in H2 as [?|?]; done.
Qed.

Lemma expired_keys now ns key :
  key ∈ (map_to_list (filter (λ kv, NONCE_EXPIRY_MS * 2 < now - kv.2)
                             (nonceTimestamps ns))).*1
  ↔ ∃ t, nonceTimestamps ns !! key = Some t ∧ NONCE_EXPIRY_MS * 2 < now - t.
Proof.
  rewrite list_elem_of_fmap. split.
  - intros ([k t] & -> & Hin). apply elem_of_map_to_list in Hin.
    apply map_lookup_filter_Some in Hin as [Hk Ht]. by exists t.
  - intros (t & Hk & Ht). exists (key, t). split; [done|].
    apply elem_of_map_to_list, map_lookup_filter_Some. done.
Qed.

(** X9.  The sweep deletes exactly the timestamps that are more than
    twice [NONCE_EXPIRY_MS] (ten minutes) old, and it never makes a nonce
    consumed that was not. *)
Theorem sweep_timestamps (now : Z) (ns : NonceStore) :
  (∀ key, nonceTimestamps (sweep now ns) !! key
          = match nonceTimestamps ns !! key with
            | Some t => if bool_decide (600000 < now - t) then None else Some t
            | None => None
            end)
  ∧ (∀ s n, consumed (sweep now ns) s n -> consumed ns s n).
Proof.
  split.
  - intros key. unfold sweep. rewrite foldl_sweep_timestamps.
    pose proof (expired_keys now ns key) as Hk.
    change (NONCE_EXPIRY_MS * 2) with 600000 in Hk.
    destruct (nonceTimestamps ns !! key) as [t|] eqn:E.
    + case_bool_decide as H1; case_bool_decide as H2; try done.
      * apply Hk in H1 as (t' & [= <-] & ?). done.
      * exfalso. apply H1, Hk. by exists t.
    + case_bool_decide as H1; [|done]. done.
  - intros s n. unfold sweep. generalize (map_to_list
      (filter (λ kv, NONCE_EXPIRY_MS * 2 < now - kv.2) (nonceTimestamps ns))).*1.
    intros keys. revert ns. induction keys as [|k keys IH]; intros ns; simpl; [done|].
    intros H. apply IH in H. by apply sweep_one_subset in H.
Qed.

Lemma foldl_sweep_keeps keys : ∀ ns s n,
  keys_wellformed ns -> NoDup keys ->
  (∀ key, key ∈ keys -> is_Some (nonceTimestamps ns !! key)) ->
  nonceKey s n ∉ keys ->
  consumed ns s n -> consumed (foldl sweep_one ns keys) s n.
Proof.
  induction keys as [|k keys IH]; intros ns s n Hwf Hnd Hdom Hnot Hc; simpl; [done|].
  apply NoDup_cons in Hnd as [Hk Hnd].
  destruct (Hdom k) as [t Ht]; [left|].
  destruct (Hwf k t Ht) as (signer & nonce & -> & Hs & Hn).
  apply IH.
  - by apply sweep_one_keys_wellformed.
  - done.
  - intros key Hkey. rewrite sweep_one_timestamps.
    rewrite lookup_delete_ne by (intros <-; done). apply Hdom. by right.
  - intros Hin. apply Hnot. by right.
  - apply sweep_one_keeps; [done..| |done].
    intros [= -> ->]. apply Hnot. left.
Qed.

Lemma foldl_sweep_removes keys : ∀ ns s n,
  colon_free s = true -> colon_free n = true ->
  nonceKey s n ∈ keys -> ¬ consumed (foldl sweep_one ns keys) s n.
Proof.
  induction keys as [|k keys IH]; intros ns s n Hs Hn Hin; simpl;
    [by apply elem_of_nil in Hin|].
  destruct (decide (nonceKey s n ∈ keys)) as [Hk|Hk]; [by apply IH|].
  assert (k = nonceKey s n) as -> by (apply elem_of_cons in Hin as [?|?]; done).
  intros Hc.
  assert (Hsub : ∀ ks ns', consumed (foldl sweep_one ns' ks) s n -> consumed ns' s n).
  { clear. induction ks as [|k ks IH]; intros ns'; simpl; [done|].
    intros H. apply IH in H. by apply sweep_one_subset in H. }
  apply Hsub in Hc. by apply sweep_one_removes in Hc.
Qed.

(** X10.  How long a nonce stays consumed.  A request accepted at [t]
    (by a store whose timestamp keys are well formed, for a signer
    without a colon, as addresses are) is still refused as a replay after
    every sweep that runs no later than ten minutes after [t], and is
    forgotten by a sweep that runs later: the store then accepts the same
    nonce again. *)
Theorem sweep_retention (c : Crypto) (t now : Z) (ns : NonceStore)
    (sr : SignedRequest) (h : string) :
  keys_wellformed ns ->
  colon_free (toLowerCase (sr_signer sr)) = true ->
  valid (verifySignedRequest c t ns sr h).1 = true ->
  let ns' := (verifySignedRequest c t ns sr h).2 in
  let signer := toLowerCase (sr_signer sr) in
  let nonce := pretty (sd_nonce (sr_data sr)) in
  keys_wellformed ns'
  ∧ nonceTimestamps ns' !! nonceKey signer nonce = Some t
  ∧ (now - t <= 600000 -> consumed (sweep now ns') signer nonce)
  ∧ (600000 < now - t -> ¬ consumed (sweep now ns') signer nonce).
Proof.
  intros Hwf Hcf Hvalid ns' signer nonce.
  assert (Hn : colon_free nonce = true) by apply pretty_Z_colon_free.
  destruct (verifySignedRequest c t ns sr h) as [r ns1] eqn:Hv.
  pose proof (verify_cases _ _ _ _ _ _ _ Hv) as Hcases.
  simpl in Hvalid. subst ns'. simpl.
  destruct Hcases as [(Hf & _)|(_ & [(Hf & _)|(_ & Hnot & Hcons & _)])];
    [congruence..|].
  assert (Hts : nonceTimestamps ns1 = <[nonceKey signer nonce := t]> (nonceTimestamps ns)).
  { revert Hv. unfold verifySignedRequest.
    case_bool_decide; [intros [= <- <-]; done|].
    destruct (negb _); [intros [= <- <-]; done|].
    destruct (_ && _); [intros [= <- <-]; done|].
    case_bool_decide; intros [= <- <-]; done. }
  assert (Hwf1 : keys_wellformed ns1).
  { intros key t' Hk. rewrite Hts in Hk.
    destruct (decide (key = nonceKey signer nonce)) as [->|Hne].
    - by exists signer, nonce.
    - rewrite lookup_insert_ne in Hk by done. by apply (Hwf key t'). }
  assert (Hk : nonceTimestamps ns1 !! nonceKey signer nonce = Some t)
    by (rewrite Hts; apply lookup_insert_eq).
  split; [done|]. split; [done|]. split.
  - intros Hfresh. unfold sweep. apply foldl_sweep_keeps; [done| | | |done].
    + apply NoDup_fst_map_to_list.
    + intros key Hkey. apply expired_keys in Hkey as (t' & -> & _). done.
    + intros Hkey. apply expired_keys in Hkey as (t' & Ht' & Hexp).
      change (NONCE_EXPIRY_MS * 2) with 600000 in Hexp.
      rewrite Hk in Ht'. injection Ht' as <-. lia.
  - intros Hold. unfold sweep. apply foldl_sweep_removes; [done..|].
    apply expired_keys. exists t. done.
Qed.

Lemma sweep_retention_witness :
  keys_wellformed no_nonces
  ∧ colon_free (toLowerCase carol) = true
  ∧ valid (verifySignedRequest toy_crypto 1000 no_nonces (order 7 2000) carol_hash).1 = true
  ∧ ¬ consumed (sweep 700000 (verifySignedRequest toy_crypto 1000 no_nonces
                                (order 7 2000) carol_hash).2)
               (toLowerCase carol) (pretty 7).
Proof.
  assert (H1 : keys_wellformed no_nonces) by (intros key t Hk; done).
  assert (H2 : colon_free (toLowerCase carol) = true) by reflexivity.
  assert (H3 : valid (verifySignedRequest toy_crypto 1000 no_nonces
                        (order 7 2000) carol_hash).1 = true) by reflexivity.
  refine (conj H1 (conj H2 (conj H3 _))).
  apply (sweep_retention toy_crypto 1000 700000 no_nonces (order 7 2000) carol_hash
           H1 H2 H3).
  lia.
Defined.

End SweepFacts.

(** ** Minting from a collection *)

Module MintingFacts.
Import Js Schema Minting JsFacts StorageFacts Samples MoreSamples.

Local Opaque parseFloat add sub lt toFixed8.

Lemma integer_in_range n : - 2 ^ 31 <= n < 2 ^ 31 -> integer n = Ok n.
Proof.
  intros H. unfold integer.
  destruct (Z.leb_spec (- 2 ^ 31) n); [|lia]. destruct (Z.ltb_spec n (2 ^ 31)); [|lia]. done.
Qed.

Lemma numeric_column n : Z.abs n < 10 ^ 18 -> numeric_18_8 n = Ok n.
Proof. intros H. unfold numeric_18_8. by destruct (Z.ltb_spec (Z.abs n) (10 ^ 18)); [|lia]. Qed.

Lemma integer_ok n m : integer n = Ok m -> m = n.
Proof. unfold integer. destruct (_ && _); [by intros [= <-]|done]. Qed.

Lemma numeric_ok n m : numeric_18_8 n = Ok m -> m = n.
Proof. unfold numeric_18_8. destruct (_ <? _); [by intros [= <-]|done]. Qed.

Lemma insertNft_ok tx newId row nft tx' :
  insertNftRow tx newId row = Ok (nft, tx') ->
  cat_nfts tx !! newId = None
  ∧ token_taken tx (nr_collectionId row) (nr_tokenId row) = false
  ∧ nft = row
  ∧ tx' = set_nfts (insert newId nft) tx.
Proof.
  unfold insertNftRow.
  destruct (integer (nr_tokenId row)) as [t|] eqn:Ht; [|done]. apply integer_ok in Ht as ->.
  destruct (numeric_18_8 (nr_mintPrice row)) as [p|] eqn:Hp; [|done]. apply numeric_ok in Hp as ->.
  simpl. destruct (_ || _) eqn:E; [done|].
  apply orb_false_iff in E as [E1 E2]. apply bool_decide_eq_false in E1.
  destruct (_ && _); [done|].
  intros [= <- <-]. repeat split; [|done|by destruct row].
  destruct (cat_nfts tx !! newId) eqn:E; [|done]. exfalso. apply E1. by eexists.
Qed.

Lemma minted_insert c newId nft id :
  cat_nfts c !! newId = None ->
  size (filter (λ kv, nr_collectionId kv.2 = Some id) (<[newId := nft]> (cat_nfts c)))
  = if bool_decide (nr_collectionId nft = Some id) then S (minted c id) else minted c id.
Proof.
  intros Hfresh. unfold minted. case_bool_decide as H.
  - rewrite map_filter_insert_True by done.
    rewrite map_size_insert_None; [done|].
    apply map_lookup_filter_None. by left.
  - rewrite map_filter_insert_False by done.
    by rewrite delete_id by done.
Qed.

(** What a mint writes on [collections] and [nfts], once the collection
    has been found open: a fresh NFT row of the collection, and its
    counter raised by one. *)
Lemma mint_step_supply c newId collectionId collection nft tx tx' :
  supply_kept c ->
  cat_collections c !! collectionId = Some collection ->
  col_mintedCount collection < col_totalSupply collection ->
  nr_collectionId nft = Some collectionId ->
  cat_nfts c !! newId = None ->
  tx = set_nfts (insert newId nft) c ->
  setMintedCount tx collectionId collection (col_mintedCount collection + 1) = Ok tx' ->
  (∀ id col, cat_collections tx' !! id = Some col ->
     col_mintedCount col
     = Z.of_nat (size (filter (λ kv, nr_collectionId kv.2 = Some id) (cat_nfts tx')))
     ∧ col_mintedCount col <= col_totalSupply col)
  ∧ cat_poolBalances tx' = cat_poolBalances c
  ∧ cat_poolTransactions tx' = cat_poolTransactions c.
Proof.
  intros Hk Hcol Hlt Hn Hfresh -> Hset. unfold setMintedCount in Hset.
  destruct (integer _) as [m|] eqn:Hm; [|done]. apply integer_ok in Hm as ->.
  simpl in Hset. injection Hset as <-. simpl. split; [|done].
  intros id col Hid. rewrite (minted_insert c newId nft id Hfresh).
  destruct (decide (id = collectionId)) as [->|Hne].
  - rewrite lookup_insert_eq in Hid. injection Hid as <-. simpl.
    rewrite bool_decide_eq_true_2 by done.
    destruct (Hk _ _ Hcol) as [Hc _]. lia.
  - rewrite lookup_insert_ne in Hid by done.
    rewrite bool_decide_eq_false_2 by congruence. by apply Hk.
Qed.

(** X11.  Both mint methods keep the books of every collection: its
    [mintedCount] is the number of its NFT rows and never exceeds its
    [totalSupply], whether the call goes through or throws. *)
Theorem mint_keeps_supply (c : Catalogue) (now : Z) (newId newTxId : string)
    (collectionId encryptedOwner : string) (params : PoolMintFromCollectionParams) :
  supply_kept c ->
  supply_kept (mintFromCollection c newId collectionId encryptedOwner).2
  ∧ supply_kept (poolMintFromCollection c now newId newTxId params).2.
Proof.
  intros Hk. split.
  - unfold mintFromCollection, transaction.
    destruct (cat_collections c !! collectionId) as [col|] eqn:Hcol; [|done].
    destruct (col_isActive col); simpl; [|done].
    destruct (Z.leb_spec (col_totalSupply col) (col_mintedCount col)) as [|Hlt]; [done|].
    destruct (insertNftRow _ _ _) as [[nft tx]|] eqn:Hins; simpl; [|done].
    apply insertNft_ok in Hins as (Hfresh & _ & -> & ->).
    destruct (setMintedCount _ _ _ _) as [tx'|] eqn:Hset; simpl; [|done].
    by pose proof (mint_step_supply c newId collectionId col
                     (mintedNft collectionId col (col_mintedCount col + 1) encryptedOwner)
                     _ tx' Hk Hcol Hlt eq_refl Hfresh eq_refl Hset) as [Hs _].
  - unfold poolMintFromCollection, transaction.
    destruct (cat_collections c !! pm_collectionId params) as [col|] eqn:Hcol; [|done].
    destruct (col_isActive col); simpl; [|done].
    destruct (Z.leb_spec (col_totalSupply col) (col_mintedCount col)) as [|Hlt]; [done|].
    destruct (insertNftRow _ _ _) as [[nft tx]|] eqn:Hins; simpl; [|done].
    apply insertNft_ok in Hins as (Hfresh & _ & -> & ->).
    destruct (setMintedCount _ _ _ _) as [tx'|] eqn:Hset; simpl; [|done].
    pose proof (mint_step_supply c newId (pm_collectionId params) col
                  (mintedNft (pm_collectionId params) col (pm_onChainTokenId params)
                     (pm_encryptedOwner params))
                  _ tx' Hk Hcol Hlt eq_refl Hfresh eq_refl Hset) as [Hs _].
    destruct (cat_poolBalances tx' !! pm_accountHash params) as [pb|]; [|done].
    destruct (lt _ _); [done|].
    destruct (numeric_of_text (toFixed8 (sub _ _))); simpl; [|done].
    destruct (numeric_of_text (toFixed8 (add _ _))); simpl; [|done].
    destruct (numeric_18_8 _); simpl; [|done].
    case_bool_decide; simpl; [done|]. exact Hs.
Qed.

Lemma token_free c collectionId collection tokenId :
  numbered c -> cat_collections c !! collectionId = Some collection ->
  col_mintedCount collection < tokenId ->
  token_taken c (Some collectionId) tokenId = false.
Proof.
  intros Hn Hcol Hlt. apply bool_decide_eq_false.
  intros (id & nft & Hid & Hc & Ht).
  pose proof (Hn id nft collectionId collection Hid Hc Hcol). lia.
Qed.

(** X12.  [mintFromCollection] numbers the tokens of a collection in
    sequence.  In a catalogue whose tokens are numbered from 1 to
    [mintedCount], an active collection gives out token
    [mintedCount + 1], named after the collection, owned by the minter and
    priced at the collection's mint price, raises its counter by one and
    keeps the numbering; once [mintedCount] has reached [totalSupply] it
    refuses with "Collection is sold out" and writes nothing. *)
Theorem mintFromCollection_next_token (c : Catalogue) (newId collectionId : string)
    (encryptedOwner : string) (collection : CollectionRow) :
  numbered c ->
  cat_collections c !! collectionId = Some collection ->
  col_isActive collection = true ->
  0 <= col_mintedCount collection -> col_totalSupply collection < 2 ^ 31 ->
  Z.abs (col_mintPrice collection) < 10 ^ 18 ->
  cat_nfts c !! newId = None ->
  let nft := mintedNft collectionId collection (col_mintedCount collection + 1)
               encryptedOwner in
  let c' := {| cat_collections := <[collectionId := raised collection]> (cat_collections c);
               cat_nfts := <[newId := nft]> (cat_nfts c);
               cat_poolBalances := cat_poolBalances c;
               cat_poolTransactions := cat_poolTransactions c |} in
  mintFromCollection c newId collectionId encryptedOwner
  = (if col_totalSupply collection <=? col_mintedCount collection
     then (Throw (Error "Collection is sold out"), c)
     else (Ok nft, c'))
  ∧ numbered c'.
Proof.
  intros Hn Hcol Hact H0 Hsup Hprice Hfresh nft c'. split.
  - unfold mintFromCollection, transaction. rewrite Hcol, Hact. simpl.
    destruct (Z.leb_spec (col_totalSupply collection) (col_mintedCount collection));
      [done|].
    unfold insertNftRow. simpl.
    rewrite integer_in_range by lia. simpl.
    rewrite (numeric_column _ Hprice). simpl.
    rewrite Hfresh. rewrite bool_decide_eq_false_2 by (intros [? ?]; done). simpl.
    rewrite (token_free c collectionId collection) by (done || lia). simpl.
    rewrite Hcol. rewrite (bool_decide_eq_false_2 (Some collection = None)) by done.
    rewrite ?andb_false_r. simpl.
    unfold setMintedCount. rewrite integer_in_range by lia. simpl. done.
  - intros id n cid col Hid Hc Hcid. simpl in Hid, Hcid.
    destruct (decide (id = newId)) as [->|Hne].
    + rewrite lookup_insert_eq in Hid. injection Hid as <-. simpl in Hc.
      injection Hc as <-. rewrite lookup_insert_eq in Hcid. injection Hcid as <-.
      simpl. lia.
    + rewrite lookup_insert_ne in Hid by done.
      destruct (decide (cid = collectionId)) as [->|Hnc].
      * rewrite lookup_insert_eq in Hcid. injection Hcid as <-. simpl.
        pose proof (Hn id n collectionId collection Hid Hc Hcol). lia.
      * rewrite lookup_insert_ne in Hcid by done. by apply (Hn id n cid col).
Qed.


Lemma max_token_insert c newId nft collectionId :
  cat_nfts c !! newId = None ->
  max_token (set_nfts (insert newId nft) c) collectionId
  = if bool_decide (nr_collectionId nft = collectionId)
    then Some (from_option (Z.max (nr_tokenId nft)) (nr_tokenId nft)
                 (max_token c collectionId))
    else max_token c collectionId.
Proof.
  intros Hfresh. unfold max_token. simpl.
  rewrite map_fold_insert_L; [done| |done].
  intros j1 j2 z1 z2 y _ _ _.
  repeat case_bool_decide; try done. destruct y; simpl; f_equal; lia.
Qed.

Lemma max_token_bound c collectionId id n :
  cat_nfts c !! id = Some n -> nr_collectionId n = collectionId ->
  ∃ m, max_token c collectionId = Some m ∧ nr_tokenId n <= m.
Proof.
  unfold max_token. revert id n.
  apply (map_fold_weak_ind (λ r m, ∀ id n, m !! id = Some n ->
           nr_collectionId n = collectionId -> ∃ mx, r = Some mx ∧ nr_tokenId n <= mx)).
  - intros id n H. done.
  - intros i x m r Hi IH id n Hid Hc.
    destruct (decide (id = i)) as [->|Hne].
    + rewrite lookup_insert_eq in Hid. injection Hid as <-.
      rewrite bool_decide_eq_true_2 by done. eexists. split; [reflexivity|].
      destruct r; simpl; lia.
    + rewrite lookup_insert_ne in Hid by done.
      destruct (IH id n Hid Hc) as (mx & -> & Hle).
      case_bool_decide; [|by exists mx]. eexists. split; [reflexivity|]. simpl. lia.
Qed.

(** X22.  [createNft] without a token id numbers the NFT itself, and the
    number it picks is free.  With a fresh row id, values inside the
    ranges of their columns and a collection that exists (or none), the
    insert goes through with token id [COALESCE(MAX(token_id), 0) + 1]
    over the NFTs of the same collection, so 1 for the first; the unique
    constraint on the token is not violated, and the next NFT numbered
    this way gets the following number. *)
Theorem createNft_auto_number (c : Catalogue) (newId : string) (ins : InsertNft) :
  let collectionId := Minting.or_null (in_collectionId ins) in
  in_tokenId ins = None ->
  cat_nfts c !! newId = None ->
  - 2 ^ 31 <= maxId c collectionId + 1 < 2 ^ 31 ->
  Z.abs (in_mintPrice ins) < 10 ^ 18 ->
  (∀ id, collectionId = Some id -> is_Some (cat_collections c !! id)) ->
  ∃ nft,
    createNft c newId ins = (Ok nft, set_nfts (insert newId nft) c)
    ∧ nr_collectionId nft = collectionId
    ∧ nr_tokenId nft = maxId c collectionId + 1
    ∧ token_taken c collectionId (nr_tokenId nft) = false
    ∧ (max_token c collectionId = None -> nr_tokenId nft = 1)
    ∧ maxId (set_nfts (insert newId nft) c) collectionId = maxId c collectionId + 1.
Proof.
  intros cid Hauto Hfresh Hint Hprice Hfk.
  assert (Hfree : token_taken c cid (maxId c cid + 1) = false).
  { apply bool_decide_eq_false. intros (id & n & Hid & Hc & Ht).
    destruct (max_token_bound c cid id n Hid Hc) as (m & Hm & Hle).
    unfold maxId in Ht. rewrite Hm in Ht. simpl in Ht. lia. }
  unfold createNft, insertNftRow. rewrite Hauto. fold cid. simpl.
  rewrite integer_in_range by done. simpl.
  rewrite (numeric_column _ Hprice). simpl.
  rewrite Hfresh. rewrite bool_decide_eq_false_2 by (intros [? ?]; done). simpl.
  rewrite Hfree. simpl.
  assert (Hfk' : bool_decide (is_Some cid)
                 && bool_decide (cid ≫= (cat_collections c !!.) = None) = false).
  { destruct cid as [id|] eqn:E; [|done]. simpl.
    destruct (Hfk id eq_refl) as [col Hcol]. rewrite Hcol.
    by rewrite (bool_decide_eq_false_2 (Some col = None)) by done. }
  rewrite Hfk'. eexists. split; [reflexivity|]. simpl.
  do 3 (split; [done|]). split.
  - intros Hnone. unfold maxId. by rewrite Hnone.
  - unfold maxId. rewrite max_token_insert by done. simpl.
    rewrite bool_decide_eq_true_2 by done.
    destruct (max_token c cid); simpl; lia.
Qed.

Lemma createNft_auto_number_witness :
  ∃ nft, createNft gallery "n1"
           {| in_collectionId := Some "c1"; in_tokenId := None; in_name := "Veil one";
              in_description := None; in_imageUrl := "ipfs://one";
              in_encryptedOwner := "enc-alice"; in_mintPrice := 10000000;
              in_isMinted := None |}
         = (Ok nft, set_nfts (insert "n1" nft) gallery)
         ∧ nr_tokenId nft = 1.
Proof.
  destruct (createNft_auto_number gallery "n1"
              {| in_collectionId := Some "c1"; in_tokenId := None; in_name := "Veil one";
                 in_description := None; in_imageUrl := "ipfs://one";
                 in_encryptedOwner := "enc-alice"; in_mintPrice := 10000000;
                 in_isMinted := None |})
    as (nft & Heq & _ & _ & _ & Hone & _).
  - reflexivity.
  - reflexivity.
  - vm_compute. split; [discriminate|reflexivity].
  - vm_compute. reflexivity.
  - intros id [= <-]. by eexists.
  - exists nft. split; [exact Heq|]. apply Hone. reflexivity.
Defined.

Lemma gallery_supply_kept : supply_kept gallery.
Proof.
  intros id col H. unfold gallery in H. simpl in H.
  apply lookup_singleton_Some in H as [<- <-].
  split; [reflexivity|]. simpl. lia.
Qed.

Lemma gallery_numbered : numbered gallery.
Proof. intros id nft cid col H. done. Qed.

Lemma mint_keeps_supply_witness :
  supply_kept gallery
  ∧ supply_kept (mintFromCollection gallery "n1" "c1" "enc-alice").2.
Proof.
  refine (conj gallery_supply_kept _).
  exact (proj1 (mint_keeps_supply gallery 1 "n1" "t1" "c1" "enc-alice" pool_mint
                  gallery_supply_kept)).
Defined.

Lemma mintFromCollection_next_token_witness :
  numbered gallery
  ∧ ∃ c', mintFromCollection gallery "n1" "c1" "enc-alice"
          = (Ok (mintedNft "c1" veil 1 "enc-alice"), c')
          ∧ numbered c'.
Proof.
  refine (conj gallery_numbered _).
  destruct (mintFromCollection_next_token gallery "n1" "c1" "enc-alice" veil
              gallery_numbered) as [Hmint Hnum].
  - reflexivity.
  - reflexivity.
  - simpl. lia.
  - reflexivity.
  - reflexivity.
  - reflexivity.
  - eexists. split; [exact Hmint|exact Hnum].
Defined.


End MintingFacts.

(** ** More routes *)

Module PoolRouteFacts.
Import Js Schema Storage Ledger Signing Relayer Routes PoolRoutes Registry.
Import JsFacts StorageFacts ListingFacts RegistryFacts RelayerFacts RouteFacts.
Import Samples MoreSamples.

#[local] Arguments contractAddressOf : simpl never.
Local Opaque parseFloat add sub lt toFixed8.

Lemma buy_success_log w log request :
  success (buyNFTViaRelayer w log request).1 = true ->
  (buyNFTViaRelayer w log request).2
  = log ++ [CallIsListed (rb_collectionAddress request) (rb_tokenId request);
            CallBuyNFT (rb_collectionAddress request) (rb_tokenId request)
              (rb_encryptedBuyer request) (rb_inputProof request)
              (rb_price request * 10 ^ 10)].
Proof.
  unfold buyNFTViaRelayer, getRelayerWallet.
  destruct (configured w); cbn [fst snd]; [|done].
  destruct (contract_isListed w _ _ _) as [e|[|]]; cbn [fst snd]; [done| |done].
  destruct (contract_buyNFT w _ _ _ _ _ _) as [e|hash]; cbn [fst snd]; [done|].
  intros _. by rewrite <- app_assoc.
Qed.

Lemma buy_failure_log w log request :
  success (buyNFTViaRelayer w log request).1 = false ->
  ∃ calls, (buyNFTViaRelayer w log request).2 = log ++ calls.
Proof.
  unfold buyNFTViaRelayer, getRelayerWallet.
  destruct (configured w); cbn [fst snd]; [|by exists []; rewrite app_nil_r].
  destruct (contract_isListed w _ _ _) as [e|[|]]; cbn [fst snd]; [by eexists| |by eexists].
  destruct (contract_buyNFT w _ _ _ _ _ _) as [e|hash]; cbn [fst snd]; [|done].
  intros _. eexists. by rewrite <- app_assoc.
Qed.

Lemma createTrade_cases d t :
  (createTrade d t).2 = d
  ∨ ∃ t', createTrade d t = (Ok t', set_trades (λ ts, ts ++ [t']) d)
          ∧ trade_nftId t' = trade_nftId t
          ∧ trade_encryptedBuyer t' = trade_encryptedBuyer t
          ∧ trade_encryptedSeller t' = trade_encryptedSeller t
          ∧ trade_price t' = trade_price t.
Proof.
  unfold createTrade.
  destruct (references_nft d (trade_nftId t)) as [[]|]; simpl; [|by left].
  unfold numeric_18_8. destruct (_ <? _); simpl; [|by left].
  right. eexists. split; [reflexivity|]. done.
Qed.

(** X14.  [POST /api/pool/buy] checks the buyer's pool balance and never
    touches it: whatever the request and its outcome, the pool balances,
    the pool history and the nonce maps are the ones it found.  A
    purchase that goes through (status 200) found the balance sufficient,
    sent one [buyNFT] to the ledger at the listing's price, appended the
    trade, handed the NFT to the buyer and deactivated the listing. *)
Theorem apiPoolBuy_never_debits (w : World) (pool : PoolContract) (req : PoolBuyRequest)
    (st : ServerState) :
  let r := (apiPoolBuy w pool req st).1 in
  let st' := (apiPoolBuy w pool req st).2 in
  poolBalances (db st') = poolBalances (db st)
  ∧ poolTransactions (db st') = poolTransactions (db st)
  ∧ nonces st' = nonces st
  ∧ (code_of r = 200 ->
     ∃ nft addr listing buyerPoolBalance,
       getNftById (db st) (pbr_nftId req) = Some nft
       ∧ contractAddressOf (db st) nft = Some addr
       ∧ getListingByNftId (db st) (pbr_nftId req) = Some listing
       ∧ getPoolBalance (db st) (pbr_accountHash req) = Some buyerPoolBalance
       ∧ lt (parseFloat (pb_balance buyerPoolBalance))
            (parseFloat (listing_price listing)) = false
       ∧ filter (λ c, is_write c = true) (chainLog st')
         = filter (λ c, is_write c = true) (chainLog st)
           ++ [CallBuyNFT addr (nft_tokenId nft) (pbr_encryptedHandle req)
                 (pbr_inputProof req) (listing_price listing * 10 ^ 10)]
       ∧ trades (db st')
         = trades (db st) ++ [{| trade_nftId := pbr_nftId req;
                                 trade_encryptedBuyer := pbr_encryptedBuyer req;
                                 trade_encryptedSeller := listing_encryptedSeller listing;
                                 trade_price := listing_price listing |}]
       ∧ nft_encryptedOwner <$> nfts (db st') !! pbr_nftId req
         = Some (pbr_encryptedBuyer req)
       ∧ Forall (λ l, listing_id l = listing_id listing -> listing_isActive l = false)
                (listings (db st'))).
Proof.
  intros r st'. subst r st'. unfold apiPoolBuy.
  destruct (isPoolConfigured w pool); simpl; [|done].
  destruct (_ && _); simpl; [|done].
  destruct (getNftById (db st) (pbr_nftId req)) as [nft|] eqn:Hnft; [|done].
  destruct (contractAddressOf (db st) nft) as [addr|] eqn:Haddr; [|done].
  destruct (getListingByNftId (db st) (pbr_nftId req)) as [listing|] eqn:Hl; [|done].
  destruct (listing_isActive listing); simpl; [|done].
  pose proof (checkOnChainListingStatus_reads w (chainLog st) addr (nft_tokenId nft)) as Hreads.
  destruct (checkOnChainListingStatus w (chainLog st) addr (nft_tokenId nft))
    as [status log1]. simpl in Hreads.
  destruct (isListed status); simpl; [|done].
  case_bool_decide as Hown; [done|].
  destruct (getPoolBalance (db st) (pbr_accountHash req)) as [pb|] eqn:Hpb; [|done].
  destruct (lt (parseFloat (pb_balance pb)) (parseFloat (listing_price listing))) eqn:Hlt;
    [done|].
  set (request := {| rb_collectionAddress := addr |}).
  pose proof (buy_success_log w log1 request) as Hlog.
  destruct (buyNFTViaRelayer w log1 request) as [result log2]. simpl in Hlog.
  destruct (success result); simpl; [|done].
  specialize (Hlog eq_refl). subst log2.
  set (t := {| trade_nftId := pbr_nftId req |}).
  destruct (createTrade_cases (db st) t) as [Hsame|(t' & Hct & H1 & H2 & H3 & H4)].
  - destruct (createTrade (db st) t) as [[t'|e] d1] eqn:Hct; simpl in Hsame; subst d1; simpl.
    + exfalso. unfold createTrade in Hct. revert Hct.
      destruct (references_nft _ _) as [[]|]; simpl; [|done].
      unfold numeric_18_8. destruct (_ <? _); simpl; [|done].
      intros [= _ Hd]. apply (f_equal (λ d, length (trades d))) in Hd.
      simpl in Hd. rewrite length_app in Hd. simpl in Hd. lia.
    + done.
  - rewrite Hct. simpl. repeat split; try done.
    intros _. exists nft, addr, listing, pb. repeat split; try done.
    + rewrite filter_app, Hreads. f_equal.
    + f_equal. f_equal. destruct t'; simpl in *; subst; done.
    + unfold getNftById in Hnft. rewrite lookup_alter_eq, Hnft. done.
    + apply List.Forall_map, Forall_forall. intros l _ Hid.
      rewrite deactivate_id in Hid. by apply deactivated.
Qed.





Lemma createListing_frame d newId ins :
  nfts (createListing d newId ins).2 = nfts d
  ∧ trades (createListing d newId ins).2 = trades d
  ∧ poolBalances (createListing d newId ins).2 = poolBalances d
  ∧ poolTransactions (createListing d newId ins).2 = poolTransactions d.
Proof.
  unfold createListing.
  destruct (getListingByNftId d (il_nftId ins)); simpl;
    (destruct (references_nft _ _) as [[]|]; simpl; [|done]);
    (destruct (numeric_18_8 _); simpl; [|done]);
    case_bool_decide; done.
Qed.

Lemma createListing_row d newId ins l :
  (createListing d newId ins).1 = Ok l ->
  listing_id l = newId ∧ listing_nftId l = il_nftId ins
  ∧ listing_encryptedSeller l = il_encryptedSeller ins
  ∧ listing_price l = il_price ins.
Proof.
  unfold createListing.
  set (db1 := match getListingByNftId d (il_nftId ins) with
              | Some l => deactivateListing d (listing_id l)
              | None => d
              end). clearbody db1.
  destruct (references_nft _ _) as [[]|]; simpl; [|done].
  unfold numeric_18_8. destruct (_ <? _); simpl; [|done].
  case_bool_decide; simpl; [done|]. by intros [= <-].
Qed.

(** X17.  [POST /api/listings] lists an NFT for its owner only.  The
    answer is 404 for an NFT that does not exist and 403 when the seller
    named in the request is not the owner on record, and in both cases
    nothing is written.  A 201 carries the new listing, with the price
    and the seller of the request; in a registry with one active listing
    per NFT it is then the listing of the NFT, and the registry still has
    one per NFT.  No outcome touches NFTs, trades or pool accounts. *)
Theorem apiListings_owner_only (newId : string) (data : InsertListing)
    (st : ServerState) :
  single_active (db st) ->
  let r := (apiListings newId data st).1 in
  let st' := (apiListings newId data st).2 in
  single_active (db st')
  ∧ nfts (db st') = nfts (db st) ∧ trades (db st') = trades (db st)
  ∧ poolBalances (db st') = poolBalances (db st)
  ∧ poolTransactions (db st') = poolTransactions (db st)
  ∧ match r with
    | Replied code listing =>
        code = 201
        ∧ (∃ nft, getNftById (db st) (il_nftId data) = Some nft
                  ∧ nft_encryptedOwner nft = il_encryptedSeller data)
        ∧ listing_nftId listing = il_nftId data
        ∧ listing_encryptedSeller listing = il_encryptedSeller data
        ∧ listing_price listing = il_price data
        ∧ getListingByNftId (db st') (il_nftId data)
          = (if listing_isActive listing then Some listing else None)
    | Refused code _ =>
        (code = 404 ∧ getNftById (db st) (il_nftId data) = None ∧ st' = st)
        ∨ (code = 403 ∧ st' = st
           ∧ ∃ nft, getNftById (db st) (il_nftId data) = Some nft
                    ∧ nft_encryptedOwner nft ≠ il_encryptedSeller data)
        ∨ code = 500
    end.
Proof.
  intros Hs r st'. subst r st'. unfold apiListings.
  destruct (getNftById (db st) (il_nftId data)) as [nft|] eqn:Hnft; simpl;
    [|repeat split; try done; by left].
  case_bool_decide as Hown; simpl.
  { repeat split; try done. right. left. repeat split. by exists nft. }
  destruct (createListing_registry (db st) newId data Hs) as [Hs' Hfind].
  destruct (createListing_frame (db st) newId data) as (F1 & F2 & F3 & F4).
  pose proof (createListing_row (db st) newId data) as Hrow.
  destruct (createListing (db st) newId data) as [[l|e] d1]; simpl in *.
  - destruct (Hrow l eq_refl) as (_ & R2 & R3 & R4).
    repeat split; try done.
    + by exists nft.
    + by apply Hfind.
  - repeat split; try done. by right; right.
Qed.

Lemma find_map_same {A} (p : A → bool) (f : A → A) ls :
  (∀ x, x ∈ ls -> f x = x ∨ (p x = false ∧ p (f x) = false)) ->
  List.find p (map f ls) = List.find p ls.
Proof.
  induction ls as [|a ls IH]; intros H; simpl; [done|].
  destruct (H a) as [->|[Hp Hpf]]; [by left| |].
  - rewrite IH; [done|]. intros x Hx. apply H. by right.
  - rewrite Hp, Hpf. apply IH. intros x Hx. apply H. by right.
Qed.

Lemma same_id_same_row d l x :
  NoDup (listing_id <$> listings d) ->
  l ∈ listings d -> x ∈ listings d -> listing_id x = listing_id l -> x = l.
Proof.
  intros Hnd Hl Hx Hid.
  apply list_elem_of_lookup in Hl as [i Hi]. apply list_elem_of_lookup in Hx as [j Hj].
  assert (i = j); [|congruence].
  apply (NoDup_lookup _ i j (listing_id l) Hnd).
  - by rewrite list_lookup_fmap, Hi.
  - by rewrite list_lookup_fmap, Hj, <- Hid.
Qed.

(** X18.  [POST /api/listings/cancel] asks for nothing but the NFT id.
    In a registry with one active listing per NFT and distinct listing
    ids, it answers 400 and writes nothing when the NFT has no active
    listing; otherwise it answers 200, after which the NFT has no active
    listing, every other NFT has the listing it had, and NFTs, trades and
    pool accounts are untouched. *)
Theorem apiListingsCancel_unlists (nftId : string) (st : ServerState) :
  single_active (db st) ->
  NoDup (listing_id <$> listings (db st)) ->
  match getListingByNftId (db st) nftId with
  | None => apiListingsCancel nftId st = (Refused 400 (ErrorBody "NFT is not listed"), st)
  | Some listing =>
      ∃ st', apiListingsCancel nftId st = (Replied 200 (), st')
             ∧ getListingByNftId (db st') nftId = None
             ∧ (∀ other, other ≠ nftId ->
                  getListingByNftId (db st') other = getListingByNftId (db st) other)
             ∧ single_active (db st')
             ∧ nfts (db st') = nfts (db st) ∧ trades (db st') = trades (db st)
             ∧ poolBalances (db st') = poolBalances (db st)
             ∧ nonces st' = nonces st ∧ chainLog st' = chainLog st
  end.
Proof.
  intros Hs Hnd. unfold apiListingsCancel.
  destruct (getListingByNftId (db st) nftId) as [l|] eqn:Hf; [|done].
  destruct (find_active _ _ _ Hf) as (Hin & Hn & Ha). rewrite Ha. simpl.
  eexists. split; [reflexivity|]. simpl. repeat split.
  - apply unlisted_find_none. by apply deactivate_found_unlisted.
  - intros other Hother. unfold getListingByNftId. simpl.
    apply find_map_same. intros x Hx.
    destruct (decide (listing_id x = listing_id l)) as [Hid|Hid].
    + right. assert (x = l) as -> by by apply (same_id_same_row (db st)).
      rewrite deactivate_nftId, Hn.
      rewrite !bool_decide_eq_false_2 by done. done.
    + left. unfold deactivate. by rewrite bool_decide_eq_false_2.
  - by apply deactivateListing_single_active.
Qed.

(** X19.  [GET /api/nfts/:id] reads, and repairs at most one listing.  It
    never writes to the ledger, and leaves NFTs, trades, pool accounts
    and nonce maps alone; the database is either unchanged or has the
    NFT's listing deactivated.  It answers 404 exactly for an NFT that
    does not exist.  A listing in the answer is the active listing on
    record, was confirmed by the ledger whenever the NFT's collection has
    a contract address, and was not repaired away. *)
Theorem apiNftDetails_repairs (w : World) (id : string) (st : ServerState) :
  let r := (apiNftDetails w id st).1 in
  let st' := (apiNftDetails w id st).2 in
  filter (λ c, is_write c = true) (chainLog st')
  = filter (λ c, is_write c = true) (chainLog st)
  ∧ nfts (db st') = nfts (db st) ∧ trades (db st') = trades (db st)
  ∧ poolBalances (db st') = poolBalances (db st) ∧ nonces st' = nonces st
  ∧ (db st' = db st
     ∨ ∃ l, getListingByNftId (db st) id = Some l
            ∧ db st' = deactivateListing (db st) (listing_id l))
  ∧ match r with
    | Refused code _ => code = 404 ∧ getNftById (db st) id = None ∧ st' = st
    | Replied code details =>
        code = 200
        ∧ getNftById (db st) id = Some (det_nft details)
        ∧ det_trades details = getTradesByNftId (db st) id
        ∧ ∀ l, det_listing details = Some l ->
            getListingByNftId (db st) id = Some l
            ∧ listing_isActive l = true
            ∧ db st' = db st
            ∧ (is_Some (truthy (nft_collectionId (det_nft details))) ->
               ∀ addr, contractAddressOf (db st) (det_nft details) = Some addr ->
                 isListed (checkOnChainListingStatus w (chainLog st) addr
                             (nft_tokenId (det_nft details))).1 = true)
    end.
Proof.
  intros r st'. subst r st'. unfold apiNftDetails.
  destruct (getNftById (db st) id) as [nft|] eqn:Hnft; simpl.
  2: { do 5 (split; [done|]). split; [by left|done]. }
  destruct (getListingByNftId (db st) id) as [l|] eqn:Hf; simpl.
  2: { do 5 (split; [done|]). split; [by left|done]. }
  destruct (find_active _ _ _ Hf) as (_ & _ & Ha). rewrite Ha. simpl.
  assert (Hshown : ∀ l', (if listing_isActive l then Some l else None) = Some l' -> l' = l).
  { intros l'. rewrite Ha. by intros [= <-]. }
  case_bool_decide as Hcol; simpl.
  2: { do 5 (split; [done|]). split; [by left|]. do 3 (split; [done|]).
       intros l' Hl'. apply Hshown in Hl' as ->. do 3 (split; [done|]). done. }
  destruct (contractAddressOf (db st) nft) as [addr|] eqn:Haddr; simpl.
  2: { do 5 (split; [done|]). split; [by left|]. do 3 (split; [done|]).
       intros l' Hl'. apply Hshown in Hl' as ->. do 3 (split; [done|]).
       intros _ addr' Hc. congruence. }
  pose proof (checkOnChainListingStatus_reads w (chainLog st) addr (nft_tokenId nft)) as Hreads.
  destruct (checkOnChainListingStatus w (chainLog st) addr (nft_tokenId nft))
    as [status log] eqn:Hcheck. simpl in Hreads.
  destruct (isListed status) eqn:Hlisted; simpl.
  - do 5 (split; [done|]). split; [by left|]. do 3 (split; [done|]).
    intros l' Hl'. apply Hshown in Hl' as ->. do 3 (split; [done|]).
    intros _ addr' Hc. rewrite Haddr in Hc. injection Hc as <-. by rewrite Hcheck.
  - do 5 (split; [done|]). split; [right; by exists l|]. done.
Qed.


Lemma bank_single_active : single_active (db bank).
Proof. intros [|i] [|j] l1 l2 H1 H2; simpl in *; done. Qed.



Lemma apiListings_owner_only_witness :
  single_active (db bank)
  ∧ single_active (db (apiListings "L2" relisting bank).2).
Proof.
  refine (conj bank_single_active _).
  exact (proj1 (apiListings_owner_only "L2" relisting bank bank_single_active)).
Defined.

Lemma apiListingsCancel_unlists_witness :
  single_active (db bank) ∧ NoDup (listing_id <$> listings (db bank))
  ∧ ∃ st', apiListingsCancel "n1" bank = (Replied 200 (), st')
           ∧ getListingByNftId (db st') "n1" = None.
Proof.
  assert (H2 : NoDup (listing_id <$> listings (db bank)))
    by (apply NoDup_singleton).
  refine (conj bank_single_active (conj H2 _)).
  destruct (apiListingsCancel_unlists "n1" bank bank_single_active H2)
    as (st' & Heq & Hnone & _).
  exists st'. split; [exact Heq|exact Hnone].
Defined.

End PoolRouteFacts.

(** ** A private purchase that goes through *)

Module PrivateBuyFacts.
Import Js Schema Storage Ledger Totals Signing Relayer Routes.
Import JsFacts StorageFacts ListingFacts RelayerFacts RouteFacts PoolRouteFacts.
Import Samples.

#[local] Arguments contractAddressOf : simpl never.
Local Opaque parseFloat add sub lt toFixed8.

Lemma authorize_result c w now req st x st1 :
  privateBuyAuthorize c w now req st = (x, st1) ->
  match x with
  | inl r => status r ≠ 200
  | inr _ =>
      valid (verifySignedRequest c now (nonces st) (pr_signedRequest req)
               (pr_accountHash req)).1 = true
      ∧ st1 = with_nonces st (verifySignedRequest c now (nonces st) (pr_signedRequest req)
                                (pr_accountHash req)).2
  end.
Proof.
  unfold privateBuyAuthorize. handler_steps.
  destruct (isRelayerConfigured w); simpl; [|by intros [= <- <-]].
  destruct (isServerFhevmConfigured w); simpl; [|by intros [= <- <-]].
  destruct (privateBuySchema req); simpl; [|by intros [= <- <-]].
  destruct (verifySignedRequest _ _ _ _ _) as [v ns]. simpl.
  destruct (valid v); by intros [= <- <-].
Qed.

Lemma reconcile_result w req st x st2 :
  privateBuyReconcile w req st = (x, st2) ->
  match x with
  | inl r => status r ≠ 200
  | inr (nft, addr, listing) =>
      getNftById (db st) (pr_nftId req) = Some nft
      ∧ contractAddressOf (db st) nft = Some addr
      ∧ getListingByNftId (db st) (pr_nftId req) = Some listing
      ∧ st2 = with_log st (checkOnChainListingStatus w (chainLog st) addr
                             (nft_tokenId nft)).2
  end.
Proof.
  unfold privateBuyReconcile. handler_steps. simpl.
  destruct (getNftById (db st) (pr_nftId req)) as [nft|]; simpl; [|by intros [= <- <-]].
  destruct (contractAddressOf (db st) nft) as [addr|] eqn:Haddr; simpl;
    [|by intros [= <- <-]].
  destruct (getListingByNftId (db st) (pr_nftId req)) as [listing|]; simpl;
    [|by intros [= <- <-]].
  destruct (listing_isActive listing); simpl; [|by intros [= <- <-]].
  destruct (checkOnChainListingStatus w (chainLog st) addr (nft_tokenId nft))
    as [onChain log] eqn:Hcheck.
  simpl. destruct (isListed onChain); simpl; intros [= <- <-]; [|done].
  by rewrite Hcheck.
Qed.

Lemma funds_result w req nft addr listing st x st3 :
  privateBuyFunds w req nft addr listing st = (x, st3) ->
  match x with
  | inl r => status r ≠ 200
  | inr enc =>
      (∃ pb, getPoolBalance (db st) (pr_accountHash req) = Some pb
             ∧ lt (parseFloat (pb_balance pb)) (parseFloat (listing_price listing)) = false)
      ∧ st3 = with_log st (chainLog st ++ [CallEncrypt addr (pr_buyerAddress req)])
  end.
Proof.
  unfold privateBuyFunds. handler_steps. simpl.
  case_bool_decide; simpl; [by intros [= <- <-]|].
  destruct (getPoolBalance (db st) (pr_accountHash req)) as [pb|]; simpl;
    [|by intros [= <- <-]].
  destruct (lt _ _) eqn:Hlt; simpl; [by intros [= <- <-]|].
  destruct (fhevm_encrypt w _ _ _); simpl; intros [= <- <-]; [done|].
  split; [by exists pb|done].
Qed.

Lemma purchase_commits d now params buyer :
  poolBalances d !! buy_buyerAccountHash params = Some buyer ->
  is_Some (nfts d !! buy_nftId params) ->
  buy_buyerAccountHash params ≠ buy_encryptedSeller params ->
  in_range (pb_balance buyer) -> in_range (pb_totalSpent buyer) ->
  in_range (buy_price params) ->
  (∀ es, poolBalances d !! buy_encryptedSeller params = Some es -> in_range (pb_balance es)) ->
  buy_price params <= pb_balance buyer ->
  ∃ r, atomicPoolBuy d now params = (Ok r, fixed_buy d now params buyer).
Proof.
  intros Hbuyer [nft Hnft] Hne Hb Hs Hp Hseller Hle.
  rewrite (buy_in_range d now params buyer Hbuyer Hb Hs Hp Hseller).
  destruct (Z.ltb_spec (pb_balance buyer) (buy_price params)); [lia|].
  rewrite Hnft. simpl.
  rewrite (lookup_insert_ne _ _ _ _ Hne).
  eexists. f_equal.
  unfold fixed_buy, deactivateListing, updateNftOwner, set_listings, set_nfts,
    set_trades, set_poolTransactions, set_poolBalances, fixed_credit. simpl.
  destruct (poolBalances d !! buy_encryptedSeller params); done.
Qed.

(** X21.  A private purchase answered with 200, end to end.  With every
    stored amount and the listing's price within ten million, and a
    seller account other than the buyer's: the request was authorized
    and its nonce is now consumed; the ledger received exactly one
    write, the [buyNFT] of the token at the listing's price in wei; and
    the database is the one before the request with the fixed-point
    settlement applied: the buyer's account paid exactly the price, the
    seller's received it, the trade and the two history rows were added,
    the NFT changed hands and the listing is inactive. *)
Theorem private_purchase_settles (c : Crypto) (w : World) (now : Z)
    (req : PrivateBuyRequest) (st : ServerState) :
  status (run (apiBuyPrivate c w now req) st).1 = 200 ->
  pool_in_range (db st) ->
  (∀ l, getListingByNftId (db st) (pr_nftId req) = Some l ->
        in_range (listing_price l) ∧ pr_accountHash req ≠ listing_encryptedSeller l) ->
  ∃ nft addr listing buyer enc hash st',
    run (apiBuyPrivate c w now req) st
    = ({| status := 200; body := PurchasedPrivately (Some hash) (listing_price listing) |}, st')
    ∧ getNftById (db st) (pr_nftId req) = Some nft
    ∧ contractAddressOf (db st) nft = Some addr
    ∧ getListingByNftId (db st) (pr_nftId req) = Some listing
    ∧ poolBalances (db st) !! pr_accountHash req = Some buyer
    ∧ listing_price listing <= pb_balance buyer
    ∧ db st' = fixed_buy (db st) now
                 (poolBuyParams req listing
                    {| success := true; txHash := Some hash; rb_error := None |}) buyer
    ∧ balance_of (db st') (pr_accountHash req)
      = Some (pb_balance buyer - listing_price listing)
    ∧ consumed (nonces st') (toLowerCase (sr_signer (pr_signedRequest req)))
               (pretty (sd_nonce (sr_data (pr_signedRequest req))))
    ∧ filter (λ call, is_write call = true) (chainLog st')
      = filter (λ call, is_write call = true) (chainLog st)
        ++ [CallBuyNFT addr (nft_tokenId nft) enc.1 enc.2 (listing_price listing * 10 ^ 10)].
Proof.
  intros H200 Hrange Hlisting.
  revert H200. unfold apiBuyPrivate, privateBuyValidate, run.
  unfold mbind, handler_bind, bind.
  destruct (privateBuyAuthorize c w now req st) as [[r|[]] st1] eqn:Hauth;
    apply authorize_result in Hauth; [done|].
  destruct Hauth as [Hvalid ->].
  destruct (verifySignedRequest c now (nonces st) (pr_signedRequest req)
              (pr_accountHash req)) as [v ns1] eqn:Hv.
  cbn [fst snd] in *.
  destruct (privateBuyReconcile w req (with_nonces st ns1))
    as [[r|[[nft addr] listing]] st2] eqn:Hrec; apply reconcile_result in Hrec; [done|].
  destruct Hrec as (Hnft & Haddr & Hl & ->). simpl in Hnft, Haddr, Hl.
  pose proof (checkOnChainListingStatus_reads w (chainLog st) addr (nft_tokenId nft)) as Hreads.
  change (chainLog (with_nonces st ns1)) with (chainLog st).
  destruct (checkOnChainListingStatus w (chainLog st) addr (nft_tokenId nft))
    as [onChain log1]. cbn [fst snd] in *.
  destruct (privateBuyFunds w req nft addr listing (with_log (with_nonces st ns1) log1))
    as [[r|enc] st3] eqn:Hfunds; apply funds_result in Hfunds; [done|].
  destruct Hfunds as ((buyer & Hbuyer & Hlt) & ->). simpl in Hbuyer.
  unfold pure. simpl.
  unfold privateBuySubmit, step. simpl.
  pose proof (buy_success_log w (log1 ++ [CallEncrypt addr (pr_buyerAddress req)])
                (relayerBuyRequest nft addr listing enc)) as Hlog.
  destruct (buyNFTViaRelayer w (log1 ++ [CallEncrypt addr (pr_buyerAddress req)])
              (relayerBuyRequest nft addr listing enc)) as [result log3] eqn:Hbuy.
  cbn [fst snd] in Hlog.
  destruct (success result) eqn:Hsucc; simpl; [|done].
  specialize (Hlog eq_refl). subst log3.
  assert (∃ hash, result = {| success := true; txHash := Some hash; rb_error := None |})
    as [hash ->].
  { revert Hbuy Hsucc. unfold buyNFTViaRelayer.
    destruct (getRelayerWallet w); [by intros [= <- _]|].
    destruct (contract_isListed w _ _ _) as [?|[|]]; [by intros [= <- _]| |by intros [= <- _]].
    destruct (contract_buyNFT w _ _ _ _ _ _) as [?|hash]; [by intros [= <- _]|].
    intros [= <- _] _. by exists hash. }
  destruct (Hlisting listing Hl) as [Hprice Hne].
  destruct (Hrange _ _ Hbuyer) as (Hb & _ & Hs).
  rewrite (lt_parseFloat _ _ Hb Hprice) in Hlt. apply Z.ltb_ge in Hlt.
  unfold privateBuyCommit. handler_steps. simpl.
  set (params := poolBuyParams req listing _).
  destruct (purchase_commits (db st) now params buyer) as [res Hcommit];
    [done|by eexists|done..| |done|].
  { intros es Hes. by destruct (Hrange _ _ Hes). }
  rewrite Hcommit. simpl. intros _.
  exists nft, addr, listing, buyer, enc, hash. eexists. split; [reflexivity|].
  simpl. do 6 (split; [done|]). split; [|split].
  - unfold balance_of, fixed_buy. simpl.
    rewrite lookup_insert_ne by done. by rewrite lookup_insert_eq.
  - pose proof (verify_cases _ _ _ _ _ _ _ Hv) as Hcases.
    destruct Hcases as [(Hf & _)|(_ & [(Hf & _)|(_ & _ & Hcons & _)])]; [congruence..|done].
  - rewrite !filter_app, Hreads. simpl.
    rewrite app_nil_r. done.
Qed.

Lemma private_purchase_settles_witness :
  status (run (apiBuyPrivate toy_crypto (chain true true) 1000 (private_buy 7 2000)) shop).1
  = 200
  ∧ pool_in_range (db shop)
  ∧ ∃ st', (run (apiBuyPrivate toy_crypto (chain true true) 1000 (private_buy 7 2000))
              shop).2 = st'
           ∧ balance_of (db st') carol_hash = Some (50000000 - 20000000).
Proof.
  assert (H1 : status (run (apiBuyPrivate toy_crypto (chain true true) 1000
                              (private_buy 7 2000)) shop).1 = 200)
    by (vm_compute; reflexivity).
  assert (H2 : pool_in_range (db shop)).
  { intros h pb Hpb. unfold shop in Hpb. simpl in Hpb.
    apply lookup_singleton_Some in Hpb as [_ <-].
    repeat split; unfold in_range; vm_compute; discriminate. }
  refine (conj H1 (conj H2 _)).
  destruct (private_purchase_settles toy_crypto (chain true true) 1000 (private_buy 7 2000)
              shop H1 H2)
    as (nft & addr & listing & buyer & enc & hash & st' & Hrun & _ & _ & Hl & Hb & _ & _
        & Hbal & _).
  - intros l Hl. vm_compute in Hl. injection Hl as <-.
    split; [unfold in_range; vm_compute; discriminate|discriminate].
  - exists st'. split; [by rewrite Hrun|].
    vm_compute in Hl. injection Hl as <-.
    vm_compute in Hb. injection Hb as <-. exact Hbal.
Defined.

End PrivateBuyFacts.

Module RelayerListingFacts.
Import Schema Storage Signing Relayer Routes PoolRoutes RelayerListing Registry.
Import ListingFacts RouteFacts RegistryFacts Samples ListingSamples.

Lemma authorization_cases c now sr h st v st' :
  authorization c now sr h st = (v, st') ->
  db st' = db st
  ∧ (∀ s n, consumed (nonces st) s n -> consumed (nonces st') s n)
  ∧ (v = None ->
     authorized c now (nonces st) sr h
     ∧ consumed (nonces st') (toLowerCase (sr_signer sr)) (pretty (sd_nonce (sr_data sr)))).
Proof.
  unfold authorization, authorized.
  destruct (verifySignedRequest c now (nonces st) sr h) as [r ns] eqn:Hv.
  intros [= <- <-]. split; [done|]. simpl.
  destruct (verify_cases _ _ _ _ _ _ _ Hv)
    as [(Hr & -> & _)|(Hreach & [(Hr & _ & _ & Hsame)|(Hr & Hfresh & Hnow & Hkeep)])];
    rewrite Hr; (split; [|done || auto]); try done.
  intros s n. by apply Hsame.
Qed.

Lemma authorization_replayed c now sr h st :
  consumed (nonces st) (toLowerCase (sr_signer sr)) (pretty (sd_nonce (sr_data sr))) ->
  ∃ e st', authorization c now sr h st = (Some e, st') ∧ db st' = db st.
Proof.
  intros Hc. unfold authorization.
  pose proof (verify_consumed c now (nonces st) sr h Hc) as [Hr _].
  destruct (verifySignedRequest c now (nonces st) sr h) as [r ns]. simpl in Hr.
  rewrite Hr. eauto.
Qed.

Lemma added_app log new : added log (log ++ new) = new.
Proof. apply drop_app_length. Qed.

Lemma added_nil log : added log log = [].
Proof. apply drop_all. Qed.

Lemma isRelayerOwner_reads w cs log addr tok :
  ∃ new, (isRelayerOwner w cs log addr tok).2 = log ++ new
         ∧ Forall (λ call, sends call = false) new.
Proof.
  unfold isRelayerOwner. destruct (getRelayerWallet w); simpl.
  { exists []. by rewrite app_nil_r. }
  exists [CallOwnerOf addr tok].
  split; [by destruct (contract_ownerOf cs (length log) addr tok)|].
  by repeat constructor.
Qed.

Lemma unlistNFTViaRelayer_calls w cs log addr tok :
  ∃ new, (unlistNFTViaRelayer w cs log addr tok).2 = log ++ new
         ∧ Forall (λ call, sends call = false ∨ call = CallUnlistNFT addr tok) new.
Proof.
  unfold unlistNFTViaRelayer. destruct (getRelayerWallet w); simpl.
  { exists []. by rewrite app_nil_r. }
  destruct (contract_ownerOf cs (length log) addr tok) as [e|owner]; simpl.
  { exists [CallOwnerOf addr tok]. split; [done|]. repeat (apply Forall_cons_2; [by (left + right)|]); apply Forall_nil_2. }
  case_bool_decide; simpl.
  { exists [CallOwnerOf addr tok]. split; [done|]. repeat (apply Forall_cons_2; [by (left + right)|]); apply Forall_nil_2. }
  destruct (contract_isListed w _ addr tok) as [e|[|]]; simpl.
  - exists [CallOwnerOf addr tok; CallListed addr tok].
    split; [by rewrite <- app_assoc|]. repeat (apply Forall_cons_2; [by (left + right)|]); apply Forall_nil_2.
  - exists [CallOwnerOf addr tok; CallListed addr tok; CallUnlistNFT addr tok].
    split.
    { destruct (contract_unlistNFT cs _ addr tok); simpl; by rewrite <- !app_assoc. }
    repeat (apply Forall_cons_2; [by (left + right)|]); apply Forall_nil_2.
  - exists [CallOwnerOf addr tok; CallListed addr tok].
    split; [by rewrite <- app_assoc|]. repeat (apply Forall_cons_2; [by (left + right)|]); apply Forall_nil_2.
Qed.

Lemma unlist_cases c w cs now req st log r st' log' :
  apiRelayerUnlist c w cs now req st log = (r, st', log') ->
  let sr := ur_signedRequest req in
  let owner := keccak256 c (toLowerCase (sr_signer sr)) in
  ∃ new, log' = log ++ new
  ∧ ((db st' = db st ∧ Forall (λ call, sends call = false) new)
     ∨ ∃ nft addr listing,
         authorized c now (nonces st) sr owner
         ∧ getNftById (db st) (ur_nftId req) = Some nft
         ∧ nft_encryptedOwner nft = owner
         ∧ contractAddressOf (db st) nft = Some addr
         ∧ getListingByNftId (db st) (ur_nftId req) = Some listing
         ∧ (db st' = db st ∨ db st' = deactivateListing (db st) (listing_id listing))
         ∧ Forall (λ call, sends call = false ∨ call = CallUnlistNFT addr (nft_tokenId nft))
                  new).
Proof.
  unfold apiRelayerUnlist. cbv zeta.
  case_bool_decide as Haction; simpl.
  2:{ intros [= <- <- <-]. exists []. rewrite app_nil_r. split; [done|]. left. by split. }
  destruct (authorization c now (ur_signedRequest req) (ur_encryptedOwner req) st)
    as [v st1] eqn:Hauth.
  destruct (authorization_cases _ _ _ _ _ _ _ Hauth) as (Hdb & _ & Hv).
  assert (Hquiet : ∀ r0 : Reply UnlistBody,
            (r0, st1, log) = (r, st', log') ->
            ∃ new, log' = log ++ new
            ∧ ((db st' = db st ∧ Forall (λ call, sends call = false) new)
               ∨ ∃ nft addr listing,
                   authorized c now (nonces st) (ur_signedRequest req)
                     (keccak256 c (toLowerCase (sr_signer (ur_signedRequest req))))
                   ∧ getNftById (db st) (ur_nftId req) = Some nft
                   ∧ nft_encryptedOwner nft
                     = keccak256 c (toLowerCase (sr_signer (ur_signedRequest req)))
                   ∧ contractAddressOf (db st) nft = Some addr
                   ∧ getListingByNftId (db st) (ur_nftId req) = Some listing
                   ∧ (db st' = db st
                      ∨ db st' = deactivateListing (db st) (listing_id listing))
                   ∧ Forall (λ call, sends call = false ∨
                                     call = CallUnlistNFT addr (nft_tokenId nft))
                            new)).
  { intros r0 [= <- <- <-]. exists []. rewrite app_nil_r. split; [done|]. left. by split. }
  destruct v as [e|]; [by apply Hquiet|].
  destruct (Hv eq_refl) as (Hok & _). clear Hv.
  assert (Hhash : ur_encryptedOwner req
                  = keccak256 c (toLowerCase (sr_signer (ur_signedRequest req)))).
  { by destruct Hok as ((<- & _) & _). }
  rewrite Hdb.
  destruct (getNftById (db st) (ur_nftId req)) as [nft|] eqn:Hnft; [|by apply Hquiet].
  case_bool_decide as Howner; [by apply Hquiet|].
  destruct (contractAddressOf (db st) nft) as [addr|] eqn:Haddr; [|by apply Hquiet].
  destruct (getListingByNftId (db st) (ur_nftId req)) as [listing|] eqn:Hl;
    [|by apply Hquiet].
  destruct (listing_isActive listing) eqn:Hactive; simpl; [|by apply Hquiet].
  destruct (isRelayerOwner_reads w cs log addr (nft_tokenId nft)) as (new1 & Hlog1 & Hr1).
  destruct (isRelayerOwner w cs log addr (nft_tokenId nft)) as [owns log1].
  simpl in Hlog1. subst log1.
  destruct owns; simpl.
  2:{ intros [= <- <- <-]. exists new1. split; [done|]. left. by split. }
  destruct (unlistNFTViaRelayer_calls w cs (log ++ new1) addr (nft_tokenId nft))
    as (new2 & Hlog2 & Hr2).
  destruct (unlistNFTViaRelayer w cs (log ++ new1) addr (nft_tokenId nft)) as [result log2].
  simpl in Hlog2. subst log2.
  assert (Hcalls : Forall (λ call, sends call = false ∨
                                   call = CallUnlistNFT addr (nft_tokenId nft))
                          (new1 ++ new2)).
  { apply Forall_app. split; [|done].
    eapply Forall_impl; [exact Hr1|]. intros call ->. by left. }
  intros Hres. exists (new1 ++ new2).
  assert (Hout : log' = log ++ new1 ++ new2
                 ∧ (db st' = db st
                    ∨ db st' = deactivateListing (db st) (listing_id listing))).
  { rewrite app_assoc.
    destruct (rr_success result); simpl in Hres;
      [|destruct (from_option _ _ _)]; injection Hres as <- <- <-; simpl; auto. }
  destruct Hout as (Hlog & Hdb'). split; [done|].
  right. exists nft, addr, listing. split_and!; try done.
  - by rewrite <- Hhash.
  - congruence.
Qed.

(** X23. [POST /api/relayer/unlist] changes the database or sends a
    transaction only for a request that passes the signature and nonce
    checks of the wallet whose hash owns the NFT.  Then the only change
    is the deactivation of the NFT's active listing, and the only
    transaction an [unlistNFT] of the NFT's token on its collection.
    Every other request leaves the database as it is and only reads the
    ledger. *)
Theorem apiRelayerUnlist_owner_only (c : Crypto) (w : World) (cs : Collections)
    (now : Z) (req : UnlistRequest) (st : ServerState) (log : list RelayerCall) :
  let '(r, st', log') := apiRelayerUnlist c w cs now req st log in
  let sr := ur_signedRequest req in
  let owner := keccak256 c (toLowerCase (sr_signer sr)) in
  log' = log ++ added log log'
  ∧ ((db st' = db st ∧ Forall (λ call, sends call = false) (added log log'))
     ∨ ∃ nft addr listing,
         authorized c now (nonces st) sr owner
         ∧ getNftById (db st) (ur_nftId req) = Some nft
         ∧ nft_encryptedOwner nft = owner
         ∧ contractAddressOf (db st) nft = Some addr
         ∧ getListingByNftId (db st) (ur_nftId req) = Some listing
         ∧ (db st' = db st ∨ db st' = deactivateListing (db st) (listing_id listing))
         ∧ Forall (λ call, sends call = false ∨ call = CallUnlistNFT addr (nft_tokenId nft))
                  (added log log')).
Proof.
  destruct (apiRelayerUnlist c w cs now req st log) as [[r st'] log'] eqn:Hrun.
  destruct (unlist_cases _ _ _ _ _ _ _ _ _ _ Hrun) as (new & -> & H).
  rewrite added_app. by split.
Qed.

Lemma includes_append a b needle :
  includes b needle = true -> includes (a +:+ b) needle = true.
Proof.
  intros H. induction a as [|ch a IH]; [done|].
  change (String ch a +:+ b) with (String ch (a +:+ b)).
  simpl. rewrite IH. apply orb_true_r.
Qed.

Lemma not_listed_message (tokenId : Z) :
  includes ("Token " +:+ pretty tokenId +:+ " is not listed") "is not listed" = true.
Proof. do 2 apply includes_append. reflexivity. Qed.

Lemma found_is_active d nftId l :
  getListingByNftId d nftId = Some l -> listing_isActive l = true.
Proof. intros H. by destruct (find_active _ _ _ H) as (_ & _ & ?). Qed.

Lemma authorization_passes c now sr h st :
  authorized c now (nonces st) sr h ->
  ∃ st', authorization c now sr h st = (None, st') ∧ db st' = db st
         ∧ consumed (nonces st') (toLowerCase (sr_signer sr)) (pretty (sd_nonce (sr_data sr))).
Proof.
  intros [Hreach Hfresh]. unfold authorization.
  destruct (verifySignedRequest c now (nonces st) sr h) as [r ns] eqn:Hv.
  destruct (verify_cases _ _ _ _ _ _ _ Hv)
    as [(_ & _ & Hnot & _)|(_ & [(_ & _ & Hc & _)|(Hr & _ & Hnow & _)])]; try done.
  rewrite Hr. eexists. split; [done|]. by split.
Qed.

(** X24.  [POST /api/relayer/unlist], when the ledger answers that the
    relayer owns the token and that the token is not listed: the owner's
    authorized request is answered 200 with [synced], the NFT's listing
    is deactivated in the database, and no transaction is sent: the
    ledger is read three times. *)
Theorem apiRelayerUnlist_syncs (c : Crypto) (w : World) (cs : Collections) (now : Z)
    (req : UnlistRequest) (st : ServerState) (log : list RelayerCall)
    (nft : Nft) (addr : string) (listing : Listing) (owner : string) :
  single_active (db st) ->
  sd_action (sr_data (ur_signedRequest req)) = "unlist" ->
  authorized c now (nonces st) (ur_signedRequest req) (ur_encryptedOwner req) ->
  getNftById (db st) (ur_nftId req) = Some nft ->
  nft_encryptedOwner nft = ur_encryptedOwner req ->
  contractAddressOf (db st) nft = Some addr ->
  getListingByNftId (db st) (ur_nftId req) = Some listing ->
  configured w = true ->
  contract_ownerOf cs (length log) addr (nft_tokenId nft) = inr owner ->
  contract_ownerOf cs (S (length log)) addr (nft_tokenId nft) = inr owner ->
  toLowerCase owner = toLowerCase (walletAddress cs) ->
  contract_isListed w (S (S (length log))) addr (nft_tokenId nft) = inr false ->
  ∃ st', apiRelayerUnlist c w cs now req st log
         = (Replied 200 Synced, st',
            log ++ [CallOwnerOf addr (nft_tokenId nft); CallOwnerOf addr (nft_tokenId nft);
                    CallListed addr (nft_tokenId nft)])
         ∧ db st' = deactivateListing (db st) (listing_id listing)
         ∧ getListingByNftId (db st') (ur_nftId req) = None.
Proof.
  intros Hs Haction Hok Hnft Howner Haddr Hl Hw Ho1 Ho2 Hlow Hlisted.
  unfold apiRelayerUnlist. rewrite bool_decide_eq_true_2 by done. simpl.
  destruct (authorization_passes _ _ _ _ _ Hok) as (st1 & -> & Hdb & _).
  rewrite Hdb, Hnft. rewrite bool_decide_eq_false_2 by (intros H; by apply H).
  rewrite Haddr, Hl, (found_is_active _ _ _ Hl). simpl.
  unfold isRelayerOwner, unlistNFTViaRelayer, getRelayerWallet. rewrite Hw, Ho1.
  rewrite bool_decide_eq_true_2 by done. simpl.
  assert (Hlen1 : ∀ a : RelayerCall, length (log ++ [a]) = S (length log))
    by (intros; rewrite length_app; simpl; lia).
  assert (Hlen2 : ∀ a b : RelayerCall, length ((log ++ [a]) ++ [b]) = S (S (length log)))
    by (intros; rewrite !length_app; simpl; lia).
  rewrite Hlen1, Ho2.
  rewrite bool_decide_eq_false_2 by (intros H; by apply H).
  rewrite Hlen2, Hlisted. unfold failure. cbn [rr_success rr_error negb from_option].
  rewrite not_listed_message. rewrite <- !app_assoc. simpl.
  eexists. split; [reflexivity|]. split; [done|]. simpl.
  apply unlisted_find_none. by apply deactivate_found_unlisted.
Qed.

Lemma pooled_single_active : single_active (db pooled).
Proof.
  intros i j l1 l2 H1 H2 _ _ _. unfold pooled in H1, H2. simpl in H1, H2.
  apply list_lookup_singleton_Some in H1 as [-> _].
  apply list_lookup_singleton_Some in H2 as [-> _]. done.
Qed.

Lemma pooled_authorized action fields (n : Z) :
  getTypeName action = Some "Unlist" ∨ getTypeName action = Some "List" ->
  authorized toy_crypto 2000 (nonces pooled) (signed action fields n 100) carol_hash.
Proof.
  intros Ht. split.
  - split; [reflexivity|]. split; [|reflexivity].
    unfold verifySignature. simpl.
    by destruct Ht as [-> | ->].
  - intros (set & Hset & _). done.
Qed.

Lemma apiRelayerUnlist_syncs_witness :
  single_active (db pooled)
  ∧ authorized toy_crypto 2000 (nonces pooled)
      (ur_signedRequest (unlist_request 1 100)) carol_hash
  ∧ ∃ st', apiRelayerUnlist toy_crypto (chain false true) deployed 2000
             (unlist_request 1 100) pooled []
           = (Replied 200 Synced, st',
              [CallOwnerOf "0xc011ec7" 7; CallOwnerOf "0xc011ec7" 7;
               CallListed "0xc011ec7" 7])
           ∧ db st' = deactivateListing (db pooled) "L1"
           ∧ getListingByNftId (db st') "n1" = None.
Proof.
  pose proof (pooled_authorized "unlist" [("nftId", "n1")] 1 (or_introl eq_refl)) as H2.
  refine (conj pooled_single_active (conj H2 _)).
  exact (apiRelayerUnlist_syncs toy_crypto (chain false true) deployed 2000
           (unlist_request 1 100) pooled [] carols_nft "0xc011ec7" carols_listing
           "0x5eaf00d5eaf00d5eaf00d5eaf00d5eaf00d5eaf0"
           pooled_single_active eq_refl H2
           eq_refl eq_refl eq_refl eq_refl eq_refl eq_refl eq_refl eq_refl eq_refl).
Defined.

Lemma unlist_consumes c w cs now req st log r st' log' :
  apiRelayerUnlist c w cs now req st log = (r, st', log') ->
  r ≠ Refused 400 ValidationError -> code_of r ≠ 401 ->
  sd_action (sr_data (ur_signedRequest req)) = "unlist"
  ∧ consumed (nonces st') (toLowerCase (sr_signer (ur_signedRequest req)))
                          (pretty (sd_nonce (sr_data (ur_signedRequest req)))).
Proof.
  unfold apiRelayerUnlist.
  case_bool_decide as Haction; simpl; [|by intros [= <- _ _] H _].
  destruct (authorization c now (ur_signedRequest req) (ur_encryptedOwner req) st)
    as [v st1] eqn:Hauth.
  destruct (authorization_cases _ _ _ _ _ _ _ Hauth) as (_ & _ & Hv).
  destruct v as [e|]; [by intros [= <- _ _] _ H|].
  destruct (Hv eq_refl) as (_ & Hc). clear Hv Hauth.
  intros Hres _ _. split; [done|].
  assert (Hn : nonces st' = nonces st1); [|by rewrite Hn].
  repeat case_match; simplify_eq; done.
Qed.

Lemma authorization_refuses c now sr h st :
  consumed (nonces st) (toLowerCase (sr_signer sr)) (pretty (sd_nonce (sr_data sr))) ->
  ∃ error st', authorization c now sr h st = (Some (ErrorBody error), st')
               ∧ db st' = db st.
Proof.
  intros Hc. unfold authorization.
  pose proof (verify_consumed c now (nonces st) sr h Hc) as [Hr _].
  destruct (verifySignedRequest c now (nonces st) sr h) as [r ns]. simpl in Hr.
  rewrite Hr. eauto.
Qed.

(** X25.  A signed request serves [POST /api/relayer/unlist] once.  When
    a submission got past the schema and the signature check (whatever
    the answer after that: 200, 400, 403, 404 or 500), every later
    submission that carries the same signed request is answered 401,
    leaves the database as it is and does not reach the ledger: at any
    time, for any NFT and owner named beside it, as long as the nonce
    maps have only grown. *)
Theorem apiRelayerUnlist_once (c : Crypto) (w1 w2 : World) (cs1 cs2 : Collections)
    (now1 now2 : Z) (req1 req2 : UnlistRequest) (st st1 st2 : ServerState)
    (log log1 log2 : list RelayerCall) (r1 : Reply UnlistBody) :
  ur_signedRequest req2 = ur_signedRequest req1 ->
  apiRelayerUnlist c w1 cs1 now1 req1 st log = (r1, st1, log1) ->
  r1 ≠ Refused 400 ValidationError -> code_of r1 ≠ 401 ->
  (∀ s n, consumed (nonces st1) s n -> consumed (nonces st2) s n) ->
  ∃ error st3,
    apiRelayerUnlist c w2 cs2 now2 req2 st2 log2 = (Refused 401 (ErrorBody error), st3, log2)
    ∧ db st3 = db st2.
Proof.
  intros Hsame Hrun Hschema Hcode Hgrown.
  destruct (unlist_consumes _ _ _ _ _ _ _ _ _ _ Hrun Hschema Hcode) as (Haction & Hc).
  apply Hgrown in Hc. rewrite <- Hsame in Hc, Haction.
  destruct (authorization_refuses c now2 _ (ur_encryptedOwner req2) _ Hc)
    as (error & st3 & Hauth & Hdb).
  exists error, st3. split; [|done].
  unfold apiRelayerUnlist. rewrite bool_decide_eq_true_2 by done. simpl.
  by rewrite Hauth.
Qed.

Lemma apiRelayerUnlist_once_witness :
  let out := apiRelayerUnlist toy_crypto (chain true true) deployed 2000
               (unlist_request 1 100) pooled [] in
  out.1.1 = Replied 200 (Unlisted (Some "0x22"))
  ∧ ∃ error st3,
      apiRelayerUnlist toy_crypto (chain true true) deployed 3000 (unlist_request 1 100)
        out.1.2 out.2
      = (Refused 401 (ErrorBody error), st3, out.2)
      ∧ db st3 = db out.1.2.
Proof.
  intros out.
  assert (Hout : out = (out.1.1, out.1.2, out.2)) by (by destruct out as [[? ?] ?]).
  assert (Hreply : out.1.1 = Replied 200 (Unlisted (Some "0x22")))
    by (vm_compute; reflexivity).
  refine (conj Hreply _).
  apply (apiRelayerUnlist_once toy_crypto (chain true true) (chain true true)
           deployed deployed 2000 3000 (unlist_request 1 100) (unlist_request 1 100)
           pooled out.1.2 out.1.2 [] out.2 out.2 out.1.1 eq_refl Hout).
  - rewrite Hreply. discriminate.
  - rewrite Hreply. simpl. discriminate.
  - auto.
Defined.

Lemma createListing_inserted d newId ins l d1 :
  createListing d newId ins = (Ok l, d1) ->
  l = {| listing_id := newId; listing_nftId := il_nftId ins;
         listing_encryptedSeller := il_encryptedSeller ins;
         listing_price := il_price ins;
         listing_isActive := default true (il_isActive ins) |}.
Proof.
  unfold createListing.
  destruct (references_nft _ _); simpl; [|done].
  unfold numeric_18_8. destruct (Z.abs (il_price ins) <? 10 ^ 18); simpl; [|done].
  case_bool_decide; [done|]. by intros [= <- _].
Qed.

Lemma isRelayerOwner_true w cs log addr tok log1 :
  isRelayerOwner w cs log addr tok = (true, log1) ->
  configured w = true ∧ log1 = log ++ [CallOwnerOf addr tok].
Proof.
  unfold isRelayerOwner, getRelayerWallet. destruct (configured w); [|done].
  destruct (contract_ownerOf cs (length log) addr tok); [done|]. by intros [= _ <-].
Qed.

Lemma listNFTViaRelayer_success w cs log request result log1 :
  listNFTViaRelayer w cs log request = (result, log1) ->
  rr_success result = true ->
  ∃ hash,
    result = {| rr_success := true; rr_txHash := Some hash; rr_error := None |}
    ∧ log1 = log ++ [CallOwnerOf (rl_collectionAddress request) (rl_tokenId request);
                     CallListNFT (rl_collectionAddress request) (rl_tokenId request)
                       (parseEther (rl_price request)) (rl_encryptedSeller request)
                       (rl_inputProof request)]
    ∧ contract_listNFT cs (S (length log)) (rl_collectionAddress request)
        (rl_tokenId request) (parseEther (rl_price request))
        (rl_encryptedSeller request) (rl_inputProof request) = inr hash.
Proof.
  unfold listNFTViaRelayer, caught_or, failure.
  destruct (getRelayerWallet w); [by intros [= <- _]|].
  destruct (contract_ownerOf cs _ _ _); [by intros [= <- _]|].
  case_bool_decide; [by intros [= <- _]|].
  assert (Hlen : ∀ a : RelayerCall, length (log ++ [a]) = S (length log))
    by (intros; rewrite length_app; simpl; lia).
  rewrite Hlen.
  destruct (contract_listNFT cs _ _ _ _ _ _) as [e|hash]; [by intros [= <- _]|].
  intros [= <- <-] _. exists hash. by rewrite <- app_assoc.
Qed.

(** X26.  [POST /api/listings/relayer] keeps one active listing per NFT,
    and answers with a listing only in one way: the request passed the
    signature and nonce checks for the account that owns the NFT in the
    database, the ledger was read twice for the token's owner, and the
    [listNFT] transaction went through.  The new row is then the NFT's
    active listing; it carries the price of the request body, which is
    also the price sent to the ledger.  A refusal leaves the database as
    it is, unless the insert of the row failed after the transaction. *)
Theorem apiListingsRelayer_lists (c : Crypto) (w : World) (cs : Collections) (now : Z)
    (newId : string) (req : ListRequest) (st st' : ServerState)
    (log log' : list RelayerCall) (r : Reply RelayerListed) :
  single_active (db st) ->
  apiListingsRelayer c w cs now newId req st log = (r, st', log') ->
  single_active (db st')
  ∧ match r with
    | Replied code body =>
        code = 201
        ∧ authorized c now (nonces st) (lr_signedRequest req) (lr_encryptedSeller req)
        ∧ ∃ nft addr hash,
            getNftById (db st) (lr_nftId req) = Some nft
            ∧ nft_encryptedOwner nft = lr_encryptedSeller req
            ∧ contractAddressOf (db st) nft = Some addr
            ∧ log' = log ++ [CallOwnerOf addr (nft_tokenId nft);
                             CallOwnerOf addr (nft_tokenId nft);
                             CallListNFT addr (nft_tokenId nft) (parseEther (lr_price req))
                               (lr_encryptedHandle req) (lr_inputProof req)]
            ∧ contract_listNFT cs (S (S (length log))) addr (nft_tokenId nft)
                (parseEther (lr_price req)) (lr_encryptedHandle req) (lr_inputProof req)
              = inr hash
            ∧ body = {| listed_row :=
                          {| listing_id := newId; listing_nftId := lr_nftId req;
                             listing_encryptedSeller := lr_encryptedSeller req;
                             listing_price := lr_price req; listing_isActive := true |};
                        listed_txHash := Some hash |}
            ∧ getListingByNftId (db st') (lr_nftId req) = Some (listed_row body)
    | Refused code _ =>
        db st' = db st
        ∨ (code = 500 ∧ Exists (λ call, sends call = true) (added log log'))
    end.
Proof.
  intros Hs. unfold apiListingsRelayer.
  destruct (isRelayerConfigured w); simpl; [|by intros [= <- <- <-]; auto].
  destruct (relayerListSchema req); simpl; [|by intros [= <- <- <-]; auto].
  destruct (authorization c now (lr_signedRequest req) (lr_encryptedSeller req) st)
    as [v st1] eqn:Hauth.
  destruct (authorization_cases _ _ _ _ _ _ _ Hauth) as (Hdb & _ & Hv).
  destruct v as [e|]; [intros [= <- <- <-]; rewrite Hdb; auto|].
  destruct (Hv eq_refl) as (Hok & _). clear Hv Hauth.
  rewrite Hdb.
  destruct (getNftById (db st) (lr_nftId req)) as [nft|] eqn:Hnft;
    [|intros [= <- <- <-]; rewrite Hdb; auto].
  case_bool_decide as Howner; [intros [= <- <- <-]; rewrite Hdb; auto|].
  destruct (contractAddressOf (db st) nft) as [addr|] eqn:Haddr;
    [|intros [= <- <- <-]; rewrite Hdb; auto].
  destruct (isRelayerOwner w cs log addr (nft_tokenId nft)) as [owns log1] eqn:Howns.
  destruct owns; simpl; [|intros [= <- <- <-]; rewrite Hdb; auto].
  apply isRelayerOwner_true in Howns as (_ & ->).
  destruct (listNFTViaRelayer _ _ _ _) as [result log2] eqn:Hlist.
  destruct (rr_success result) eqn:Hsuccess; simpl;
    [|intros [= <- <- <-]; rewrite Hdb; auto].
  destruct (listNFTViaRelayer_success _ _ _ _ _ _ Hlist Hsuccess)
    as (hash & -> & -> & Hsent). simpl in Hsent.
  assert (Hlen : ∀ a : RelayerCall, length (log ++ [a]) = S (length log))
    by (intros; rewrite length_app; simpl; lia).
  rewrite Hlen in Hsent. rewrite <- app_assoc. simpl.
  set (ins := {| il_nftId := lr_nftId req; il_encryptedSeller := lr_encryptedSeller req;
                 il_price := lr_price req; il_isActive := None |}).
  destruct (createListing_registry (db st) newId ins Hs) as (Hs' & Hfound).
  destruct (createListing (db st) newId ins) as [[listing|e] d1] eqn:Hcreate;
    intros [= <- <- <-]; simpl in *; (split; [done|]).
  - pose proof (createListing_inserted _ _ _ _ _ Hcreate) as ->. simpl in *.
    split; [done|]. split; [done|]. exists nft, addr, hash.
    split_and!; try done. by rewrite (Hfound _ eq_refl).
  - right. split; [done|]. rewrite added_app.
    apply Exists_cons_tl, Exists_cons_tl, Exists_cons_hd. done.
Qed.

Lemma apiListingsRelayer_lists_witness :
  single_active (db pooled)
  ∧ let out := apiListingsRelayer toy_crypto (chain true true) deployed 2000 "L2"
                 (list_request 1 100) pooled [] in
    ∃ row,
      out.1.1 = Replied 201 {| listed_row := row; listed_txHash := Some "0x11" |}
      ∧ listing_price row = 30000000
      ∧ getListingByNftId (db out.1.2) "n1" = Some row
      ∧ single_active (db out.1.2).
Proof.
  refine (conj pooled_single_active _). intros out.
  assert (Hout : out = (out.1.1, out.1.2, out.2)) by (by destruct out as [[? ?] ?]).
  destruct (apiListingsRelayer_lists _ _ _ _ _ _ _ _ _ _ _ pooled_single_active Hout)
    as (Hs' & Hr).
  assert (Hreply : out.1.1
                   = Replied 201 {| listed_row :=
                                      {| listing_id := "L2"; listing_nftId := "n1";
                                         listing_encryptedSeller := carol_hash;
                                         listing_price := 30000000;
                                         listing_isActive := true |};
                                    listed_txHash := Some "0x11" |})
    by (vm_compute; reflexivity).
  rewrite Hreply in Hr.
  destruct Hr as (_ & _ & nft & addr & hash & _ & _ & _ & _ & _ & _ & Hfound).
  eexists. split; [exact Hreply|]. split; [reflexivity|]. split; [exact Hfound|exact Hs'].
Defined.

End RelayerListingFacts.

Module PrivacyPoolFacts.
Import PrivacyPool PoolContractSamples.

Lemma Event_nested_ind (P : Event → Prop) :
  (∀ value, P (Forced value)) ->
  (∀ sender value f nested ok,
     Forall P nested -> P (Transact sender value f nested ok)) ->
  ∀ e, P e.
Proof.
  intros HF HT. fix IH 1. intros [value|sender value f nested ok]; [apply HF|].
  apply HT. induction nested as [|e nested IHn].
  - apply Forall_nil_2.
  - apply Forall_cons_2; [apply IH|apply IHn].
Qed.

Lemma require_Some b u : require b = Some u -> b = true.
Proof. by destruct b. Qed.

(** An invariant of the bodies and of the transfers is an invariant of
    every event whose calls pass [test]. *)
Lemma execute_invariant (Inv : Pool → Prop) (test : Z → Function → bool) :
  (∀ p value, Inv p -> 0 ≤ value -> Inv (with_held p (held p + value))) ->
  (∀ p sender value f p1 call,
     Inv p -> test sender f = false -> body p sender value f = Some (p1, call) ->
     match call with
     | None => Inv p1
     | Some (_, amount) => amount ≤ held p1 -> Inv (with_held p1 (held p1 - amount))
     end) ->
  ∀ e p p', calls test e = false -> Inv p -> execute p e = Some p' -> Inv p'.
Proof.
  intros Hforced Hbody e.
  induction e as [value|sender value f nested ok IH] using Event_nested_ind;
    intros p p' Hcalls Hp Hrun; simpl in Hrun, Hcalls.
  - destruct (Z.leb_spec 0 value); simpl in Hrun; [|done].
    injection Hrun as <-. by apply Hforced.
  - apply orb_false_iff in Hcalls as [Htest Hnested].
    destruct (body p sender value f) as [[p1 [[target amount]|]]|] eqn:Hb;
      simpl in Hrun; [| |done].
    2:{ injection Hrun as <-. by apply (Hbody _ _ _ _ _ _ Hp Htest Hb). }
    destruct (Z.leb_spec amount (held p1)); simpl in Hrun; [|done].
    case_bool_decide; simpl in Hrun; [|done].
    destruct ok; simpl in Hrun; [|done].
    injection Hrun as <-.
    pose proof (Hbody _ _ _ _ _ _ Hp Htest Hb) as Hp1. simpl in Hp1.
    specialize (Hp1 ltac:(done)).
    clear Hb. revert Hp1. generalize (with_held p1 (held p1 - amount)).
    induction nested as [|e nested IHn]; intros q Hq; [done|].
    simpl in Hnested. apply orb_false_iff in Hnested as [He Hrest].
    apply Forall_cons in IH as [IHe IHrest]. simpl.
    apply IHn; [done|done|].
    destruct (execute q e) as [q'|] eqn:Hq'; simpl; [|done].
    by apply (IHe q q').
Qed.

Lemma run_invariant (Inv : Pool → Prop) (test : Z → Function → bool) :
  (∀ p value, Inv p -> 0 ≤ value -> Inv (with_held p (held p + value))) ->
  (∀ p sender value f p1 call,
     Inv p -> test sender f = false -> body p sender value f = Some (p1, call) ->
     match call with
     | None => Inv p1
     | Some (_, amount) => amount ≤ held p1 -> Inv (with_held p1 (held p1 - amount))
     end) ->
  ∀ events p, Forall (λ e, calls test e = false) events -> Inv p -> Inv (run p events).
Proof.
  intros Hforced Hbody events.
  induction events as [|e events IH]; intros p Hc Hp; [done|].
  apply Forall_cons in Hc as [He Hrest]. simpl. apply IH; [done|].
  unfold step. destruct (execute p e) as [p'|] eqn:Hrun; simpl; [|done].
  by apply (execute_invariant Inv test Hforced Hbody e p p').
Qed.

Lemma accounts_insert (m : gmap Z Z) k v :
  map_fold (λ _ balance sum, balance + sum) 0 (<[k := v]> m)
  = map_fold (λ _ balance sum, balance + sum) 0 m - default 0 (m !! k) + v.
Proof.
  destruct (m !! k) as [old|] eqn:Hk; simpl.
  - rewrite <- insert_delete_eq.
    rewrite map_fold_insert_L; [|intros; lia|apply lookup_delete_eq].
    rewrite (map_fold_delete_L _ _ k old m); [lia|intros; lia|done].
  - rewrite map_fold_insert_L; [lia|intros; lia|done].
Qed.

Lemma getBalance_nonneg p h :
  map_Forall (λ _ balance, 0 ≤ balance) (_balances p) -> 0 ≤ getBalance p h.
Proof.
  intros H. unfold getBalance.
  destruct (_balances p !! h) as [b|] eqn:Hb; simpl; [|done]. by apply (H h b).
Qed.

Lemma MIN_DEPOSIT_positive : 0 < MIN_DEPOSIT.
Proof. reflexivity. Qed.

Lemma checked_add_Some a b c :
  checked_add a b = Some c -> a + b ≤ MAX_UINT256 ∧ c = a + b.
Proof.
  unfold checked_add. destruct (Z.leb_spec (a + b) MAX_UINT256); [|done].
  by intros [= <-].
Qed.

Lemma checked_sub_Some a b c : checked_sub a b = Some c -> b ≤ a ∧ c = a - b.
Proof.
  unfold checked_sub. destruct (Z.leb_spec b a); [|done]. by intros [= <-].
Qed.

(** Runs the guards of a function body found in [H], and turns those
    that passed into propositions. *)
Ltac guards H :=
  repeat (apply bind_Some in H as (? & ? & H));
  repeat match goal with
         | G : require _ = Some _ |- _ => apply require_Some in G
         | G : checked_add _ _ = Some _ |- _ => apply checked_add_Some in G as [? ->]
         | G : checked_sub _ _ = Some _ |- _ => apply checked_sub_Some in G as [? ->]
         | G : _ && _ = true |- _ => apply andb_prop in G as [? ?]
         | G : (_ <=? _) = true |- _ => apply Z.leb_le in G
         | G : (_ <? _) = true |- _ => apply Z.ltb_lt in G
         | G : bool_decide _ = true |- _ => apply bool_decide_eq_true in G
         end.

Lemma body_accounted p sender value f p1 call :
  accounted p -> body p sender value f = Some (p1, call) -> accounted p1.
Proof.
  intros [Hpos Htotal] Hb. unfold body in Hb.
  destruct f; guards Hb; try done; injection Hb as <- <-; try done;
    pose proof (getBalance_nonneg p accountHash Hpos) as Hnn;
    pose proof MIN_DEPOSIT_positive;
    unfold getBalance in *; simpl in *;
    (split; simpl;
     [apply map_Forall_insert_2; [lia|done]
     |unfold accounts_total in *; simpl; rewrite accounts_insert; lia]).
Qed.

Lemma constructed_accounted address deployer funds :
  accounted (constructed address deployer funds).
Proof. split; [apply map_Forall_empty|done]. Qed.

(** X27.  The books of the pool contract are right in every state it
    reaches from its constructor: whatever calls are made, by whomever,
    with whatever the recipients of its transfers do while they are paid
    (calls back into the pool included), no account is negative and
    [totalPoolBalance] is the sum of the accounts. *)
Theorem pool_books_balance (address deployer funds : Z) (events : list Event) :
  accounted (run (constructed address deployer funds) events).
Proof.
  apply (run_invariant accounted (λ _ _, false)).
  - intros p value Hp _. exact Hp.
  - intros p sender value f p1 call Hp _ Hb.
    pose proof (body_accounted _ _ _ _ _ _ Hp Hb) as H1.
    destruct call as [[target amount]|]; [|done]. intros _. exact H1.
  - apply Forall_forall. intros e _.
    induction e as [v|sender value f nested ok IH] using Event_nested_ind; [done|].
    simpl. induction nested as [|e nested IHn]; [done|].
    apply Forall_cons in IH as [He Hrest]. simpl. rewrite He. by apply IHn.
  - apply constructed_accounted.
Qed.

Lemma body_solvent p sender value f p1 call :
  solvent p -> is_emergencyWithdraw sender f = false ->
  body p sender value f = Some (p1, call) ->
  match call with
  | None => solvent p1
  | Some (_, amount) => amount ≤ held p1 -> solvent (with_held p1 (held p1 - amount))
  end.
Proof.
  unfold solvent. intros Hp Htest Hb. unfold body in Hb.
  destruct f; guards Hb; try done; injection Hb as <- <-; simpl in *; lia.
Qed.

(** X28.  As long as [emergencyWithdraw] is not called, the pool
    contract holds at least what it owes: in every state reached from
    the constructor, [totalPoolBalance] is at most the ether of the
    contract, whatever the recipients of its transfers do while they are
    paid. *)
Theorem pool_stays_solvent (address deployer funds : Z) (events : list Event) :
  0 ≤ funds ->
  Forall (λ e, calls is_emergencyWithdraw e = false) events ->
  solvent (run (constructed address deployer funds) events).
Proof.
  intros Hfunds Hevents.
  apply (run_invariant solvent is_emergencyWithdraw); [| |done|done].
  - unfold solvent. intros p value Hp Hv. simpl. lia.
  - intros p sender value f p1 call. apply body_solvent.
Qed.

Lemma pool_stays_solvent_witness :
  0 ≤ 0
  ∧ Forall (λ e, calls is_emergencyWithdraw e = false) busy_day
  ∧ solvent (run fresh_pool busy_day).
Proof.
  assert (H1 : 0 ≤ 0) by lia.
  assert (H2 : Forall (λ e, calls is_emergencyWithdraw e = false) busy_day)
    by (repeat constructor).
  refine (conj H1 (conj H2 _)).
  exact (pool_stays_solvent 900 1 0 busy_day H1 H2).
Defined.

(** X29.  [emergencyWithdraw] pays out the ether and leaves the books
    as they are.  After a call that went through (to a recipient that
    does not call back), every account and [totalPoolBalance] are what
    they were, the contract holds nothing, and every [withdraw] and
    every [deductForMint] reverts. *)
Theorem emergencyWithdraw_strands (p p' : Pool) (sender value recipient : Z) (ok : bool) :
  execute p (Transact sender value (emergencyWithdraw recipient) [] ok) = Some p' ->
  p' = with_held p 0
  ∧ (∀ h, getBalance p' h = getBalance p h)
  ∧ totalPoolBalance p' = totalPoolBalance p
  ∧ ∀ s v h amount r nested ok',
      execute p' (Transact s v (withdraw h amount r) nested ok') = None
      ∧ execute p' (Transact s v (deductForMint h amount) nested ok') = None.
Proof.
  intros Hrun. simpl in Hrun. guards Hrun.
  match goal with H : body _ _ _ _ = Some _ |- _ => unfold body in H; guards H;
    injection H as <- end.
  simpl in *. guards Hrun. injection Hrun as <-.
  assert (Hp' : with_held (with_held p (held p + value)) (held p + value - (held p + value))
                = with_held p 0).
  { unfold with_held. simpl. f_equal. lia. }
  rewrite Hp'. split; [done|]. split; [done|]. split; [done|].
  intros s v h amount r nested ok'. split.
  - simpl. destruct (body (with_held p 0) s v (withdraw h amount r)) as [[p1 call]|] eqn:Hb;
      simpl; [|done].
    unfold body in Hb. guards Hb. injection Hb as <- <-. simpl in *.
    match goal with G : (v =? 0) = true |- _ => apply Z.eqb_eq in G as -> end.
    destruct (Z.leb_spec amount (0 + 0)); [lia|done].
  - simpl. destruct (body (with_held p 0) s v (deductForMint h amount)) as [[p1 call]|] eqn:Hb;
      simpl; [|done].
    unfold body in Hb. guards Hb. injection Hb as <- <-. simpl in *.
    match goal with G : (v =? 0) = true |- _ => apply Z.eqb_eq in G as -> end.
    destruct (Z.leb_spec amount (0 + 0)); [lia|done].
Qed.

Lemma emergencyWithdraw_strands_witness :
  ∃ p',
    execute (run fresh_pool busy_day) (Transact 1 0 (emergencyWithdraw 1) [] true) = Some p'
    ∧ getBalance p' 78 = ether
    ∧ held p' = 0
    ∧ execute p' (Transact 2 0 (withdraw 78 ether 6) [] true) = None.
Proof.
  destruct (execute (run fresh_pool busy_day) (Transact 1 0 (emergencyWithdraw 1) [] true))
    as [p'|] eqn:Hrun; [|by vm_compute in Hrun].
  destruct (emergencyWithdraw_strands _ _ _ _ _ _ Hrun) as (Hp' & Hb & _ & Hw).
  exists p'. split; [done|]. split; [|split].
  - rewrite Hb. vm_compute. reflexivity.
  - by rewrite Hp'.
  - apply Hw.
Defined.

(** X30.  Only the owner and the relayer take anything out of the pool
    contract or change its roles.  A sequence of events in which neither
    of them sends a call, nested calls included, leaves the owner and the
    relayer as they are, and lowers neither an account nor the ether of
    the contract. *)
Theorem outsiders_only_add (p : Pool) (events : list Event) :
  Forall (λ e, calls (privileged p) e = false) events ->
  owner (run p events) = owner p
  ∧ relayer (run p events) = relayer p
  ∧ held p ≤ held (run p events)
  ∧ ∀ h, getBalance p h ≤ getBalance (run p events) h.
Proof.
  intros Hevents.
  apply (run_invariant
           (λ q, owner q = owner p ∧ relayer q = relayer p ∧ held p ≤ held q
                 ∧ ∀ h, getBalance p h ≤ getBalance q h)
           (privileged p)); [| |done|].
  - intros q value (Ho & Hr & Hh & Hb) Hv. simpl. repeat split; try done. lia.
  - intros q sender value f p1 call (Ho & Hr & Hh & Hb) Htest Hbody.
    unfold privileged in Htest. apply orb_false_iff in Htest as [Hso Hsr].
    apply bool_decide_eq_false in Hso, Hsr.
    unfold body in Hbody.
    destruct f; guards Hbody; simpl in *; try done; try congruence.
    injection Hbody as <- <-. simpl. repeat split; try done; [lia|].
    intros h. specialize (Hb h). unfold getBalance in *. simpl in *.
    pose proof MIN_DEPOSIT_positive.
    destruct (decide (h = accountHash)) as [->|Hne].
    + rewrite lookup_insert_eq. simpl. lia.
    + by rewrite lookup_insert_ne.
  - repeat split; done.
Qed.

Lemma outsiders_only_add_witness :
  Forall (λ e, calls (privileged (run fresh_pool busy_day)) e = false) outsiders
  ∧ getBalance (run fresh_pool busy_day) 77
    ≤ getBalance (run (run fresh_pool busy_day) outsiders) 77.
Proof.
  assert (H1 : Forall (λ e, calls (privileged (run fresh_pool busy_day)) e = false)
                      outsiders)
    by (repeat constructor).
  refine (conj H1 _).
  exact (proj2 (proj2 (proj2 (outsiders_only_add _ _ H1))) 77).
Defined.

End PrivacyPoolFacts.
